(** * Jewel tree: gesture state machine and frame integrator

    A shallow embedding of [src/App.tsx] and [src/types.ts].

    The React component keeps its simulation state in refs
    ([stateRef], [zoomTargetIndexRef], [rotVelocityRef], ...) and in a few
    [useState] cells ([currentState], [photoCount], ...).  Here the refs and
    the state cells are the fields of one record [App]; every callback of
    the component ([handleGesture], [predictWebcam], [selectClosestPhoto],
    [addPhoto], [animate]) is a function on that record.

    JavaScript numbers are IEEE-754 doubles.  The algebraic part of the
    development idealises them as real numbers (type [R]); the integer-valued
    cursor is a [Z]; the module [IEEE] at the end of the definitions replays
    the arithmetic of the frame loop on binary64 floats, where NaN exists. *)

From Stdlib Require Import String Reals Lra Lia ZArith Bool List.
From Stdlib Require Floats.
Import ListNotations.
Open Scope string_scope.
Open Scope list_scope.

Open Scope R_scope.

(** ** Numbers and exceptions *)

(** The comparison [a < b] of two numbers, as a boolean. *)
Definition ltb (a b : R) : bool := if Rlt_dec a b then true else false.

(** [Math.hypot(a, b)]. *)
Definition hypot (a b : R) : R := sqrt (a * a + b * b).

(** A computation that either returns or throws a [TypeError] (reading a
    property of [undefined]). *)
Inductive Result (A : Type) : Type :=
| Ok (a : A)
| Throw.
Arguments Ok {A} a.
Arguments Throw {A}.

Definition bind {A B : Type} (r : Result A) (k : A -> Result B) : Result B :=
  match r with
  | Ok a => k a
  | Throw => Throw
  end.

Notation "x <- r ;; k" := (bind r (fun x => k))
  (at level 61, r at next level, right associativity).

(** [a && b] on computations: [b] is evaluated only when [a] returned [true]. *)
Definition andAlso (a b : Result bool) : Result bool :=
  x <- a ;; if x then b else Ok false.

(** ** Data model ([types.ts] and the three.js values the code touches) *)

Module Vector3.
Record t : Type := mk { x : R; y : R; z : R }.

(** [new THREE.Vector3()]. *)
Definition zero : t := mk 0 0 0.

(** [this.lerp(v, alpha)]: each component moves by [alpha] of the gap. *)
Definition lerp (this v : t) (alpha : R) : t :=
  mk (x this + (x v - x this) * alpha)
     (y this + (y v - y this) * alpha)
     (z this + (z v - z this) * alpha).

Definition set_y (this : t) (y' : R) : t := mk (x this) y' (z this).

(** Euclidean distance, [this.distanceTo(v)]. *)
Definition distanceTo (this v : t) : R :=
  sqrt ((x this - x v) * (x this - x v)
        + (y this - y v) * (y this - y v)
        + (z this - z v) * (z this - z v)).
End Vector3.

Module Euler.
Record t : Type := mk { x : R; y : R; z : R }.
End Euler.

(** [AppState] of [types.ts]. *)
Inductive AppState : Type := TREE | SCATTER | ZOOM.

Definition AppState_eqb (a b : AppState) : bool :=
  match a, b with
  | TREE, TREE | SCATTER, SCATTER | ZOOM, ZOOM => true
  | _, _ => false
  end.

(** [HandPosition]; the same shape [{x, y}] holds the angular velocity
    [rotVelocityRef] and an instance's [rotSpeed]. *)
Record HandPosition : Type := mkXY { x : R; y : R }.

(** A landmark of the hand tracker. *)
Record NormalizedLandmark : Type := mkLandmark { lx : R; ly : R; lz : R }.

Record InstanceData : Type := mkInstance {
  treePos : Vector3.t;
  scatterPos : Vector3.t;
  currentPos : Vector3.t;
  scale : R;
  velocity : Vector3.t;
  rotSpeed : HandPosition
}.

Record DustData : Type := mkDust {
  dustPos : Vector3.t;   (* currentPos *)
  baseY : R;
  speed : R
}.

(** An element of a [Float32Array].  A store into such an array converts
    the number to binary32: [fround r] is the element that a store of [r]
    leaves there, [Math.fround(r)], kept symbolic.  What is read off a buffer
    is that an element is the rounding of a given number, never that two
    elements differ. *)
Inductive Float32 : Type := fround (r : R).

(** What [dummy.updateMatrix()] packs into an instance matrix. *)
Record Transform : Type := mkTransform {
  t_position : Vector3.t;
  t_rotation : Euler.t;
  t_scale : R            (* setScalar(s) *)
}.

(** The orientation of a photo: a stored Euler rotation, or the result of
    [lookAt(p)], kept symbolic. *)
Inductive Orientation : Type :=
| Rotation (e : Euler.t)
| LookAt (p : Vector3.t).

(** [mesh.userData] of a photo; a field may be absent from the bag. *)
Record PhotoData : Type := mkPhotoData {
  p_treePos : option Vector3.t;
  p_scatterPos : option Vector3.t;
  baseRot : Euler.t
}.

Record PhotoMesh : Type := mkPhoto {
  planeWidth : R;
  planeHeight : R;
  position : Vector3.t;
  meshScale : Vector3.t;
  orientation : Orientation;
  userData : PhotoData
}.

(** The star: [logicData.star], a mesh with [userData.treePos/scatterPos]. *)
Record Star : Type := mkStar {
  starPos : Vector3.t;
  starRotY : R;
  starTreePos : Vector3.t;
  starScatterPos : Vector3.t
}.

Record LogicData : Type := mkLogic {
  gold : list InstanceData;
  silver : list InstanceData;
  gem : list InstanceData;
  emerald : list InstanceData;
  dust : list DustData;
  star : option Star
}.

(** The children of [mainGroup], in insertion order.  The star and the photos
    live in [logicData.star] and [photoMeshesRef]; the group holds a handle. *)
Inductive Child : Type :=
| InstancedMesh (instanceMatrix : list Transform)
| StarChild
| PointsChild
| PhotoChild.

Record Group : Type := mkGroup {
  rotation : Euler.t;
  children : list Child
}.

Record Camera : Type := mkCamera {
  camPosition : Vector3.t;
  quaternion : R * R * R * R
}.

(** The refs and state cells of the component. *)
Record App : Type := mkApp {
  currentState : AppState;          (* useState *)
  statusText : string;              (* useState *)
  statusColor : string;             (* useState *)
  photoCount : nat;                 (* useState *)
  mainGroup : option Group;         (* mainGroupRef *)
  camera : option Camera;           (* cameraRef *)
  dustSystem : option (list Float32); (* dustSystemRef: its position buffer *)
  logicData : LogicData;            (* logicDataRef *)
  photoMeshes : list PhotoMesh;     (* photoMeshesRef *)
  stateRef : AppState;
  zoomTargetIndex : Z;              (* zoomTargetIndexRef *)
  isHandPresent : bool;             (* isHandPresentRef *)
  handPos : HandPosition;           (* handPosRef *)
  lastHandPos : HandPosition;       (* lastHandPosRef *)
  rotVelocity : HandPosition;       (* rotVelocityRef *)
  time : R                          (* timeRef *)
}.

(** Field updates. *)
Definition setCurrentState (v : AppState) (s : App) : App :=
  mkApp v (statusText s) (statusColor s) (photoCount s) (mainGroup s)
        (camera s) (dustSystem s) (logicData s) (photoMeshes s) (stateRef s)
        (zoomTargetIndex s) (isHandPresent s) (handPos s) (lastHandPos s)
        (rotVelocity s) (time s).

Definition setStatusText (v : string) (s : App) : App :=
  mkApp (currentState s) v (statusColor s) (photoCount s) (mainGroup s)
        (camera s) (dustSystem s) (logicData s) (photoMeshes s) (stateRef s)
        (zoomTargetIndex s) (isHandPresent s) (handPos s) (lastHandPos s)
        (rotVelocity s) (time s).

Definition setStatusColor (v : string) (s : App) : App :=
  mkApp (currentState s) (statusText s) v (photoCount s) (mainGroup s)
        (camera s) (dustSystem s) (logicData s) (photoMeshes s) (stateRef s)
        (zoomTargetIndex s) (isHandPresent s) (handPos s) (lastHandPos s)
        (rotVelocity s) (time s).

Definition setPhotoCount (v : nat) (s : App) : App :=
  mkApp (currentState s) (statusText s) (statusColor s) v (mainGroup s)
        (camera s) (dustSystem s) (logicData s) (photoMeshes s) (stateRef s)
        (zoomTargetIndex s) (isHandPresent s) (handPos s) (lastHandPos s)
        (rotVelocity s) (time s).

Definition set_mainGroup (v : option Group) (s : App) : App :=
  mkApp (currentState s) (statusText s) (statusColor s) (photoCount s) v
        (camera s) (dustSystem s) (logicData s) (photoMeshes s) (stateRef s)
        (zoomTargetIndex s) (isHandPresent s) (handPos s) (lastHandPos s)
        (rotVelocity s) (time s).

Definition set_logicData (v : LogicData) (s : App) : App :=
  mkApp (currentState s) (statusText s) (statusColor s) (photoCount s)
        (mainGroup s) (camera s) (dustSystem s) v (photoMeshes s) (stateRef s)
        (zoomTargetIndex s) (isHandPresent s) (handPos s) (lastHandPos s)
        (rotVelocity s) (time s).

Definition set_photoMeshes (v : list PhotoMesh) (s : App) : App :=
  mkApp (currentState s) (statusText s) (statusColor s) (photoCount s)
        (mainGroup s) (camera s) (dustSystem s) (logicData s) v (stateRef s)
        (zoomTargetIndex s) (isHandPresent s) (handPos s) (lastHandPos s)
        (rotVelocity s) (time s).

Definition set_stateRef (v : AppState) (s : App) : App :=
  mkApp (currentState s) (statusText s) (statusColor s) (photoCount s)
        (mainGroup s) (camera s) (dustSystem s) (logicData s) (photoMeshes s) v
        (zoomTargetIndex s) (isHandPresent s) (handPos s) (lastHandPos s)
        (rotVelocity s) (time s).

Definition set_zoomTargetIndex (v : Z) (s : App) : App :=
  mkApp (currentState s) (statusText s) (statusColor s) (photoCount s)
        (mainGroup s) (camera s) (dustSystem s) (logicData s) (photoMeshes s) (stateRef s)
        v (isHandPresent s) (handPos s) (lastHandPos s)
        (rotVelocity s) (time s).

Definition set_isHandPresent (v : bool) (s : App) : App :=
  mkApp (currentState s) (statusText s) (statusColor s) (photoCount s)
        (mainGroup s) (camera s) (dustSystem s) (logicData s) (photoMeshes s) (stateRef s)
        (zoomTargetIndex s) v (handPos s) (lastHandPos s)
        (rotVelocity s) (time s).

Definition set_handPos (v : HandPosition) (s : App) : App :=
  mkApp (currentState s) (statusText s) (statusColor s) (photoCount s)
        (mainGroup s) (camera s) (dustSystem s) (logicData s) (photoMeshes s) (stateRef s)
        (zoomTargetIndex s) (isHandPresent s) v (lastHandPos s)
        (rotVelocity s) (time s).

Definition set_lastHandPos (v : HandPosition) (s : App) : App :=
  mkApp (currentState s) (statusText s) (statusColor s) (photoCount s)
        (mainGroup s) (camera s) (dustSystem s) (logicData s) (photoMeshes s) (stateRef s)
        (zoomTargetIndex s) (isHandPresent s) (handPos s) v
        (rotVelocity s) (time s).

Definition set_rotVelocity (v : HandPosition) (s : App) : App :=
  mkApp (currentState s) (statusText s) (statusColor s) (photoCount s)
        (mainGroup s) (camera s) (dustSystem s) (logicData s) (photoMeshes s) (stateRef s)
        (zoomTargetIndex s) (isHandPresent s) (handPos s) (lastHandPos s)
        v (time s).

Definition set_time (v : R) (s : App) : App :=
  mkApp (currentState s) (statusText s) (statusColor s) (photoCount s)
        (mainGroup s) (camera s) (dustSystem s) (logicData s) (photoMeshes s) (stateRef s)
        (zoomTargetIndex s) (isHandPresent s) (handPos s) (lastHandPos s)
        (rotVelocity s) v.

Definition setCamera (v : option Camera) (s : App) : App :=
  mkApp (currentState s) (statusText s) (statusColor s) (photoCount s)
        (mainGroup s) v (dustSystem s) (logicData s) (photoMeshes s)
        (stateRef s) (zoomTargetIndex s) (isHandPresent s) (handPos s)
        (lastHandPos s) (rotVelocity s) (time s).

Definition set_dustSystem (v : option (list Float32)) (s : App) : App :=
  mkApp (currentState s) (statusText s) (statusColor s) (photoCount s)
        (mainGroup s) (camera s) v (logicData s) (photoMeshes s) (stateRef s)
        (zoomTargetIndex s) (isHandPresent s) (handPos s) (lastHandPos s)
        (rotVelocity s) (time s).

(** The effect [useEffect(() => { stateRef.current = currentState })]. *)
Definition syncState (s : App) : App := set_stateRef (currentState s) s.

(** ** Gestures ([handleGesture], [isFingerFolded], [selectClosestPhoto]) *)

(** [landmarks[i]] followed by a property read: a [TypeError] when the array
    has no element [i]. *)
Definition landmarkAt (landmarks : list NormalizedLandmark) (i : nat)
  : Result NormalizedLandmark :=
  match nth_error landmarks i with
  | Some p => Ok p
  | None => Throw
  end.

Definition isFingerFolded (landmarks : list NormalizedLandmark) (tipIdx : nat)
  : Result bool :=
  tip <- landmarkAt landmarks tipIdx ;;
  root <- landmarkAt landmarks 0 ;;
  mid <- landmarkAt landmarks (tipIdx - 2) ;;
  let distTip := hypot (lx tip - lx root) (ly tip - ly root) in
  let distMid := hypot (lx mid - lx root) (ly mid - ly root) in
  Ok (ltb distTip distMid).

Definition isFist (landmarks : list NormalizedLandmark) : Result bool :=
  andAlso (isFingerFolded landmarks 8)
    (andAlso (isFingerFolded landmarks 12)
       (andAlso (isFingerFolded landmarks 16) (isFingerFolded landmarks 20))).

Definition pinchDist (landmarks : list NormalizedLandmark) : Result R :=
  p8 <- landmarkAt landmarks 8 ;;
  p4 <- landmarkAt landmarks 4 ;;
  Ok (hypot (lx p8 - lx p4) (ly p8 - ly p4)).

Definition isPinch (landmarks : list NormalizedLandmark) : Result bool :=
  d <- pinchDist landmarks ;; Ok (ltb d 0.05).

(** [selectClosestPhoto]: the cursor after the call, [%] being the truncated
    remainder of JavaScript. *)
Definition nextIndex (len : nat) (idx : Z) : Z :=
  if (len =? 0)%nat then idx
  else if (idx =? -1)%Z then 0%Z
  else Z.rem (idx + 1) (Z.of_nat len).

Definition selectClosestPhoto (s : App) : App :=
  set_zoomTargetIndex (nextIndex (length (photoMeshes s)) (zoomTargetIndex s)) s.

(** How a callback ends: normally, or by an uncaught [TypeError]; the refs
    keep what was written before the throw. *)
Inductive Completion : Type :=
| Normal (s : App)
| TypeError (s : App).

Definition finalState (c : Completion) : App :=
  match c with Normal s | TypeError s => s end.

(** The branch of [handleGesture] taken once both tests are known. *)
Definition applyGesture (pinch fist : bool) (s : App) : App :=
  let current := stateRef s in
  if pinch then
    if AppState_eqb current SCATTER && (0 <? length (photoMeshes s))%nat then
      setStatusColor "#ffd700"
        (setStatusText "âœ‹ Grabbing Photo"
           (setCurrentState ZOOM (selectClosestPhoto s)))
    else s
  else if fist then
    setStatusColor "#00ffaa"
      (setStatusText "âœŠ Aggregated Form" (setCurrentState TREE s))
  else
    if AppState_eqb current TREE || AppState_eqb current ZOOM then
      set_lastHandPos (mkXY (x (handPos s)) (y (handPos s)))
        (setStatusColor "#ffffff"
           (setStatusText "ðŸ– Nebula Scattered (Wave to Rotate)"
              (setCurrentState SCATTER s)))
    else s.

Definition handleGesture (landmarks : list NormalizedLandmark) (s : App)
  : Completion :=
  match landmarkAt landmarks 9 with
  | Throw => TypeError s
  | Ok p9 =>
      let s1 := set_handPos (mkXY (lx p9) (ly p9)) s in
      match isFist landmarks with
      | Throw => TypeError s1
      | Ok fist =>
          match isPinch landmarks with
          | Throw => TypeError s1
          | Ok pinch => Normal (applyGesture pinch fist s1)
          end
      end
  end.

(** [predictWebcam] once the video, the tracker, the renderer and the canvas
    context exist: [result] is [result.landmarks], absent or a list of hands. *)
Definition predictWebcam (result : option (list (list NormalizedLandmark)))
  (s : App) : Completion :=
  match result with
  | Some (marks :: _) => handleGesture marks (set_isHandPresent true s)
  | _ => Normal (set_isHandPresent false s)
  end.

(** One detector frame followed by the re-render in which the sync effect
    runs. *)
Definition detectFrame (result : option (list (list NormalizedLandmark)))
  (s : App) : App :=
  syncState (finalState (predictWebcam result s)).

(** A grab: a pinching hand, then a releasing one. *)
Definition grab (pinch release : list NormalizedLandmark) (s : App) : App :=
  detectFrame (Some [release]) (detectFrame (Some [pinch]) s).

Fixpoint grabs (pinch release : list NormalizedLandmark) (k : nat) (s : App)
  : App :=
  match k with
  | O => s
  | S k' => grab pinch release (grabs pinch release k' s)
  end.

(** Either nothing was selected yet and no mode cell holds [ZOOM], or the
    cursor is an index of the photo list. *)
Definition cursorInv (s : App) : Prop :=
  (zoomTargetIndex s = (-1)%Z /\ currentState s <> ZOOM /\ stateRef s <> ZOOM)
  \/ (0 <= zoomTargetIndex s < Z.of_nat (length (photoMeshes s)))%Z.

(** ** Photo upload ([addPhoto]) *)

(** [group.add(child)]. *)
Definition addChild (c : Child) (g : Group) : Group :=
  mkGroup (rotation g) (children g ++ [c]).

(** [addPhoto(img)].  [random k] is the value that the k-th of the calls
    [Math.random()] written in [addPhoto] returns.  The constructors of
    three.js that run before them (texture, geometries, materials, meshes)
    call the same generator for the UUID of each object; those calls return
    nothing to the component and are not counted. *)
Definition addPhoto (imgWidth imgHeight : R) (random : nat -> R) (s : App)
  : App :=
  match mainGroup s with
  | None => s
  | Some g =>
      let aspect := imgWidth / imgHeight in
      let h := 4 in
      let w := h * aspect in
      let angle := random 0%nat * PI * 2 in
      let rad := 15 + random 1%nat * 10 in
      let y := (random 2%nat - 0.5) * 40 in
      let tree := Vector3.mk (rad * cos angle) y (rad * sin angle) in
      let scatter :=
        Vector3.mk ((random 3%nat - 0.5) * 80) ((random 4%nat - 0.5) * 80)
                   ((random 5%nat - 0.5) * 80) in
      let mesh :=
        mkPhoto w h tree (Vector3.mk 1 1 1)
                (LookAt (Vector3.mk 0 (Vector3.y tree) 0))
                (mkPhotoData (Some tree) (Some scatter)
                             (Euler.mk 0 (angle + PI / 2) 0)) in
      setCurrentState TREE
        (setPhotoCount (photoCount s + 1)
           (set_mainGroup (Some (addChild PhotoChild g))
              (set_photoMeshes (photoMeshes s ++ [mesh]) s)))
  end.

(** An indexed write into a fixed-size buffer ([setMatrixAt], a typed-array
    store): nothing happens past the end. *)
Fixpoint setAt {A : Type} (i : nat) (v : A) (l : list A) : list A :=
  match l, i with
  | [], _ => []
  | _ :: l', O => v :: l'
  | a :: l', S i' => a :: setAt i' v l'
  end.

(** The four instanced categories and their list in [logicData]. *)
Inductive Category : Type := Gold | Silver | Gem | Emerald.

Definition getData (c : Category) (ld : LogicData) : list InstanceData :=
  match c with
  | Gold => gold ld
  | Silver => silver ld
  | Gem => gem ld
  | Emerald => emerald ld
  end.

Definition setData (c : Category) (v : list InstanceData) (ld : LogicData)
  : LogicData :=
  match c with
  | Gold => mkLogic v (silver ld) (gem ld) (emerald ld) (dust ld) (star ld)
  | Silver => mkLogic (gold ld) v (gem ld) (emerald ld) (dust ld) (star ld)
  | Gem => mkLogic (gold ld) (silver ld) v (emerald ld) (dust ld) (star ld)
  | Emerald => mkLogic (gold ld) (silver ld) (gem ld) v (dust ld) (star ld)
  end.

Definition set_dust (v : list DustData) (ld : LogicData) : LogicData :=
  mkLogic (gold ld) (silver ld) (gem ld) (emerald ld) v (star ld).

Definition set_star (v : option Star) (ld : LogicData) : LogicData :=
  mkLogic (gold ld) (silver ld) (gem ld) (emerald ld) (dust ld) v.

(** ** Scene construction ([initThree], [createJewels], [createDust]) *)

(** [Math.random] is a function [random : nat -> R]: [random k] is the value
    returned to the k-th of the calls that the code of the component itself
    makes while it builds the scene (the loops of [createInstancedMesh] and
    of [createDust]).  three.js calls the same generator whenever it builds
    an object, for its UUID: [new THREE.InstancedMesh] and
    [new THREE.Object3D] in [createInstancedMesh] make eight such calls.
    Their values reach no data of the component; they are not among the
    calls that [random] numbers, so that an index here counts the calls of
    the component, not the position in the stream of the generator. *)

Record Config : Type := mkConfig {
  goldCount : nat;
  silverCount : nat;
  gemCount : nat;
  emeraldCount : nat;
  dustCount : nat;
  treeHeight : R;
  maxRadius : R
}.

Definition CONFIG : Config := mkConfig 500 500 350 350 1500 70 28.

(** The values of the refs and state cells before the component mounts. *)
Definition initialApp : App :=
  mkApp TREE "Waiting for camera..." "#ffd700" 0 None None None
        (mkLogic [] [] [] [] [] None) [] TREE (-1) false
        (mkXY 0.5 0.5) (mkXY 0.5 0.5) (mkXY 0 0) 0.

Definition identityTransform : Transform :=
  mkTransform Vector3.zero (Euler.mk 0 0 0) 1.

(** The item that one iteration of the loop of [createInstancedMesh] builds.
    [n] counts the calls of [Math.random()] that the component made before
    the iteration, which makes nine. *)
Definition createItem (random : nat -> R) (n : nat) : InstanceData :=
  let h := (random n - 0.5) * treeHeight CONFIG in
  let progress := (h + treeHeight CONFIG / 2) / treeHeight CONFIG in
  let maxR := maxRadius CONFIG * (1 - progress * 0.9) in
  let r := sqrt (random (n + 1)%nat) * maxR in
  let theta := random (n + 2)%nat * PI * 2 in
  let tree := Vector3.mk (r * cos theta) h (r * sin theta) in
  let scatter :=
    Vector3.mk ((random (n + 3)%nat - 0.5) * 120)
               ((random (n + 4)%nat - 0.5) * 120)
               ((random (n + 5)%nat - 0.5) * 120) in
  mkInstance tree scatter tree (0.5 + random (n + 6)%nat * 1.0)
             (Vector3.mk 0 0 0)
             (mkXY (random (n + 7)%nat * 0.05) (random (n + 8)%nat * 0.05)).

(** The loop of [createInstancedMesh], from instance [i], with [count]
    instances left. *)
Fixpoint createInstances (random : nat -> R) (n i count : nat)
  (dataStore : list InstanceData) (matrices : list Transform)
  : list InstanceData * list Transform * nat :=
  match count with
  | O => (dataStore, matrices, n)
  | S count' =>
      let item := createItem random n in
      let dummy := mkTransform (treePos item) (Euler.mk 0 0 0) 1 in
      createInstances random (n + 9) (S i) count' (dataStore ++ [item])
                      (setAt i dummy matrices)
  end.

(** [createInstancedMesh(geo, mat, count, dataStore, parent)].  The third
    component is the number of calls of [Math.random()] that the component
    has made when the function returns. *)
Definition createInstancedMesh (random : nat -> R) (n count : nat)
  (dataStore : list InstanceData) (parent : Group)
  : list InstanceData * Group * nat :=
  let '(data, matrices, n') :=
    createInstances random n 0 count dataStore
                    (repeat identityTransform count) in
  (data, addChild (InstancedMesh matrices) parent, n').

(** [createJewels(group)]. *)
Definition createJewels (random : nat -> R) (n : nat) (ld : LogicData)
  (group : Group) : LogicData * Group * nat :=
  if (0 <? length (gold ld))%nat then (ld, group, n)
  else
    let '(g, group, n) :=
      createInstancedMesh random n (goldCount CONFIG) (gold ld) group in
    let '(sv, group, n) :=
      createInstancedMesh random n (silverCount CONFIG) (silver ld) group in
    let '(gm, group, n) :=
      createInstancedMesh random n (gemCount CONFIG) (gem ld) group in
    let '(em, group, n) :=
      createInstancedMesh random n (emeraldCount CONFIG) (emerald ld) group in
    let tree := Vector3.mk 0 (treeHeight CONFIG / 2 + 3) 0 in
    let st := mkStar tree 0 tree (Vector3.mk 0 60 0) in
    (mkLogic g sv gm em (dust ld) (Some st), addChild StarChild group, n).

(** The loop of [createDust].  [pos] is a [Float32Array]: what a store
    leaves in it is the binary32 rounding of the coordinate, while the mote
    keeps the double. *)
Fixpoint createMotes (random : nat -> R) (n i count : nat)
  (motes : list DustData) (pos : list Float32)
  : list DustData * list Float32 :=
  match count with
  | O => (motes, pos)
  | S count' =>
      let x := (random n - 0.5) * 100 in
      let y := (random (n + 1)%nat - 0.5) * 100 in
      let z := (random (n + 2)%nat - 0.5) * 100 in
      let pos :=
        setAt (i * 3 + 2) (fround z)
          (setAt (i * 3 + 1) (fround y) (setAt (i * 3) (fround x) pos)) in
      let mote :=
        mkDust (Vector3.mk x y z) y (random (n + 3)%nat * 0.05 + 0.02) in
      createMotes random (n + 4) (S i) count' (motes ++ [mote]) pos
  end.

(** [initThree] on a mounted component: a second call finds the renderer
    and only resizes. *)
Definition initThree (random : nat -> R) (s : App) : App :=
  match mainGroup s with
  | Some _ => s
  | None =>
      let cam := mkCamera (Vector3.mk 0 0 120) (0, 0, 0, 1) in
      let group := mkGroup (Euler.mk 0 0 0) [] in
      let '(ld, group, n) := createJewels random 0 (logicData s) group in
      let '(ld, group, points) :=
        if (0 <? length (dust ld))%nat then (ld, group, dustSystem s)
        else
          let '(motes, pos) :=
            createMotes random n 0 (dustCount CONFIG) (dust ld)
                        (repeat (fround 0) (dustCount CONFIG * 3)) in
          (set_dust motes ld, addChild PointsChild group, Some pos) in
      set_dustSystem points
        (set_logicData ld
           (setCamera (Some cam) (set_mainGroup (Some group) s)))
  end.

(** The scene holds some two thousand objects: proofs take [initThree] apart
    by its equations and never by evaluation. *)
Arguments initThree : simpl never.

(** ** The frame loop ([animate]) *)

(** 1. State management and rotation. *)
Definition rotateGroup (s : App) (g : Group) : App * Group :=
  match stateRef s with
  | SCATTER =>
      let s1 :=
        if isHandPresent s then
          let dx := x (handPos s) - x (lastHandPos s) in
          let dy := y (handPos s) - y (lastHandPos s) in
          set_lastHandPos (mkXY (x (handPos s)) (y (handPos s)))
            (set_rotVelocity
               (mkXY (x (rotVelocity s) + dy * 0.2)
                     (y (rotVelocity s) + dx * 0.2)) s)
        else s in
      let r := rotation g in
      let g1 :=
        mkGroup (Euler.mk (Euler.x r + x (rotVelocity s1))
                          (Euler.y r + y (rotVelocity s1)) (Euler.z r))
                (children g) in
      (set_rotVelocity
         (mkXY (x (rotVelocity s1) * 0.95) (y (rotVelocity s1) * 0.95)) s1,
       g1)
  | TREE =>
      let r := rotation g in
      (s, mkGroup (Euler.mk (Euler.x r * 0.95) (Euler.y r + 0.002) (Euler.z r))
                  (children g))
  | ZOOM => (s, g)
  end.

(** 2. The body of the loop of [updateMeshGroup] for instance [i]. *)
Definition updateItem (currentState : AppState) (time : R) (i : nat)
  (item : InstanceData) : InstanceData * Transform :=
  let target :=
    match currentState with TREE => treePos item | _ => scatterPos item end in
  let target :=
    if AppState_eqb currentState ZOOM then scatterPos item else target in
  let pos := Vector3.lerp (currentPos item) target 0.06 in
  let pos :=
    if AppState_eqb currentState SCATTER
    then Vector3.set_y pos (Vector3.y pos + sin (time + INR i) * 0.02)
    else pos in
  let s := scale item in
  let s := if AppState_eqb currentState ZOOM then s * 0.5 else s in
  (mkInstance (treePos item) (scatterPos item) pos (scale item)
              (velocity item) (rotSpeed item),
   mkTransform pos
     (Euler.mk (time * x (rotSpeed item)) (time * y (rotSpeed item)) 0) s).

Arguments updateItem : simpl never.

(** The loop [for (i = ...; i < data.length; i++)], started at index [i]. *)
Fixpoint updateItems (currentState : AppState) (time : R) (i : nat)
  (data : list InstanceData) (matrices : list Transform)
  : list InstanceData * list Transform :=
  match data with
  | [] => ([], matrices)
  | item :: rest =>
      let '(item', dummy) := updateItem currentState time i item in
      let '(rest', matrices') :=
        updateItems currentState time (S i) rest (setAt i dummy matrices) in
      (item' :: rest', matrices')
  end.

Definition updateMeshGroup (currentState : AppState) (time : R)
  (meshIndex : nat) (c : Category) (st : LogicData * Group)
  : LogicData * Group :=
  let '(ld, g) := st in
  match nth_error (children g) meshIndex with
  | Some (InstancedMesh matrices) =>
      let '(data', matrices') :=
        updateItems currentState time 0 (getData c ld) matrices in
      (setData c data' ld,
       mkGroup (rotation g)
               (setAt meshIndex (InstancedMesh matrices') (children g)))
  | _ => (ld, g)
  end.

(** 3. The body of the loop over the dust motes. *)
Definition updateDustMote (currentState : AppState) (time : R) (i : nat)
  (p : DustData) : DustData :=
  let c := dustPos p in
  match currentState with
  | TREE =>
      let angle := time * 0.2 + baseY p in
      let r := 35 in
      let x' := Vector3.x c + (cos angle * r - Vector3.x c) * 0.02 in
      let z' := Vector3.z c + (sin angle * r - Vector3.z c) * 0.02 in
      let y' := Vector3.y c + 0.1 in
      let y' := if ltb 60 y' then -60 else y' in
      mkDust (Vector3.mk x' y' z') (baseY p) (speed p)
  | _ =>
      mkDust (Vector3.set_y c (Vector3.y c + sin (time + INR i) * 0.05))
             (baseY p) (speed p)
  end.

(** The loop over [logicData.dust], started at index [i]; it copies each
    position into the buffer of the point cloud, a [Float32Array]: the
    buffer receives the binary32 rounding of each coordinate. *)
Fixpoint updateDust (currentState : AppState) (time : R) (i : nat)
  (motes : list DustData) (positions : list Float32)
  : list DustData * list Float32 :=
  match motes with
  | [] => ([], positions)
  | p :: rest =>
      let p' := updateDustMote currentState time i p in
      let c := dustPos p' in
      let positions :=
        setAt (i * 3 + 2) (fround (Vector3.z c))
          (setAt (i * 3 + 1) (fround (Vector3.y c))
             (setAt (i * 3) (fround (Vector3.x c)) positions)) in
      let '(rest', positions') :=
        updateDust currentState time (S i) rest positions in
      (p' :: rest', positions')
  end.

(** [forEach((mesh, idx) => ...)] on an array of objects updated in place. *)
Fixpoint mapi {A B : Type} (f : nat -> A -> B) (i : nat) (l : list A)
  : list B :=
  match l with
  | [] => []
  | a :: l' => f i a :: mapi f (S i) l'
  end.

(** ** The same arithmetic on binary64 floats *)

(** The three places of the frame loop where a number read from outside
    reaches an object transform, replayed on IEEE-754 doubles: the
    interpolation [Vector3.lerp], the [SCATTER] branch of block 1 (lines
    261-273) and the position update of a photo (lines 356-358). *)
Module IEEE.
Import Floats.
Local Open Scope float_scope.
Local Set Warnings "-inexact-float".

Record Vector3 : Type := mk { x : float; y : float; z : float }.

Definition zero : Vector3 := mk 0 0 0.

(** Some component is NaN. *)
Definition hasNaN (v : Vector3) : bool :=
  is_nan (x v) || is_nan (y v) || is_nan (z v).

Definition lerp (this v : Vector3) (alpha : float) : Vector3 :=
  mk (x this + (x v - x this) * alpha)
     (y this + (y v - y this) * alpha)
     (z this + (z v - z this) * alpha).

(** The refs read and written by block 1, and [mainGroup.rotation]. *)
Record Momentum : Type := mkMomentum {
  isHandPresent : bool;
  handPos : float * float;
  lastHandPos : float * float;
  rotVelocity : float * float;
  rotation : float * float
}.

(** Block 1 of [animate] when [stateRef] is [SCATTER]. *)
Definition rotateScatter (m : Momentum) : Momentum :=
  let m1 :=
    if isHandPresent m then
      let dx := fst (handPos m) - fst (lastHandPos m) in
      let dy := snd (handPos m) - snd (lastHandPos m) in
      mkMomentum true (handPos m) (handPos m)
        (fst (rotVelocity m) + dy * 0.2, snd (rotVelocity m) + dx * 0.2)
        (rotation m)
    else m in
  let rx := fst (rotation m1) + fst (rotVelocity m1) in
  let ry := snd (rotation m1) + snd (rotVelocity m1) in
  mkMomentum (isHandPresent m1) (handPos m1) (lastHandPos m1)
    (fst (rotVelocity m1) * 0.95, snd (rotVelocity m1) * 0.95)
    (rx, ry).

(** What the detector callbacks do to these refs between two frames. *)
Definition observe (present : bool) (hand : float * float) (m : Momentum)
  : Momentum :=
  mkMomentum present (if present then hand else handPos m) (lastHandPos m)
             (rotVelocity m) (rotation m).

(** Frames in [SCATTER], each after a detector callback that saw a hand at
    [hand] ([present]) or no hand. *)
Fixpoint scatterFrames (inputs : list (bool * (float * float)))
  (m : Momentum) : Momentum :=
  match inputs with
  | nil => m
  | cons (present, hand) rest =>
      scatterFrames rest (rotateScatter (observe present hand m))
  end.

(** The position update of an instance (line 290) and of a photo
    (lines 356-358) toward a target. *)
Definition moveInstance (currentPos target : Vector3) : Vector3 :=
  lerp currentPos target 0.06.

Definition movePhoto (position : Vector3) (targetPos : option Vector3)
  : Vector3 :=
  let targetPos := match targetPos with Some v => v | None => zero end in
  lerp position targetPos 0.1.

(** [n] frames of an instance pulled to a fixed target. *)
Fixpoint moveInstances (n : nat) (currentPos target : Vector3) : Vector3 :=
  match n with
  | O => currentPos
  | S n' => moveInstance (moveInstances n' currentPos target) target
  end.

(** The target (1, 1, 1). *)
Definition ones : Vector3 := mk 1 1 1.
End IEEE.

(** ** Sample inputs *)

(** Hands of 21 landmarks laid out on the x axis, the wrist at the origin. *)
Definition handOf (xs : nat -> R) : list NormalizedLandmark :=
  map (fun i => mkLandmark (xs i) 0 0) (seq 0 21).

Definition isTip (i : nat) : bool :=
  ((i =? 8) || (i =? 12) || (i =? 16) || (i =? 20))%nat.

(** Finger tips nearer to the wrist than the middle joints, thumb away. *)
Definition fistHand : list NormalizedLandmark :=
  handOf (fun i => if isTip i then 0.1
                   else if ((i =? 0) || (i =? 4))%nat then 0 else 0.3).

(** Finger tips beyond the middle joints, thumb away from the index tip. *)
Definition openHand : list NormalizedLandmark :=
  handOf (fun i => if isTip i then 0.4
                   else if ((i =? 0) || (i =? 4))%nat then 0 else 0.3).

(** The thumb tip on the index tip. *)
Definition pinchHand : list NormalizedLandmark :=
  handOf (fun i => if isTip i || (i =? 4)%nat then 0.4
                   else if (i =? 0)%nat then 0 else 0.3).

(** Every call of [Math.random()] returning one half. *)
Definition half : nat -> R := fun _ => 0.5.

(** The component once mounted. *)
Abbreviation mounted := (initThree half initialApp).

(** Two uploads, then an open hand: mode [SCATTER] with two photos. *)
Abbreviation twoPhotos :=
  (detectFrame (Some [openHand])
     (syncState (addPhoto 4 3 half (addPhoto 3 4 half mounted)))).

Section Animate.

(** Two functions of three.js whose result only positions the zoomed
    photo: [v.applyQuaternion(q)] and [group.worldToLocal(v)]. *)
Variable applyQuaternion : R * R * R * R -> Vector3.t -> Vector3.t.
Variable worldToLocal : Group -> Vector3.t -> Vector3.t.

(** 4. The callback of [photoMeshesRef.current.forEach]. *)
Definition updatePhoto (currentState : AppState) (zoomTarget : Z)
  (cam : option Camera) (g : Group) (idx : nat) (mesh : PhotoMesh)
  : PhotoMesh :=
  let '(targetPos, targetScale, lookAtCam) :=
    if AppState_eqb currentState ZOOM && (Z.of_nat idx =? zoomTarget)%Z
    then
      match cam with
      | Some c =>
          let v := applyQuaternion (quaternion c) (Vector3.mk 0 0 (- 60)) in
          let v :=
            Vector3.mk (Vector3.x v + Vector3.x (camPosition c))
                       (Vector3.y v + Vector3.y (camPosition c))
                       (Vector3.z v + Vector3.z (camPosition c)) in
          (Some (worldToLocal g v), 5, true)
      | None => (p_scatterPos (userData mesh), 1, false)
      end
    else
      (match currentState with
       | TREE => p_treePos (userData mesh)
       | _ => p_scatterPos (userData mesh)
       end,
       if AppState_eqb currentState TREE then 1 else 2,
       false) in
  let targetPos :=
    match targetPos with Some v => v | None => Vector3.zero end in
  let position' := Vector3.lerp (position mesh) targetPos 0.1 in
  let scale' :=
    Vector3.lerp (meshScale mesh)
      (Vector3.mk targetScale targetScale targetScale) 0.1 in
  let orientation' :=
    if lookAtCam || negb (AppState_eqb currentState TREE) then
      match cam with
      | Some c => LookAt (camPosition c)
      | None => orientation mesh
      end
    else
      let b := baseRot (userData mesh) in
      Rotation (Euler.mk (Euler.x b) (Euler.y b + 0.01) (Euler.z b)) in
  mkPhoto (planeWidth mesh) (planeHeight mesh) position' scale'
          orientation' (userData mesh).

(** 5. The star. *)
Definition updateStar (currentState : AppState) (st : Star) : Star :=
  let target :=
    match currentState with
    | TREE => starTreePos st
    | _ => starScatterPos st
    end in
  mkStar (Vector3.lerp (starPos st) target 0.05) (starRotY st + 0.02)
         (starTreePos st) (starScatterPos st).

(** One call of [animate]: one rendered frame. *)
Definition animate (s : App) : App :=
  match mainGroup s with
  | None => s
  | Some mainGroup0 =>
      let s := set_time (time s + 0.01) s in
      let time := time s in
      let currentState := stateRef s in
      let '(s, g) := rotateGroup s mainGroup0 in
      let '(ld, g) :=
        updateMeshGroup currentState time 3 Emerald
          (updateMeshGroup currentState time 2 Gem
             (updateMeshGroup currentState time 1 Silver
                (updateMeshGroup currentState time 0 Gold
                   (logicData s, g)))) in
      let '(ld, s) :=
        match dustSystem s with
        | Some positions =>
            let '(motes, positions') :=
              updateDust currentState time 0 (dust ld) positions in
            (set_dust motes ld, set_dustSystem (Some positions') s)
        | None => (ld, s)
        end in
      let photos :=
        mapi (updatePhoto currentState (zoomTargetIndex s) (camera s) g) 0
             (photoMeshes s) in
      let ld := set_star (option_map (updateStar currentState) (star ld)) ld in
      set_photoMeshes photos (set_logicData ld (set_mainGroup (Some g) s))
  end.

(** [n] consecutive frames with no other callback in between. *)
Fixpoint frames (n : nat) (s : App) : App :=
  match n with
  | O => s
  | S n' => animate (frames n' s)
  end.

(** What can happen to the component once mounted: a detector callback,
    the sync effect, a frame, an upload. *)
Inductive step : App -> App -> Prop :=
| step_detect : forall result s,
    step s (finalState (predictWebcam result s))
| step_sync : forall s, step s (syncState s)
| step_animate : forall s, step s (animate s)
| step_upload : forall w h random s, step s (addPhoto w h random s).

Inductive reachable : App -> Prop :=
| reachable_mount : forall random, reachable (initThree random initialApp)
| reachable_step : forall s s', reachable s -> step s s' -> reachable s'.

End Animate.

(** ** Observations that the statements use *)

(** The child of [mainGroup] that [animate] passes to [updateMeshGroup]
    with each list: [updateMeshGroup(0, logicData.gold)], ... *)
Definition meshIndex (c : Category) : nat :=
  match c with Gold => 0 | Silver => 1 | Gem => 2 | Emerald => 3 end.

(** The instance matrices of a category, as last written for the renderer. *)
Definition rendered (c : Category) (s : App) : option (list Transform) :=
  match mainGroup s with
  | Some g =>
      match nth_error (children g) (meshIndex c) with
      | Some (InstancedMesh matrices) => Some matrices
      | _ => None
      end
  | None => None
  end.

(** The scene as [createJewels] builds it: each category has its instanced
    mesh, with one matrix per instance. *)
Definition sceneBuilt (s : App) : Prop :=
  exists g, mainGroup s = Some g /\
    forall c, exists matrices,
      nth_error (children g) (meshIndex c) = Some (InstancedMesh matrices) /\
      length matrices = length (getData c (logicData s)).

(** What one pass of [updateMeshGroup] makes of a list and of its matrices. *)
Definition newData (currentState : AppState) (time : R)
  (data : list InstanceData) : list InstanceData :=
  mapi (fun k item => fst (updateItem currentState time k item)) 0 data.

Definition newMatrices (currentState : AppState) (time : R)
  (data : list InstanceData) (matrices : list Transform) : list Transform :=
  snd (updateItems currentState time 0 data matrices).

(** The position an instance is pulled to in a given mode. *)
Definition targetOf (currentState : AppState) (item : InstanceData)
  : Vector3.t :=
  match currentState with TREE => treePos item | _ => scatterPos item end.

(** ** Sample runs *)

(** The two functions of three.js taken as the identity: the camera never
    turns, and the group is read in its own frame. *)
Definition sameVector : R * R * R * R -> Vector3.t -> Vector3.t :=
  fun _ v => v.

Definition sameFrame : Group -> Vector3.t -> Vector3.t := fun _ v => v.

(** One frame of the sample runs. *)
Abbreviation play := (animate sameVector sameFrame).

(** The open hand with its palm centre moved from x = 0.3 to x = 0.5. *)
Definition movedHand : list NormalizedLandmark :=
  handOf (fun i => if isTip i then 0.4
                   else if ((i =? 0) || (i =? 4))%nat then 0
                   else if (i =? 9)%nat then 0.5 else 0.3).

(** Draws that put every instance, tree and scatter target at the origin:
    zero for the radius, one half for the rest. *)
Definition originDraws : nat -> R :=
  fun n => if (n mod 9 =? 1)%nat then 0 else 0.5.

(** Mounted, then an open hand: mode [SCATTER]. *)
Abbreviation scattered := (detectFrame (Some [openHand]) mounted).

(** The hand moves and a frame passes: mode [SCATTER] with momentum. *)
Abbreviation waved := (play (detectFrame (Some [movedHand]) scattered)).

(** The hand moves, a frame passes, then a fist: mode [TREE] with momentum
    left over. *)
Abbreviation flung :=
  (detectFrame (Some [fistHand])
     (play (detectFrame (Some [movedHand]) scattered))).

(** [SCATTER] on the scene whose instances all sit on their targets. *)
Abbreviation atOrigin :=
  (detectFrame (Some [openHand]) (initThree originDraws initialApp)).

(** A pinch on two photos: mode [ZOOM]. *)
Abbreviation grabbed := (detectFrame (Some [pinchHand]) twoPhotos).

(** The hand opens again: mode [SCATTER], the cursor on the first photo. *)
Abbreviation released := (detectFrame (Some [openHand]) grabbed).

(** ** Facts about numbers *)

Lemma ltb_true (a b : R) : a < b -> ltb a b = true.
Proof. intros H. unfold ltb. destruct (Rlt_dec a b); [reflexivity | contradiction]. Qed.

Lemma ltb_false (a b : R) : b <= a -> ltb a b = false.
Proof. intros H. unfold ltb. destruct (Rlt_dec a b); [lra | reflexivity]. Qed.

Lemma hypot_on_axis (a : R) : 0 <= a -> hypot a 0 = a.
Proof.
  intros H. unfold hypot.
  replace (a * a + 0 * 0) with (a * a) by ring.
  now apply sqrt_square.
Qed.

(** ** Facts about the gesture callbacks *)

Lemma landmarkAt_ok (landmarks : list NormalizedLandmark) (i : nat) :
  (i < length landmarks)%nat -> exists p, landmarkAt landmarks i = Ok p.
Proof.
  intros H. unfold landmarkAt.
  destruct (nth_error landmarks i) as [p |] eqn:E.
  - now exists p.
  - apply nth_error_None in E. lia.
Qed.

Lemma landmarkAt_short (landmarks : list NormalizedLandmark) (i : nat) :
  (length landmarks <= i)%nat -> landmarkAt landmarks i = Throw.
Proof.
  intros H. unfold landmarkAt.
  apply nth_error_None in H. now rewrite H.
Qed.

Lemma landmarkAt_inv (landmarks : list NormalizedLandmark) (i : nat) p :
  landmarkAt landmarks i = Ok p -> (i < length landmarks)%nat.
Proof.
  unfold landmarkAt. intros H. apply nth_error_Some.
  destruct (nth_error landmarks i); congruence.
Qed.

Lemma isFingerFolded_ok (landmarks : list NormalizedLandmark) (tipIdx : nat) :
  (tipIdx < length landmarks)%nat ->
  exists b, isFingerFolded landmarks tipIdx = Ok b.
Proof.
  intros H. unfold isFingerFolded.
  destruct (landmarkAt_ok landmarks tipIdx H) as [tip ->].
  destruct (landmarkAt_ok landmarks 0) as [root ->]; [lia |].
  destruct (landmarkAt_ok landmarks (tipIdx - 2)) as [mid ->]; [lia |].
  simpl. eauto.
Qed.

Lemma isFist_ok (landmarks : list NormalizedLandmark) :
  (21 <= length landmarks)%nat -> exists b, isFist landmarks = Ok b.
Proof.
  intros H. unfold isFist, andAlso.
  destruct (isFingerFolded_ok landmarks 8) as [b1 ->]; [lia |].
  destruct (isFingerFolded_ok landmarks 12) as [b2 ->]; [lia |].
  destruct (isFingerFolded_ok landmarks 16) as [b3 ->]; [lia |].
  destruct (isFingerFolded_ok landmarks 20) as [b4 ->]; [lia |].
  destruct b1, b2, b3; simpl; eauto.
Qed.

Lemma isPinch_ok (landmarks : list NormalizedLandmark) :
  (9 <= length landmarks)%nat -> exists b, isPinch landmarks = Ok b.
Proof.
  intros H. unfold isPinch, pinchDist.
  destruct (landmarkAt_ok landmarks 8) as [p8 ->]; [lia |].
  destruct (landmarkAt_ok landmarks 4) as [p4 ->]; [lia |].
  simpl. eauto.
Qed.

(** A fist was recognised only on a hand of 21 landmarks or more. *)
Lemma isFist_true_length (landmarks : list NormalizedLandmark) :
  isFist landmarks = Ok true -> (21 <= length landmarks)%nat.
Proof.
  unfold isFist, andAlso, bind. intros H.
  destruct (isFingerFolded landmarks 8) as [[|] |]; try discriminate.
  destruct (isFingerFolded landmarks 12) as [[|] |]; try discriminate.
  destruct (isFingerFolded landmarks 16) as [[|] |]; try discriminate.
  unfold isFingerFolded, bind in H.
  destruct (landmarkAt landmarks 20) as [tip |] eqn:E; try discriminate.
  apply landmarkAt_inv in E. lia.
Qed.

(** On a hand of 21 landmarks, [handleGesture] returns: it stores the palm
    centre and takes the branch selected by the two tests. *)
Lemma handleGesture_returns (landmarks : list NormalizedLandmark) (s : App) :
  (21 <= length landmarks)%nat ->
  exists p9 fist pinch,
    landmarkAt landmarks 9 = Ok p9 /\
    isFist landmarks = Ok fist /\
    isPinch landmarks = Ok pinch /\
    handleGesture landmarks s =
      Normal (applyGesture pinch fist (set_handPos (mkXY (lx p9) (ly p9)) s)).
Proof.
  intros H.
  destruct (landmarkAt_ok landmarks 9) as [p9 E9]; [lia |].
  destruct (isFist_ok landmarks H) as [fist Ef].
  destruct (isPinch_ok landmarks) as [pinch Ep]; [lia |].
  exists p9, fist, pinch. unfold handleGesture.
  rewrite E9, Ef, Ep. auto.
Qed.

Lemma AppState_eqb_eq (a b : AppState) : AppState_eqb a b = true <-> a = b.
Proof. destruct a, b; simpl; split; congruence. Qed.
Lemma hypot_flat (a b : R) : b = 0 -> 0 <= a -> hypot a b = a.
Proof. intros -> H. now apply hypot_on_axis. Qed.

Ltac hand_eval :=
  simpl;
  repeat match goal with
         | |- context [hypot ?a ?b] => rewrite (hypot_flat a b) by lra
         end;
  repeat first [ rewrite ltb_true by lra | rewrite ltb_false by lra ];
  simpl.

Lemma isPinch_pinchHand : isPinch pinchHand = Ok true.
Proof. unfold isPinch, pinchDist. hand_eval. reflexivity. Qed.

Lemma isPinch_openHand : isPinch openHand = Ok false.
Proof. unfold isPinch, pinchDist. hand_eval. reflexivity. Qed.

Lemma isPinch_fistHand : isPinch fistHand = Ok false.
Proof. unfold isPinch, pinchDist. hand_eval. reflexivity. Qed.

Lemma isFist_openHand : isFist openHand = Ok false.
Proof. unfold isFist, andAlso, isFingerFolded. hand_eval. reflexivity. Qed.

Lemma isFist_fistHand : isFist fistHand = Ok true.
Proof. unfold isFist, andAlso, isFingerFolded. hand_eval. reflexivity. Qed.

Lemma length_handOf xs : length (handOf xs) = 21%nat.
Proof. reflexivity. Qed.

Lemma length_openHand : (21 <= length openHand)%nat.
Proof. unfold openHand. rewrite length_handOf. lia. Qed.

Lemma length_pinchHand : (21 <= length pinchHand)%nat.
Proof. unfold pinchHand. rewrite length_handOf. lia. Qed.

Lemma length_fistHand : (21 <= length fistHand)%nat.
Proof. unfold fistHand. rewrite length_handOf. lia. Qed.

Lemma nonempty_ltb {A : Type} (l : list A) :
  (0 <? length l)%nat = true <-> l <> [].
Proof.
  destruct l; simpl; split; intros H; try congruence; try reflexivity.
  discriminate.
Qed.

(** The mode and the cursor after a pinch. *)
Lemma applyGesture_pinch (fist : bool) (s : App) :
  applyGesture true fist s =
    if AppState_eqb (stateRef s) SCATTER && (0 <? length (photoMeshes s))%nat
    then setStatusColor "#ffd700"
           (setStatusText "âœ‹ Grabbing Photo"
              (setCurrentState ZOOM (selectClosestPhoto s)))
    else s.
Proof. reflexivity. Qed.

Lemma applyGesture_fist (s : App) :
  applyGesture false true s =
    setStatusColor "#00ffaa"
      (setStatusText "âœŠ Aggregated Form" (setCurrentState TREE s)).
Proof. reflexivity. Qed.

Lemma applyGesture_cursor (pinch fist : bool) (s : App) :
  zoomTargetIndex (applyGesture pinch fist s) =
    if pinch && AppState_eqb (stateRef s) SCATTER
       && (0 <? length (photoMeshes s))%nat
    then nextIndex (length (photoMeshes s)) (zoomTargetIndex s)
    else zoomTargetIndex s.
Proof.
  destruct s as [? ? ? ? ? ? ? ? photos mode ? ? ? ? ? ?].
  unfold applyGesture; simpl.
  destruct pinch, fist, mode, photos; reflexivity.
Qed.

Lemma applyGesture_photoMeshes (pinch fist : bool) (s : App) :
  photoMeshes (applyGesture pinch fist s) = photoMeshes s.
Proof.
  destruct s as [? ? ? ? ? ? ? ? photos mode ? ? ? ? ? ?].
  unfold applyGesture; simpl.
  destruct pinch, fist, mode, photos; reflexivity.
Qed.

Lemma applyGesture_stateRef (pinch fist : bool) (s : App) :
  stateRef (applyGesture pinch fist s) = stateRef s.
Proof.
  destruct s as [? ? ? ? ? ? ? ? photos mode ? ? ? ? ? ?].
  unfold applyGesture; simpl.
  destruct pinch, fist, mode, photos; reflexivity.
Qed.

Lemma applyGesture_currentState (pinch fist : bool) (s : App) :
  currentState (applyGesture pinch fist s) =
    if pinch then
      if AppState_eqb (stateRef s) SCATTER && (0 <? length (photoMeshes s))%nat
      then ZOOM else currentState s
    else if fist then TREE
    else if AppState_eqb (stateRef s) TREE || AppState_eqb (stateRef s) ZOOM
         then SCATTER else currentState s.
Proof.
  destruct s as [? ? ? ? ? ? ? ? photos mode ? ? ? ? ? ?].
  unfold applyGesture; simpl.
  destruct pinch, fist, mode, photos; reflexivity.
Qed.

(** [predictWebcam] on a detected hand of 21 landmarks. *)
Lemma predictWebcam_hand (marks : list NormalizedLandmark)
  (others : list (list NormalizedLandmark)) (s : App) :
  (21 <= length marks)%nat ->
  exists p9 fist pinch,
    isFist marks = Ok fist /\ isPinch marks = Ok pinch /\
    predictWebcam (Some (marks :: others)) s =
      Normal (applyGesture pinch fist
                (set_handPos (mkXY (lx p9) (ly p9))
                   (set_isHandPresent true s))).
Proof.
  intros H. simpl.
  destruct (handleGesture_returns marks (set_isHandPresent true s) H)
    as (p9 & fist & pinch & _ & Ef & Ep & E).
  exists p9, fist, pinch. auto.
Qed.

(** ** The mode state machine *)

(** The cursor after [selectClosestPhoto] on [len] photos, in closed form. *)
Lemma nextIndex_value (len : nat) (idx : Z) :
  (0 < len)%nat ->
  nextIndex len idx =
    (if (idx =? -1)%Z then 0 else Z.rem (idx + 1) (Z.of_nat len))%Z /\
  (idx = (-1)%Z -> nextIndex len idx = 0%Z) /\
  ((0 <= idx < Z.of_nat len)%Z ->
     nextIndex len idx = ((idx + 1) mod Z.of_nat len)%Z /\
     (0 <= nextIndex len idx < Z.of_nat len)%Z /\
     ((idx + 1 < Z.of_nat len)%Z -> nextIndex len idx = (idx + 1)%Z) /\
     (idx = (Z.of_nat len - 1)%Z -> nextIndex len idx = 0%Z) /\
     ((2 <= len)%nat -> nextIndex len idx <> idx)).
Proof.
  intros Hlen. unfold nextIndex.
  assert (Hne : (len =? 0)%nat = false) by (apply Nat.eqb_neq; lia).
  rewrite Hne. split; [reflexivity |].
  split; [intros ->; reflexivity |].
  intros Hidx.
  assert (E1 : (idx =? -1)%Z = false) by (apply Z.eqb_neq; lia).
  rewrite E1, Z.rem_mod_nonneg by lia.
  split; [reflexivity |].
  split; [apply Z.mod_pos_bound; lia |].
  split; [intros Hlt; apply Z.mod_small; lia |].
  split.
  - intros ->.
    replace (Z.of_nat len - 1 + 1)%Z with (Z.of_nat len) by lia.
    apply Z_mod_same_full.
  - intros H2 Heq.
    destruct (Z.eq_dec idx (Z.of_nat len - 1)) as [-> | Hn].
    + replace (Z.of_nat len - 1 + 1)%Z with (Z.of_nat len) in Heq by lia.
      rewrite Z_mod_same_full in Heq. lia.
    + rewrite Z.mod_small in Heq by lia. lia.
Qed.

(** C3: what a pinch does, whatever the state of the component.  The mode
    the handler looks at is its [current], read from [stateRef].  When that
    mode is [SCATTER] and a photo exists, the pinch sets the mode to [ZOOM]
    and moves the cursor: from "none" to 0, from an index to the next one,
    from the last one back to 0, so that with two photos or more the cursor
    is never where it was.  In every other case, in [TREE] and in [SCATTER]
    without photos in particular, the pinch changes neither the mode nor the
    cursor.  On a component whose mode mirror is in sync this reads: the mode
    changes if and only if it is [SCATTER] and a photo exists. *)
Theorem pinch_changes_mode_iff (marks : list NormalizedLandmark)
  (others : list (list NormalizedLandmark)) (s : App) :
  (21 <= length marks)%nat ->
  isPinch marks = Ok true ->
  exists s',
    predictWebcam (Some (marks :: others)) s = Normal s' /\
    stateRef s' = stateRef s /\
    photoMeshes s' = photoMeshes s /\
    (stateRef s = SCATTER -> photoMeshes s <> [] ->
       currentState s' = ZOOM /\
       stateRef (syncState s') = ZOOM /\
       zoomTargetIndex s' =
         (if (zoomTargetIndex s =? -1)%Z then 0
          else Z.rem (zoomTargetIndex s + 1)
                     (Z.of_nat (length (photoMeshes s))))%Z /\
       (zoomTargetIndex s = (-1)%Z -> zoomTargetIndex s' = 0%Z) /\
       ((0 <= zoomTargetIndex s < Z.of_nat (length (photoMeshes s)))%Z ->
          zoomTargetIndex s' =
            ((zoomTargetIndex s + 1) mod Z.of_nat (length (photoMeshes s)))%Z /\
          (0 <= zoomTargetIndex s' < Z.of_nat (length (photoMeshes s)))%Z /\
          ((zoomTargetIndex s + 1 < Z.of_nat (length (photoMeshes s)))%Z ->
             zoomTargetIndex s' = (zoomTargetIndex s + 1)%Z) /\
          (zoomTargetIndex s = (Z.of_nat (length (photoMeshes s)) - 1)%Z ->
             zoomTargetIndex s' = 0%Z) /\
          ((2 <= length (photoMeshes s))%nat ->
             zoomTargetIndex s' <> zoomTargetIndex s))) /\
    (~ (stateRef s = SCATTER /\ photoMeshes s <> []) ->
       currentState s' = currentState s /\
       zoomTargetIndex s' = zoomTargetIndex s) /\
    (stateRef s = TREE ->
       currentState s' = currentState s /\
       zoomTargetIndex s' = zoomTargetIndex s) /\
    (stateRef s = SCATTER -> photoMeshes s = [] ->
       currentState s' = currentState s /\
       zoomTargetIndex s' = zoomTargetIndex s) /\
    (currentState s = stateRef s ->
       (currentState s' <> currentState s <->
          stateRef s = SCATTER /\ photoMeshes s <> []) /\
       (stateRef s = TREE -> currentState s' = TREE) /\
       (stateRef s = SCATTER -> photoMeshes s = [] ->
          currentState s' = SCATTER)).
Proof.
  intros Hlen Hp.
  destruct (predictWebcam_hand marks others s Hlen)
    as (p9 & fist & pinch & _ & Ep & E).
  rewrite Hp in Ep. injection Ep as <-.
  eexists. split; [exact E |].
  unfold syncState. cbn [stateRef set_stateRef].
  rewrite applyGesture_stateRef, applyGesture_photoMeshes,
    applyGesture_currentState, applyGesture_cursor.
  cbn [stateRef photoMeshes currentState zoomTargetIndex set_handPos
       set_isHandPresent andb].
  split; [reflexivity |]. split; [reflexivity |].
  destruct (photoMeshes s) as [| ph rest] eqn:Eph.
  - (* no photo: the pinch is ignored *)
    rewrite Bool.andb_false_r.
    split; [intros _ H; congruence |].
    split; [intros _; split; reflexivity |].
    split; [intros _; split; reflexivity |].
    split; [intros _ _; split; reflexivity |].
    intros Hsync.
    split; [split; [congruence | intros (_ & H); congruence] |].
    split; [intros Hm; congruence | intros Hm _; congruence].
  - change (0 <? length (ph :: rest))%nat with true.
    rewrite Bool.andb_true_r.
    destruct (nextIndex_value (length (ph :: rest)) (zoomTargetIndex s))
      as (Hv & Hnone & Hidx); [cbn [length]; lia |].
    destruct (stateRef s) eqn:Em; cbn [AppState_eqb].
    + split; [intros H; discriminate |].
      split; [intros _; split; reflexivity |].
      split; [intros _; split; reflexivity |].
      split; [intros H; discriminate |].
      intros Hsync.
      split; [split; [congruence | intros (H & _); discriminate] |].
      split; [intros _; exact Hsync | intros H; discriminate].
    + split.
      { intros _ _. split; [reflexivity |]. split; [reflexivity |].
        split; [exact Hv |]. split; [exact Hnone | exact Hidx]. }
      split; [intros H; exfalso; apply H; split; [reflexivity | discriminate] |].
      split; [intros H; discriminate |].
      split; [intros _ H; discriminate |].
      intros Hsync.
      split; [split; [intros _; split; [reflexivity | discriminate]
                     | intros _; rewrite Hsync; discriminate] |].
      split; [intros H; discriminate | intros _ H; discriminate].
    + split; [intros H; discriminate |].
      split; [intros _; split; reflexivity |].
      split; [intros H; discriminate |].
      split; [intros H; discriminate |].
      intros Hsync.
      split; [split; [congruence | intros (H & _); discriminate] |].
      split; [intros H; discriminate | intros H; discriminate].
Qed.

(** C5: a fist (all four fingers folded, no pinch) sets the mode to [TREE]
    whatever the mode was. *)
Theorem fist_yields_TREE (marks : list NormalizedLandmark)
  (others : list (list NormalizedLandmark)) (s : App) :
  isFist marks = Ok true ->
  isPinch marks = Ok false ->
  exists s',
    predictWebcam (Some (marks :: others)) s = Normal s' /\
    currentState s' = TREE /\
    stateRef (syncState s') = TREE.
Proof.
  intros Hf Hp.
  destruct (predictWebcam_hand marks others s (isFist_true_length marks Hf))
    as (p9 & fist & pinch & Ef & Ep & E).
  rewrite Hf in Ef. rewrite Hp in Ep.
  injection Ef as <-. injection Ep as <-.
  eexists. split; [exact E |].
  split; reflexivity.
Qed.

(** ** Missing and short landmark sets *)

Lemma handleGesture_short (marks : list NormalizedLandmark) (s : App) :
  (length marks <= 9)%nat -> handleGesture marks s = TypeError s.
Proof.
  intros H. unfold handleGesture. now rewrite landmarkAt_short.
Qed.

(** C7, as the code has it: no landmarks, or no hand, is "no hand"; a hand of
    at least 21 landmarks is classified; a hand of at most 9 landmarks makes
    the callback throw with the presence flag already set. *)
Theorem predictWebcam_totality (s : App) :
  predictWebcam None s = Normal (set_isHandPresent false s) /\
  predictWebcam (Some []) s = Normal (set_isHandPresent false s) /\
  (forall marks others, (21 <= length marks)%nat ->
     exists s', predictWebcam (Some (marks :: others)) s = Normal s' /\
                isHandPresent s' = true) /\
  (forall marks others, (length marks <= 9)%nat ->
     predictWebcam (Some (marks :: others)) s =
       TypeError (set_isHandPresent true s)).
Proof.
  repeat split.
  - intros marks others H.
    destruct (predictWebcam_hand marks others s H)
      as (p9 & fist & pinch & _ & _ & E).
    eexists. split; [exact E |].
    destruct s as [? ? ? ? ? ? ? ? photos mode ? ? ? ? ? ?].
    unfold applyGesture; simpl.
    destruct pinch, fist, mode, photos; reflexivity.
  - intros marks others H. simpl. now apply handleGesture_short.
Qed.

(** The group exists once the component is mounted. *)
Lemma mounted_mainGroup (random : nat -> R) :
  mainGroup (initThree random initialApp) <> None.
Proof.
  unfold initThree.
  change (mainGroup initialApp) with (@None Group). cbv iota.
  destruct (createJewels random 0 (logicData initialApp)
              (mkGroup (Euler.mk 0 0 0) [])) as [[ld group] n].
  destruct (0 <? length (dust ld))%nat.
  - simpl. discriminate.
  - destruct (createMotes _ _ _ _ _ _). simpl. discriminate.
Qed.

(** C7, counterexample: a hand of 20 landmarks, cut from a fist.  The
    callback stores the palm centre, finds three fingers folded and throws
    on landmark 20; no "no hand" frame results. *)
Lemma short_hand_throws :
  predictWebcam (Some [firstn 20 fistHand]) (initThree half initialApp) =
    TypeError (set_handPos (mkXY 0.3 0)
                 (set_isHandPresent true (initThree half initialApp))) /\
  length (firstn 20 fistHand) = 20%nat.
Proof.
  split; [| reflexivity].
  generalize (initThree half initialApp). intros s.
  unfold predictWebcam, handleGesture.
  replace (landmarkAt (firstn 20 fistHand) 9) with (Ok (mkLandmark 0.3 0 0))
    by reflexivity.
  replace (isFist (firstn 20 fistHand)) with (@Throw bool); [reflexivity |].
  unfold isFist, andAlso, isFingerFolded. hand_eval. reflexivity.
Qed.

(** ** Photo upload *)

(** C9: on a mounted component an upload sets the mode to [TREE], appends
    exactly one photo, and leaves the instances, the dust, the star, the
    earlier photos and the earlier children of the group as they were. *)
Theorem addPhoto_effect (w h : R) (random : nat -> R) (s : App) :
  mainGroup s <> None ->
  let s' := addPhoto w h random s in
  currentState s' = TREE /\
  stateRef (syncState s') = TREE /\
  length (photoMeshes s') = S (length (photoMeshes s)) /\
  photoCount s' = S (photoCount s) /\
  firstn (length (photoMeshes s)) (photoMeshes s') = photoMeshes s /\
  logicData s' = logicData s /\
  dustSystem s' = dustSystem s /\
  (exists g, mainGroup s = Some g /\
             mainGroup s' = Some (mkGroup (rotation g)
                                          (children g ++ [PhotoChild]))).
Proof.
  intros Hg s'. subst s'. unfold addPhoto.
  destruct (mainGroup s) as [g |] eqn:E; [| congruence].
  simpl. repeat split.
  - rewrite length_app. simpl. lia.
  - lia.
  - rewrite firstn_app, Nat.sub_diag, firstn_all. simpl. apply app_nil_r.
  - exists g. split; reflexivity.
Qed.

Lemma addPhoto_effect_witness :
  mainGroup (initThree half initialApp) <> None /\
  currentState (addPhoto 4 3 half (initThree half initialApp)) = TREE.
Proof.
  split.
  - apply mounted_mainGroup.
  - exact (proj1 (addPhoto_effect 4 3 half (initThree half initialApp)
                    (mounted_mainGroup half))).
Defined.

(** ** The selection cursor *)

(** [initThree] builds the scene and leaves the gesture refs alone. *)
Lemma initThree_refs (random : nat -> R) (s : App) :
  currentState (initThree random s) = currentState s /\
  stateRef (initThree random s) = stateRef s /\
  zoomTargetIndex (initThree random s) = zoomTargetIndex s /\
  photoMeshes (initThree random s) = photoMeshes s /\
  rotVelocity (initThree random s) = rotVelocity s.
Proof.
  unfold initThree.
  destruct (mainGroup s); [repeat split |].
  destruct (createJewels random 0 (logicData s) _) as [[ld group] n].
  destruct (0 <? length (dust ld))%nat.
  - repeat split.
  - destruct (createMotes _ _ _ _ _ _). repeat split.
Qed.

Lemma addPhoto_refs (w h : R) (random : nat -> R) (s : App) :
  stateRef (addPhoto w h random s) = stateRef s /\
  zoomTargetIndex (addPhoto w h random s) = zoomTargetIndex s /\
  rotVelocity (addPhoto w h random s) = rotVelocity s.
Proof.
  unfold addPhoto. destruct (mainGroup s); repeat split.
Qed.

Lemma addPhoto_mainGroup (w h : R) (random : nat -> R) (s : App) :
  mainGroup s <> None -> mainGroup (addPhoto w h random s) <> None.
Proof.
  unfold addPhoto. destruct (mainGroup s); [intros _; discriminate | auto].
Qed.

(** A detector frame on a hand of 21 landmarks, then the sync effect. *)
Lemma detectFrame_hand (marks : list NormalizedLandmark) (s : App) :
  (21 <= length marks)%nat ->
  exists p9 fist pinch,
    isFist marks = Ok fist /\ isPinch marks = Ok pinch /\
    detectFrame (Some [marks]) s =
      syncState (applyGesture pinch fist
                   (set_handPos (mkXY (lx p9) (ly p9))
                      (set_isHandPresent true s))).
Proof.
  intros H. unfold detectFrame.
  destruct (predictWebcam_hand marks [] s H)
    as (p9 & fist & pinch & Ef & Ep & E).
  exists p9, fist, pinch. rewrite E. auto.
Qed.

(** A qualifying pinch: the mode becomes [ZOOM] and the cursor advances. *)
Lemma detectFrame_pinch (pinch : list NormalizedLandmark) (s : App) :
  (21 <= length pinch)%nat -> isPinch pinch = Ok true ->
  stateRef s = SCATTER -> photoMeshes s <> [] ->
  let s' := detectFrame (Some [pinch]) s in
  stateRef s' = ZOOM /\ currentState s' = ZOOM /\
  zoomTargetIndex s' = nextIndex (length (photoMeshes s)) (zoomTargetIndex s) /\
  photoMeshes s' = photoMeshes s.
Proof.
  intros Hlen Hp Hmode Hphotos s'. subst s'.
  destruct (detectFrame_hand pinch s Hlen) as (p9 & fist & b & _ & Ep & ->).
  rewrite Hp in Ep. injection Ep as <-.
  destruct s as [? ? ? ? ? ? ? ? photos mode ? ? ? ? ? ?].
  simpl in *. subst mode. destruct photos; [congruence |].
  repeat split.
Qed.

(** An open hand after the grab: back to [SCATTER], the cursor kept. *)
Lemma detectFrame_release (release : list NormalizedLandmark) (s : App) :
  (21 <= length release)%nat ->
  isPinch release = Ok false -> isFist release = Ok false ->
  currentState s = stateRef s ->
  let s' := detectFrame (Some [release]) s in
  stateRef s' = SCATTER /\ currentState s' = SCATTER /\
  zoomTargetIndex s' = zoomTargetIndex s /\
  photoMeshes s' = photoMeshes s.
Proof.
  intros Hlen Hp Hf Hsync s'. subst s'.
  destruct (detectFrame_hand release s Hlen) as (p9 & fist & b & Ef & Ep & ->).
  rewrite Hp in Ep. rewrite Hf in Ef.
  injection Ep as <-. injection Ef as <-.
  destruct s as [cur ? ? ? ? ? ? ? photos mode ? ? ? ? ? ?].
  unfold applyGesture, syncState; simpl in *. subst cur.
  destruct mode; simpl; repeat split.
Qed.

(** The cursor after [k] calls of [selectClosestPhoto] on [len] photos,
    starting from "none". *)
Lemma nextIndex_iter (len k : nat) :
  (0 < len)%nat ->
  Nat.iter (S k) (nextIndex len) (-1)%Z = Z.of_nat (k mod len).
Proof.
  intros Hlen. induction k as [| k IH].
  - simpl. unfold nextIndex.
    destruct (len =? 0)%nat eqn:E; [apply Nat.eqb_eq in E; lia |].
    simpl. now rewrite Nat.Div0.mod_0_l.
  - change (Nat.iter (S (S k)) (nextIndex len) (-1)%Z)
      with (nextIndex len (Nat.iter (S k) (nextIndex len) (-1)%Z)).
    rewrite IH. unfold nextIndex.
    destruct (len =? 0)%nat eqn:E; [apply Nat.eqb_eq in E; lia |].
    destruct (Z.of_nat (k mod len) =? -1)%Z eqn:E1; [apply Z.eqb_eq in E1; lia |].
    rewrite Z.rem_mod_nonneg by lia.
    rewrite !Nat2Z.inj_mod.
    replace (Z.of_nat (S k)) with (Z.of_nat k + 1)%Z by lia.
    now rewrite Zplus_mod_idemp_l.
Qed.

(** One grab from [SCATTER]: [SCATTER] again, the cursor advanced once. *)
Lemma grab_cursor (pinch release : list NormalizedLandmark) (s : App) :
  (21 <= length pinch)%nat -> isPinch pinch = Ok true ->
  (21 <= length release)%nat ->
  isPinch release = Ok false -> isFist release = Ok false ->
  stateRef s = SCATTER -> photoMeshes s <> [] ->
  let s' := grab pinch release s in
  stateRef s' = SCATTER /\
  zoomTargetIndex s' = nextIndex (length (photoMeshes s)) (zoomTargetIndex s) /\
  photoMeshes s' = photoMeshes s.
Proof.
  intros Hl Hp Hl' Hp' Hf' Hmode Hphotos s'. subst s'. unfold grab.
  destruct (detectFrame_pinch pinch s Hl Hp Hmode Hphotos)
    as (Hm1 & Hc1 & Hi1 & Hph1).
  destruct (detectFrame_release release (detectFrame (Some [pinch]) s)
              Hl' Hp' Hf') as (Hm2 & _ & Hi2 & Hph2); [congruence |].
  repeat split; congruence.
Qed.

Lemma grabs_cursor (pinch release : list NormalizedLandmark) (k : nat)
  (s : App) :
  (21 <= length pinch)%nat -> isPinch pinch = Ok true ->
  (21 <= length release)%nat ->
  isPinch release = Ok false -> isFist release = Ok false ->
  stateRef s = SCATTER -> photoMeshes s <> [] ->
  let s' := grabs pinch release k s in
  stateRef s' = SCATTER /\
  zoomTargetIndex s' =
    Nat.iter k (nextIndex (length (photoMeshes s))) (zoomTargetIndex s) /\
  photoMeshes s' = photoMeshes s.
Proof.
  intros Hl Hp Hl' Hp' Hf' Hmode Hphotos. induction k as [| k IH].
  - simpl. auto.
  - destruct IH as (Hm & Hi & Hph).
    destruct (grab_cursor pinch release (grabs pinch release k s)
                Hl Hp Hl' Hp' Hf' Hm) as (Hm' & Hi' & Hph'); [congruence |].
    cbv zeta.
    change (grabs pinch release (S k) s)
      with (grab pinch release (grabs pinch release k s)).
    change (Nat.iter (S k) (nextIndex (length (photoMeshes s)))
              (zoomTargetIndex s))
      with (nextIndex (length (photoMeshes s))
              (Nat.iter k (nextIndex (length (photoMeshes s)))
                 (zoomTargetIndex s))).
    repeat split; try congruence.
Qed.


Lemma addPhoto_photoMeshes (w h : R) (random : nat -> R) (s : App) :
  mainGroup s <> None ->
  length (photoMeshes (addPhoto w h random s)) = S (length (photoMeshes s)) /\
  currentState (addPhoto w h random s) = TREE.
Proof.
  unfold addPhoto. destruct (mainGroup s); [intros _ | congruence].
  simpl. rewrite length_app. simpl. split; [lia | reflexivity].
Qed.

Lemma syncState_refs (s : App) :
  zoomTargetIndex (syncState s) = zoomTargetIndex s /\
  photoMeshes (syncState s) = photoMeshes s /\
  stateRef (syncState s) = currentState s /\
  currentState (syncState s) = currentState s.
Proof. repeat split. Qed.

(** The sample state [twoPhotos]: [SCATTER], no selection yet, two photos. *)
Lemma twoPhotos_facts :
  stateRef twoPhotos = SCATTER /\
  zoomTargetIndex twoPhotos = (-1)%Z /\
  length (photoMeshes twoPhotos) = 2%nat.
Proof.
  destruct (initThree_refs half initialApp) as (_ & _ & Hi & Hph & _).
  change (initThree half initialApp) with mounted in Hi, Hph.
  change (zoomTargetIndex initialApp) with (-1)%Z in Hi.
  change (photoMeshes initialApp) with (@nil PhotoMesh) in Hph.
  pose proof (mounted_mainGroup half : mainGroup mounted <> None) as Hg.
  destruct (addPhoto_photoMeshes 3 4 half mounted Hg) as (Hl1 & _).
  destruct (addPhoto_refs 3 4 half mounted) as (_ & Hi1 & _).
  pose proof (addPhoto_mainGroup 3 4 half mounted Hg) as Hg1.
  set (s1 := addPhoto 3 4 half mounted) in *.
  destruct (addPhoto_photoMeshes 4 3 half s1 Hg1) as (Hl2 & Hc2).
  destruct (addPhoto_refs 4 3 half s1) as (_ & Hi2 & _).
  set (s2 := addPhoto 4 3 half s1) in *.
  destruct (syncState_refs s2) as (Hi3 & Hph3 & Hm3 & Hc3).
  destruct (detectFrame_release openHand (syncState s2))
    as (Hm & _ & Hi4 & Hph4);
    [ exact length_openHand | exact isPinch_openHand
    | exact isFist_openHand | congruence | ].
  split; [exact Hm |]. split.
  - congruence.
  - rewrite Hph4, Hph3, Hl2, Hl1, Hph. reflexivity.
Qed.

(** C2, as the code has it: after [K >= 1] grabs from "none" on [M] photos
    the cursor is [(K - 1) mod M]; the first pinch selects index 0. *)
Theorem cursor_after_grabs (pinch release : list NormalizedLandmark)
  (K : nat) (s : App) :
  (21 <= length pinch)%nat -> isPinch pinch = Ok true ->
  (21 <= length release)%nat ->
  isPinch release = Ok false -> isFist release = Ok false ->
  stateRef s = SCATTER -> photoMeshes s <> [] ->
  zoomTargetIndex s = (-1)%Z ->
  zoomTargetIndex (grabs pinch release K s) =
    match K with
    | O => (-1)%Z
    | S k => Z.of_nat (k mod length (photoMeshes s))
    end.
Proof.
  intros Hl Hp Hl' Hp' Hf' Hmode Hphotos Hidx.
  destruct (grabs_cursor pinch release K s Hl Hp Hl' Hp' Hf' Hmode Hphotos)
    as (_ & Hi & _).
  rewrite Hi, Hidx. destruct K as [| k]; [reflexivity |].
  apply nextIndex_iter. destruct (photoMeshes s); simpl; [congruence | lia].
Qed.

Lemma twoPhotos_nonempty : photoMeshes twoPhotos <> [].
Proof.
  destruct twoPhotos_facts as (_ & _ & H).
  destruct (photoMeshes twoPhotos); [discriminate | discriminate].
Qed.

Lemma cursor_after_grabs_witness :
  zoomTargetIndex (grabs pinchHand openHand 3 twoPhotos) =
    Z.of_nat (2 mod length (photoMeshes twoPhotos)).
Proof.
  apply (cursor_after_grabs pinchHand openHand 3 twoPhotos).
  - exact length_pinchHand.
  - exact isPinch_pinchHand.
  - exact length_openHand.
  - exact isPinch_openHand.
  - exact isFist_openHand.
  - exact (proj1 twoPhotos_facts).
  - exact twoPhotos_nonempty.
  - exact (proj1 (proj2 twoPhotos_facts)).
Defined.

(** C2, counterexample: one grab on two photos leaves the cursor at 0,
    while [1 mod 2] is 1. *)
Lemma cursor_after_one_grab_of_two :
  zoomTargetIndex (grabs pinchHand openHand 1 twoPhotos) = 0%Z /\
  length (photoMeshes twoPhotos) = 2%nat /\
  Z.of_nat (1 mod 2) = 1%Z.
Proof.
  destruct twoPhotos_facts as (Hm & Hi & Hl).
  destruct (grabs_cursor pinchHand openHand 1 twoPhotos) as (_ & H & _);
    [ exact length_pinchHand | exact isPinch_pinchHand
    | exact length_openHand | exact isPinch_openHand
    | exact isFist_openHand | exact Hm | exact twoPhotos_nonempty | ].
  split; [| split; [exact Hl | reflexivity]].
  rewrite H, Hi, Hl. reflexivity.
Qed.

(** The hand opens after the first grab: mode [SCATTER], cursor 0. *)
Lemma released_facts :
  stateRef released = SCATTER /\ currentState released = SCATTER /\
  zoomTargetIndex released = 0%Z /\
  length (photoMeshes released) = 2%nat.
Proof.
  destruct twoPhotos_facts as (Hm & Hi & Hl).
  destruct (detectFrame_pinch pinchHand twoPhotos)
    as (G1 & G2 & G3 & G4);
    [exact length_pinchHand | exact isPinch_pinchHand | exact Hm
     | exact twoPhotos_nonempty |].
  destruct (detectFrame_release openHand grabbed)
    as (R1 & R2 & R3 & R4);
    [exact length_openHand | exact isPinch_openHand | exact isFist_openHand
     | congruence |].
  split; [exact R1 |]. split; [exact R2 |].
  split; [rewrite R3, G3, Hi, Hl; reflexivity |].
  rewrite R4, G4. exact Hl.
Qed.

Lemma pinch_changes_mode_iff_witness :
  zoomTargetIndex released = 0%Z /\
  exists s',
    predictWebcam (Some [pinchHand]) released = Normal s' /\
    currentState s' = ZOOM /\ zoomTargetIndex s' = 1%Z.
Proof.
  destruct released_facts as (Hm & _ & Hi & Hl).
  split; [exact Hi |].
  destruct (pinch_changes_mode_iff pinchHand [] released)
    as (s' & E & _ & _ & H & _).
  - exact length_pinchHand.
  - exact isPinch_pinchHand.
  - exists s'. split; [exact E |].
    destruct H as (Hc & _ & _ & _ & Hidx).
    + exact Hm.
    + intros Hnil. rewrite Hnil in Hl. discriminate.
    + split; [exact Hc |].
      rewrite Hi, Hl in Hidx.
      destruct Hidx as (_ & _ & Hnext & _); [lia |].
      apply Hnext. lia.
Defined.

Lemma fist_yields_TREE_witness :
  exists s',
    predictWebcam (Some [fistHand]) twoPhotos = Normal s' /\
    currentState s' = TREE /\
    stateRef (syncState s') = TREE.
Proof.
  apply (fist_yields_TREE fistHand [] twoPhotos).
  - exact isFist_fistHand.
  - exact isPinch_fistHand.
Defined.

(** ** Facts about the frame loop *)

Lemma length_mapi {A B : Type} (f : nat -> A -> B) (i : nat) (l : list A) :
  length (mapi f i l) = length l.
Proof.
  revert i. induction l as [| a l IH]; intros i; simpl; [| rewrite IH]; reflexivity.
Qed.

(** Block 1 writes the angular velocity, the last hand position and the
    rotation of the group, and nothing else. *)
Lemma rotateGroup_refs (s : App) (g : Group) :
  let s1 := fst (rotateGroup s g) in
  currentState s1 = currentState s /\
  stateRef s1 = stateRef s /\
  zoomTargetIndex s1 = zoomTargetIndex s /\
  photoMeshes s1 = photoMeshes s /\
  logicData s1 = logicData s /\
  dustSystem s1 = dustSystem s /\
  camera s1 = camera s /\
  isHandPresent s1 = isHandPresent s /\
  handPos s1 = handPos s /\
  time s1 = time s /\
  children (snd (rotateGroup s g)) = children g.
Proof.
  unfold rotateGroup.
  destruct (stateRef s) eqn:E; simpl; try (repeat split; assumption).
  destruct (isHandPresent s) eqn:Eh; simpl; repeat split; assumption.
Qed.

Section Frames.

Variable applyQuaternion : R * R * R * R -> Vector3.t -> Vector3.t.
Variable worldToLocal : Group -> Vector3.t -> Vector3.t.

Local Abbreviation frame := (animate applyQuaternion worldToLocal).
Local Abbreviation run := (frames applyQuaternion worldToLocal).
Local Abbreviation steps := (step applyQuaternion worldToLocal).
Local Abbreviation reached := (reachable applyQuaternion worldToLocal).

(** A frame leaves the mode, the cursor and the number of photos alone. *)
Lemma animate_refs (s : App) :
  currentState (frame s) = currentState s /\
  stateRef (frame s) = stateRef s /\
  zoomTargetIndex (frame s) = zoomTargetIndex s /\
  length (photoMeshes (frame s)) = length (photoMeshes s) /\
  isHandPresent (frame s) = isHandPresent s /\
  handPos (frame s) = handPos s.
Proof.
  unfold animate.
  destruct (mainGroup s) as [g |]; [| repeat split].
  pose proof (rotateGroup_refs (set_time (time s + 0.01) s) g) as H.
  destruct (rotateGroup (set_time (time s + 0.01) s) g) as [s1 g1].
  simpl in H. destruct H as (Hc & Hm & Hi & Hp & _ & _ & _ & Hh & Hhp & _).
  match goal with
  | |- context [updateMeshGroup ?c ?t 3 Emerald ?st] =>
      destruct (updateMeshGroup c t 3 Emerald st) as [ld g2]
  end.
  destruct (dustSystem s1) as [positions |].
  - destruct (updateDust _ _ _ _ _) as [motes positions'].
    simpl. rewrite length_mapi. repeat split; congruence.
  - simpl. rewrite length_mapi. repeat split; congruence.
Qed.

(** ** The cursor invariant *)

Lemma cursorInv_ext (s s' : App) :
  zoomTargetIndex s' = zoomTargetIndex s ->
  currentState s' = currentState s ->
  stateRef s' = stateRef s ->
  length (photoMeshes s') = length (photoMeshes s) ->
  cursorInv s -> cursorInv s'.
Proof.
  unfold cursorInv. intros -> -> -> ->. auto.
Qed.

Lemma nextIndex_range (len : nat) (idx : Z) :
  (0 < len)%nat ->
  (idx = -1 \/ 0 <= idx < Z.of_nat len)%Z ->
  (0 <= nextIndex len idx < Z.of_nat len)%Z.
Proof.
  intros Hlen H. unfold nextIndex.
  destruct (len =? 0)%nat eqn:E; [apply Nat.eqb_eq in E; lia |].
  destruct (idx =? -1)%Z eqn:E1; [lia |].
  apply Z.eqb_neq in E1.
  rewrite Z.rem_mod_nonneg by lia.
  apply Z.mod_pos_bound. lia.
Qed.

Lemma cursorInv_applyGesture (pinch fist : bool) (s : App) :
  cursorInv s -> cursorInv (applyGesture pinch fist s).
Proof.
  unfold cursorInv.
  rewrite applyGesture_cursor, applyGesture_currentState,
    applyGesture_stateRef, applyGesture_photoMeshes.
  intros H.
  destruct pinch; simpl.
  - destruct (AppState_eqb (stateRef s) SCATTER) eqn:E; simpl; [| exact H].
    destruct (0 <? length (photoMeshes s))%nat eqn:El; [| exact H].
    right. apply Nat.ltb_lt in El. apply nextIndex_range; [exact El |].
    destruct H as [(H & _) | H]; auto.
  - destruct fist.
    + destruct H as [(H & _ & Hr) | H]; [left | right; exact H].
      repeat split; [exact H | discriminate | exact Hr].
    + destruct (AppState_eqb (stateRef s) TREE
                || AppState_eqb (stateRef s) ZOOM); [| exact H].
      destruct H as [(H & _ & Hr) | H]; [left | right; exact H].
      repeat split; [exact H | discriminate | exact Hr].
Qed.

Lemma cursorInv_predictWebcam
  (result : option (list (list NormalizedLandmark))) (s : App) :
  cursorInv s -> cursorInv (finalState (predictWebcam result s)).
Proof.
  intros H. unfold predictWebcam.
  destruct result as [[| marks others] |];
    try (simpl; revert H; apply cursorInv_ext; reflexivity).
  assert (H1 : cursorInv (set_isHandPresent true s))
    by (revert H; apply cursorInv_ext; reflexivity).
  revert H1. generalize (set_isHandPresent true s). clear s H. intros s H.
  unfold handleGesture.
  destruct (landmarkAt marks 9) as [p9 |]; [| exact H].
  assert (H1 : cursorInv (set_handPos (mkXY (lx p9) (ly p9)) s))
    by (revert H; apply cursorInv_ext; reflexivity).
  destruct (isFist marks) as [fist |]; [| exact H1].
  destruct (isPinch marks) as [pinch |]; [| exact H1].
  simpl. now apply cursorInv_applyGesture.
Qed.

Lemma cursorInv_syncState (s : App) : cursorInv s -> cursorInv (syncState s).
Proof.
  unfold cursorInv, syncState. simpl. intros [(H & Hc & _) | H]; auto.
Qed.

Lemma cursorInv_addPhoto (w h : R) (random : nat -> R) (s : App) :
  cursorInv s -> cursorInv (addPhoto w h random s).
Proof.
  unfold cursorInv, addPhoto.
  destruct (mainGroup s); [| auto]. simpl.
  rewrite length_app. simpl.
  intros [(H & _ & Hr) | H]; [left | right; lia].
  repeat split; [exact H | discriminate | exact Hr].
Qed.

Lemma cursorInv_initThree (random : nat -> R) :
  cursorInv (initThree random initialApp).
Proof.
  destruct (initThree_refs random initialApp) as (Hc & Hm & Hi & _).
  left. rewrite Hi, Hc, Hm. simpl. repeat split; discriminate.
Qed.

Lemma cursorInv_animate (s : App) : cursorInv s -> cursorInv (frame s).
Proof.
  destruct (animate_refs s) as (Hc & Hm & Hi & Hl & _).
  apply cursorInv_ext; assumption.
Qed.

(** The invariant holds at mount and every step keeps it. *)
Lemma cursorInv_step (s s' : App) : cursorInv s -> steps s s' -> cursorInv s'.
Proof.
  intros H Hs. destruct Hs.
  - now apply cursorInv_predictWebcam.
  - now apply cursorInv_syncState.
  - now apply cursorInv_animate.
  - now apply cursorInv_addPhoto.
Qed.

Lemma cursorInv_reachable (s : App) : reached s -> cursorInv s.
Proof.
  induction 1 as [random | s s' _ IH Hs].
  - apply cursorInv_initThree.
  - exact (cursorInv_step s s' IH Hs).
Qed.

(** C6: in every reachable state, when the mode (the state cell or its
    mirror [stateRef]) is [ZOOM] and there is a photo, the cursor is an index
    of the photo list. *)
Theorem cursor_valid_in_ZOOM (s : App) :
  reached s ->
  stateRef s = ZOOM \/ currentState s = ZOOM ->
  photoMeshes s <> [] ->
  (0 <= zoomTargetIndex s < Z.of_nat (length (photoMeshes s)))%Z.
Proof.
  intros Hr Hz _.
  destruct (cursorInv_reachable s Hr) as [(_ & Hc & Hm) | H]; [| exact H].
  destruct Hz; contradiction.
Qed.


(** ** Indexed writes and the instance loop *)

Lemma length_setAt {A : Type} (i : nat) (v : A) (l : list A) :
  length (setAt i v l) = length l.
Proof.
  revert i. induction l as [| a l IH]; intros [| i]; simpl; auto.
Qed.

Lemma setAt_same {A : Type} (i : nat) (v : A) (l : list A) :
  (i < length l)%nat -> nth_error (setAt i v l) i = Some v.
Proof.
  revert i. induction l as [| a l IH]; intros [| i] H; simpl in *;
    try lia; auto.
  apply IH. lia.
Qed.

Lemma setAt_other {A : Type} (i j : nat) (v : A) (l : list A) :
  i <> j -> nth_error (setAt i v l) j = nth_error l j.
Proof.
  revert i j. induction l as [| a l IH]; intros [| i] [| j] H; simpl;
    try reflexivity; try congruence.
  apply IH. congruence.
Qed.

Lemma nth_error_mapi {A B : Type} (f : nat -> A -> B) (i j : nat)
  (l : list A) :
  nth_error (mapi f i l) j = option_map (f (i + j)%nat) (nth_error l j).
Proof.
  revert i j. induction l as [| a l IH]; intros i [| j]; simpl;
    try reflexivity.
  - now rewrite Nat.add_0_r.
  - rewrite IH. now replace (S i + j)%nat with (i + S j)%nat by lia.
Qed.

(** The loop, one iteration unrolled. *)
Lemma updateItems_cons (m : AppState) (t : R) (i : nat)
  (item : InstanceData) (rest : list InstanceData)
  (matrices : list Transform) :
  updateItems m t i (item :: rest) matrices =
    (fst (updateItem m t i item)
       :: fst (updateItems m t (S i) rest
                 (setAt i (snd (updateItem m t i item)) matrices)),
     snd (updateItems m t (S i) rest
            (setAt i (snd (updateItem m t i item)) matrices))).
Proof.
  change (updateItems m t i (item :: rest) matrices)
    with (let '(item', dummy) := updateItem m t i item in
          let '(rest', matrices') :=
            updateItems m t (S i) rest (setAt i dummy matrices) in
          (item' :: rest', matrices')).
  generalize (updateItem m t i item). intros [item' dummy].
  cbn [fst snd].
  generalize (updateItems m t (S i) rest (setAt i dummy matrices)).
  intros [rest' matrices']. reflexivity.
Qed.

(** The data half of the loop does not depend on the matrices. *)
Lemma updateItems_data (m : AppState) (t : R) (i : nat)
  (data : list InstanceData) (matrices : list Transform) :
  fst (updateItems m t i data matrices) =
    mapi (fun k item => fst (updateItem m t k item)) i data.
Proof.
  revert i matrices. induction data as [| item rest IH]; intros i matrices.
  - reflexivity.
  - rewrite updateItems_cons. cbn [fst mapi]. now rewrite IH.
Qed.

Lemma updateItems_length (m : AppState) (t : R) (i : nat)
  (data : list InstanceData) (matrices : list Transform) :
  length (snd (updateItems m t i data matrices)) = length matrices.
Proof.
  revert i matrices. induction data as [| item rest IH]; intros i matrices.
  - reflexivity.
  - rewrite updateItems_cons. cbn [snd]. now rewrite IH, length_setAt.
Qed.

(** Matrices below the start index are not touched. *)
Lemma updateItems_below (m : AppState) (t : R) (i k : nat)
  (data : list InstanceData) (matrices : list Transform) :
  (k < i)%nat ->
  nth_error (snd (updateItems m t i data matrices)) k = nth_error matrices k.
Proof.
  revert i matrices. induction data as [| item rest IH]; intros i matrices H.
  - reflexivity.
  - rewrite updateItems_cons. cbn [snd]. rewrite IH by lia.
    apply setAt_other. lia.
Qed.

(** The matrix of instance [j] is the one computed from its item. *)
Lemma updateItems_matrix (m : AppState) (t : R) (i j : nat)
  (data : list InstanceData) (matrices : list Transform)
  (item : InstanceData) :
  nth_error data j = Some item ->
  (i + j < length matrices)%nat ->
  nth_error (snd (updateItems m t i data matrices)) (i + j) =
    Some (snd (updateItem m t (i + j) item)).
Proof.
  revert i j matrices.
  induction data as [| a rest IH]; intros i j matrices Hj Hlen.
  - destruct j; discriminate.
  - rewrite updateItems_cons. cbn [snd].
    destruct j as [| j]; cbn [nth_error] in Hj.
    + injection Hj as ->. rewrite Nat.add_0_r in *.
      rewrite updateItems_below by lia.
      now apply setAt_same.
    + replace (i + S j)%nat with (S i + j)%nat by lia.
      apply IH; [exact Hj |].
      rewrite length_setAt. lia.
Qed.

(** One call of [updateMeshGroup] on the instanced mesh of its category. *)
Lemma updateMeshGroup_step (m : AppState) (t : R) (c0 : Category)
  (ld : LogicData) (g : Group) (ms0 : list Transform) :
  nth_error (children g) (meshIndex c0) = Some (InstancedMesh ms0) ->
  exists ld' g',
    updateMeshGroup m t (meshIndex c0) c0 (ld, g) = (ld', g') /\
    getData c0 ld' = newData m t (getData c0 ld) /\
    nth_error (children g') (meshIndex c0) =
      Some (InstancedMesh (newMatrices m t (getData c0 ld) ms0)) /\
    (forall c, c <> c0 ->
       getData c ld' = getData c ld /\
       nth_error (children g') (meshIndex c) =
         nth_error (children g) (meshIndex c)) /\
    rotation g' = rotation g /\
    dust ld' = dust ld /\ star ld' = star ld /\
    length (children g') = length (children g).
Proof.
  intros H. unfold updateMeshGroup. rewrite H.
  pose proof (updateItems_data m t 0 (getData c0 ld) ms0) as Hd.
  unfold newMatrices, newData.
  destruct (updateItems m t 0 (getData c0 ld) ms0) as [data' ms'].
  simpl in Hd. subst data'.
  eexists. eexists. split; [reflexivity |].
  assert (Hlt : (meshIndex c0 < length (children g))%nat)
    by (apply nth_error_Some; congruence).
  repeat split.
  - destruct c0; reflexivity.
  - simpl. now apply setAt_same.
  - destruct c, c0; try congruence; reflexivity.
  - simpl. apply setAt_other. destruct c, c0; simpl; congruence.
  - destruct c0; reflexivity.
  - destruct c0; reflexivity.
  - simpl. apply length_setAt.
Qed.

(** The four calls made by a frame, on a scene that has its four meshes. *)
Lemma updateMeshGroups (m : AppState) (t : R) (ld : LogicData) (g : Group) :
  (forall c, exists ms,
      nth_error (children g) (meshIndex c) = Some (InstancedMesh ms)) ->
  exists ld' g',
    updateMeshGroup m t 3 Emerald
      (updateMeshGroup m t 2 Gem
         (updateMeshGroup m t 1 Silver
            (updateMeshGroup m t 0 Gold (ld, g)))) = (ld', g') /\
    (forall c, getData c ld' = newData m t (getData c ld)) /\
    (forall c ms,
        nth_error (children g) (meshIndex c) = Some (InstancedMesh ms) ->
        nth_error (children g') (meshIndex c) =
          Some (InstancedMesh (newMatrices m t (getData c ld) ms))) /\
    rotation g' = rotation g /\
    dust ld' = dust ld /\ star ld' = star ld.
Proof.
  intros H.
  destruct (H Gold) as [ms0 H0]. destruct (H Silver) as [ms1 H1].
  destruct (H Gem) as [ms2 H2]. destruct (H Emerald) as [ms3 H3].
  destruct (updateMeshGroup_step m t Gold ld g ms0 H0)
    as (ldA & gA & EA & DA & MA & OA & RA & UA & SA & _).
  destruct (OA Silver ltac:(discriminate)) as (DA1 & MA1).
  destruct (OA Gem ltac:(discriminate)) as (DA2 & MA2).
  destruct (OA Emerald ltac:(discriminate)) as (DA3 & MA3).
  destruct (updateMeshGroup_step m t Silver ldA gA ms1 ltac:(congruence))
    as (ldB & gB & EB & DB & MB & OB & RB & UB & SB & _).
  destruct (OB Gold ltac:(discriminate)) as (DB0 & MB0).
  destruct (OB Gem ltac:(discriminate)) as (DB2 & MB2).
  destruct (OB Emerald ltac:(discriminate)) as (DB3 & MB3).
  destruct (updateMeshGroup_step m t Gem ldB gB ms2 ltac:(congruence))
    as (ldC & gC & EC & DC & MC & OC & RC & UC & SC & _).
  destruct (OC Gold ltac:(discriminate)) as (DC0 & MC0).
  destruct (OC Silver ltac:(discriminate)) as (DC1 & MC1).
  destruct (OC Emerald ltac:(discriminate)) as (DC3 & MC3).
  destruct (updateMeshGroup_step m t Emerald ldC gC ms3 ltac:(congruence))
    as (ldD & gD & ED & DD & MD & OD & RD & UD & SD & _).
  destruct (OD Gold ltac:(discriminate)) as (DD0 & MD0).
  destruct (OD Silver ltac:(discriminate)) as (DD1 & MD1).
  destruct (OD Gem ltac:(discriminate)) as (DD2 & MD2).
  exists ldD, gD.
  change 3%nat with (meshIndex Emerald). change 2%nat with (meshIndex Gem).
  change 1%nat with (meshIndex Silver). change 0%nat with (meshIndex Gold).
  rewrite EA, EB, EC, ED.
  split; [reflexivity |]. repeat split; try congruence.
  - intros c. destruct c; congruence.
  - intros c ms Hc. destruct c; congruence.
Qed.

Lemma rendered_spec (c : Category) (s : App) (g : Group)
  (ms : list Transform) :
  mainGroup s = Some g ->
  (rendered c s = Some ms <->
   nth_error (children g) (meshIndex c) = Some (InstancedMesh ms)).
Proof.
  intros E. unfold rendered. rewrite E.
  destruct (nth_error (children g) (meshIndex c)) as [[ms' | | |] |];
    split; congruence.
Qed.

(** A frame on a built scene: every list goes through the instance loop
    with the mode of [stateRef] and the advanced clock. *)
Lemma animate_built (s : App) :
  sceneBuilt s ->
  (forall c, getData c (logicData (frame s)) =
             newData (stateRef s) (time s + 0.01) (getData c (logicData s))) /\
  (forall c ms, rendered c s = Some ms ->
                rendered c (frame s) =
                  Some (newMatrices (stateRef s) (time s + 0.01)
                          (getData c (logicData s)) ms)) /\
  time (frame s) = time s + 0.01 /\
  sceneBuilt (frame s).
Proof.
  intros (g & Eg & Hb).
  assert (Hr : forall c ms, rendered c s = Some ms ->
                 nth_error (children g) (meshIndex c) = Some (InstancedMesh ms))
    by (intros c ms; apply (rendered_spec c s g ms Eg)).
  unfold sceneBuilt, rendered in *. unfold animate. rewrite Eg.
  pose proof (rotateGroup_refs (set_time (time s + 0.01) s) g) as H.
  destruct (rotateGroup (set_time (time s + 0.01) s) g) as [s1 g1].
  simpl in H.
  destruct H as (_ & _ & _ & _ & Hld & _ & _ & _ & _ & Ht & Hch).
  destruct (updateMeshGroups (stateRef s) (time s + 0.01) (logicData s1) g1)
    as (ld' & g' & E & Hd & Hm & _ & _ & _).
  { intros c. destruct (Hb c) as (ms & Hms & _). exists ms. congruence. }
  change (stateRef (set_time (time s + 0.01) s)) with (stateRef s).
  change (time (set_time (time s + 0.01) s)) with (time s + 0.01).
  rewrite E. rewrite Hld in Hd, Hm. rewrite Hch in Hm.
  assert (Hfin : forall (ld2 : LogicData) (s2 : App)
                        (photos : list PhotoMesh),
             (forall c, getData c ld2 = getData c ld') ->
             time s2 = time s + 0.01 ->
             let s3 := set_photoMeshes photos
                         (set_logicData ld2 (set_mainGroup (Some g') s2)) in
             (forall c, getData c (logicData s3) =
                        newData (stateRef s) (time s + 0.01)
                                (getData c (logicData s))) /\
             (forall c ms,
                 match nth_error (children g) (meshIndex c) with
                 | Some (InstancedMesh matrices) => Some matrices
                 | _ => None
                 end = Some ms ->
                 match mainGroup s3 with
                 | Some g0 =>
                     match nth_error (children g0) (meshIndex c) with
                     | Some (InstancedMesh matrices) => Some matrices
                     | _ => None
                     end
                 | None => None
                 end = Some (newMatrices (stateRef s) (time s + 0.01)
                               (getData c (logicData s)) ms)) /\
             time s3 = time s + 0.01 /\
             (exists g0, mainGroup s3 = Some g0 /\
                forall c, exists matrices,
                  nth_error (children g0) (meshIndex c) =
                    Some (InstancedMesh matrices) /\
                  length matrices = length (getData c (logicData s3)))).
  { intros ld2 s2 photos Hsame Hts s3. subst s3. simpl.
    split; [intros c; rewrite Hsame; apply Hd |].
    split.
    - intros c ms Hc. destruct (Hb c) as (ms' & Hms' & _).
      rewrite Hms' in Hc. injection Hc as <-.
      now rewrite (Hm c ms' Hms').
    - split; [exact Hts |]. exists g'. split; [reflexivity |].
      intros c. destruct (Hb c) as (ms & Hms & Hlen).
      exists (newMatrices (stateRef s) (time s + 0.01)
                (getData c (logicData s)) ms).
      split; [now apply Hm |].
      rewrite Hsame, Hd. unfold newMatrices, newData.
      now rewrite updateItems_length, length_mapi. }
  destruct (dustSystem s1) as [positions |].
  - destruct (updateDust _ _ _ _ _) as [motes positions'].
    apply Hfin; [intros c; destruct c; reflexivity | exact Ht].
  - apply Hfin; [intros c; destruct c; reflexivity | exact Ht].
Qed.

(** ** One instance through one frame *)

Lemma updateItem_fields (m : AppState) (t : R) (j : nat)
  (item : InstanceData) :
  treePos (fst (updateItem m t j item)) = treePos item /\
  scatterPos (fst (updateItem m t j item)) = scatterPos item /\
  scale (fst (updateItem m t j item)) = scale item /\
  rotSpeed (fst (updateItem m t j item)) = rotSpeed item.
Proof. repeat split. Qed.

Lemma updateItem_scale (m : AppState) (t : R) (j : nat)
  (item : InstanceData) :
  t_scale (snd (updateItem m t j item)) =
    match m with ZOOM => scale item * 0.5 | _ => scale item end.
Proof. destruct m; reflexivity. Qed.

(** Outside [SCATTER] the new position is the interpolation alone. *)
Lemma updateItem_currentPos (m : AppState) (t : R) (j : nat)
  (item : InstanceData) :
  m <> SCATTER ->
  currentPos (fst (updateItem m t j item)) =
    Vector3.lerp (currentPos item) (targetOf m item) 0.06.
Proof. destruct m; [reflexivity | congruence | reflexivity]. Qed.

(** In [SCATTER] a sinusoid of the clock and the index is added to [y]. *)
Lemma updateItem_currentPos_SCATTER (t : R) (j : nat) (item : InstanceData) :
  currentPos (fst (updateItem SCATTER t j item)) =
    let p := Vector3.lerp (currentPos item) (scatterPos item) 0.06 in
    Vector3.set_y p (Vector3.y p + sin (t + INR j) * 0.02).
Proof. reflexivity. Qed.

(** Instance [j] of a category after a frame, and its matrix. *)
Lemma animate_item (s : App) (c : Category) (j : nat) (item : InstanceData) :
  sceneBuilt s ->
  nth_error (getData c (logicData s)) j = Some item ->
  nth_error (getData c (logicData (frame s))) j =
    Some (fst (updateItem (stateRef s) (time s + 0.01) j item)) /\
  exists matrices,
    rendered c (frame s) = Some matrices /\
    nth_error matrices j =
      Some (snd (updateItem (stateRef s) (time s + 0.01) j item)).
Proof.
  intros Hb Hj.
  destruct (animate_built s Hb) as (Hd & Hm & _ & _).
  split.
  - rewrite Hd. unfold newData. rewrite nth_error_mapi, Hj. reflexivity.
  - destruct Hb as (g & Eg & Hb). destruct (Hb c) as (ms & Hms & Hlen).
    apply (rendered_spec c s g ms Eg) in Hms.
    eexists. split; [apply Hm; exact Hms |].
    unfold newMatrices.
    apply (updateItems_matrix (stateRef s) (time s + 0.01) 0 j).
    + exact Hj.
    + rewrite Hlen. apply nth_error_Some. simpl. congruence.
Qed.

(** The detector callbacks do not touch the scene. *)
Lemma applyGesture_scene (pinch fist : bool) (s : App) :
  logicData (applyGesture pinch fist s) = logicData s /\
  mainGroup (applyGesture pinch fist s) = mainGroup s /\
  rotVelocity (applyGesture pinch fist s) = rotVelocity s.
Proof.
  destruct s as [? ? ? ? ? ? ? ? photos mode ? ? ? ? ? ?].
  unfold applyGesture; simpl.
  destruct pinch, fist, mode, photos; repeat split.
Qed.

Lemma handleGesture_scene (marks : list NormalizedLandmark) (s : App) :
  logicData (finalState (handleGesture marks s)) = logicData s /\
  mainGroup (finalState (handleGesture marks s)) = mainGroup s /\
  rotVelocity (finalState (handleGesture marks s)) = rotVelocity s.
Proof.
  unfold handleGesture.
  destruct (landmarkAt marks 9) as [p9 |]; [| repeat split].
  destruct (isFist marks) as [fist |]; [| repeat split].
  destruct (isPinch marks) as [pinch |]; [| repeat split].
  cbn [finalState].
  destruct (applyGesture_scene pinch fist
              (set_handPos (mkXY (lx p9) (ly p9)) s)) as (H1 & H2 & H3).
  rewrite H1, H2, H3. repeat split.
Qed.

Lemma detectFrame_scene
  (result : option (list (list NormalizedLandmark))) (s : App) :
  logicData (detectFrame result s) = logicData s /\
  mainGroup (detectFrame result s) = mainGroup s /\
  rotVelocity (detectFrame result s) = rotVelocity s.
Proof.
  unfold detectFrame, predictWebcam.
  destruct result as [[| marks others] |]; [repeat split | | repeat split].
  destruct (handleGesture_scene marks (set_isHandPresent true s))
    as (H1 & H2 & H3).
  unfold syncState. cbn [logicData mainGroup rotVelocity set_stateRef].
  rewrite H1, H2, H3. repeat split.
Qed.

Lemma sceneBuilt_ext (s s' : App) :
  logicData s' = logicData s -> mainGroup s' = mainGroup s ->
  sceneBuilt s -> sceneBuilt s'.
Proof. unfold sceneBuilt. intros -> ->. auto. Qed.

(** C10: the scale written for instance [j] in a frame is half the base
    scale when the mode is [ZOOM] and the base scale otherwise, whatever was
    written before; frames and detector callbacks leave the base scale as it
    was, so the frame after the mode changed writes the other value. *)
Theorem rendered_scale_in_ZOOM (s : App) (c : Category) (j : nat)
  (item : InstanceData)
  (result : option (list (list NormalizedLandmark))) :
  sceneBuilt s ->
  nth_error (getData c (logicData s)) j = Some item ->
  (exists item' matrices tr,
      nth_error (getData c (logicData (frame s))) j = Some item' /\
      scale item' = scale item /\
      rendered c (frame s) = Some matrices /\
      nth_error matrices j = Some tr /\
      t_scale tr =
        match stateRef s with ZOOM => 0.5 * scale item | _ => scale item end)
  /\
  (let s2 := detectFrame result (frame s) in
   exists matrices tr,
     rendered c (frame s2) = Some matrices /\
     nth_error matrices j = Some tr /\
     t_scale tr =
       match stateRef s2 with ZOOM => 0.5 * scale item | _ => scale item end).
Proof.
  intros Hb Hj.
  destruct (animate_item s c j item Hb Hj) as (Hi & ms & Hr & Hm).
  split.
  - eexists. exists ms. eexists.
    split; [exact Hi |]. split; [reflexivity |].
    split; [exact Hr |]. split; [exact Hm |].
    rewrite updateItem_scale. destruct (stateRef s); try reflexivity. ring.
  - intros s2.
    destruct (detectFrame_scene result (frame s)) as (Hld & Hg & _).
    fold s2 in Hld, Hg.
    assert (Hb2 : sceneBuilt s2).
    { apply (sceneBuilt_ext (frame s)); auto.
      now destruct (animate_built s Hb) as (_ & _ & _ & H). }
    assert (Hj2 : nth_error (getData c (logicData s2)) j =
                  Some (fst (updateItem (stateRef s) (time s + 0.01) j item)))
      by (rewrite Hld; exact Hi).
    destruct (animate_item s2 c j _ Hb2 Hj2) as (_ & ms2 & Hr2 & Hm2).
    exists ms2. eexists. split; [exact Hr2 |]. split; [exact Hm2 |].
    rewrite updateItem_scale. destruct (stateRef s2); try reflexivity.
    simpl. ring.
Qed.

(** ** Interpolation toward a fixed target *)

(** The gap to the target shrinks by the factor [1 - alpha] on each axis. *)
Lemma lerp_gap (p v : Vector3.t) (alpha : R) :
  Vector3.x v - Vector3.x (Vector3.lerp p v alpha) =
    (1 - alpha) * (Vector3.x v - Vector3.x p) /\
  Vector3.y v - Vector3.y (Vector3.lerp p v alpha) =
    (1 - alpha) * (Vector3.y v - Vector3.y p) /\
  Vector3.z v - Vector3.z (Vector3.lerp p v alpha) =
    (1 - alpha) * (Vector3.z v - Vector3.z p).
Proof. simpl. repeat split; ring. Qed.

(** A position whose gap to [v] is [k] times the gap of [p]. *)
Lemma distanceTo_scaled (q p v : Vector3.t) (k : R) :
  0 <= k ->
  Vector3.x v - Vector3.x q = k * (Vector3.x v - Vector3.x p) ->
  Vector3.y v - Vector3.y q = k * (Vector3.y v - Vector3.y p) ->
  Vector3.z v - Vector3.z q = k * (Vector3.z v - Vector3.z p) ->
  Vector3.distanceTo q v = k * Vector3.distanceTo p v.
Proof.
  intros Hk Hx Hy Hz. unfold Vector3.distanceTo.
  replace (Vector3.x q - Vector3.x v) with (- (Vector3.x v - Vector3.x q)) by ring.
  replace (Vector3.y q - Vector3.y v) with (- (Vector3.y v - Vector3.y q)) by ring.
  replace (Vector3.z q - Vector3.z v) with (- (Vector3.z v - Vector3.z q)) by ring.
  rewrite Hx, Hy, Hz.
  match goal with
  | |- sqrt ?a = k * sqrt ?b => replace a with ((k * k) * b) by ring
  end.
  rewrite sqrt_mult_alt by nra.
  now rewrite sqrt_square.
Qed.

Lemma distanceTo_nonneg (p v : Vector3.t) : 0 <= Vector3.distanceTo p v.
Proof. apply sqrt_pos. Qed.

(** The powers of 0.94 that the statements need. *)
Lemma pow_094_bounds (n : nat) : 0 < 0.94 ^ n /\ 0.94 ^ S n < 0.94 ^ n.
Proof.
  assert (H : 0 < 0.94 ^ n) by (apply pow_lt; lra).
  split; [exact H |]. simpl. nra.
Qed.

Lemma pow_094_150 : 0.94 ^ 150 < 0.001.
Proof.
  assert (H2 : 0.94 ^ 2 = 0.8836) by (simpl; lra).
  assert (H4 : 0.94 ^ 4 < 0.7808).
  { replace 4%nat with (2 + 2)%nat by reflexivity. rewrite pow_add, H2. lra. }
  assert (H4p : 0 < 0.94 ^ 4) by (apply pow_lt; lra).
  assert (H8 : 0.94 ^ 8 < 0.6097).
  { replace 8%nat with (4 + 4)%nat by reflexivity. rewrite pow_add. nra. }
  assert (H8p : 0 < 0.94 ^ 8) by (apply pow_lt; lra).
  assert (H16 : 0.94 ^ 16 < 0.3718).
  { replace 16%nat with (8 + 8)%nat by reflexivity. rewrite pow_add. nra. }
  assert (H16p : 0 < 0.94 ^ 16) by (apply pow_lt; lra).
  assert (H32 : 0.94 ^ 32 < 0.1383).
  { replace 32%nat with (16 + 16)%nat by reflexivity. rewrite pow_add. nra. }
  assert (H32p : 0 < 0.94 ^ 32) by (apply pow_lt; lra).
  assert (H64 : 0.94 ^ 64 < 0.01913).
  { replace 64%nat with (32 + 32)%nat by reflexivity. rewrite pow_add. nra. }
  assert (H64p : 0 < 0.94 ^ 64) by (apply pow_lt; lra).
  assert (H128 : 0.94 ^ 128 < 0.000366).
  { replace 128%nat with (64 + 64)%nat by reflexivity. rewrite pow_add. nra. }
  assert (H128p : 0 < 0.94 ^ 128) by (apply pow_lt; lra).
  assert (H22p : 0 < 0.94 ^ 22) by (apply pow_lt; lra).
  assert (H22 : 0.94 ^ 22 < 1).
  { apply pow_lt_1_compat; [lra | lia]. }
  replace 150%nat with (128 + 22)%nat by reflexivity. rewrite pow_add. nra.
Qed.

Lemma pow_094_decr (n k : nat) : (k <= n)%nat -> 0.94 ^ n <= 0.94 ^ k.
Proof.
  induction 1 as [| n _ IH]; [lra |].
  destruct (pow_094_bounds n). lra.
Qed.

(** Instance [j] after [n] frames in a mode other than [SCATTER]: the same
    targets and base scale, the gap to the target scaled by [0.94 ^ n]. *)
Lemma run_item (s : App) (c : Category) (j : nat) (item : InstanceData)
  (n : nat) :
  sceneBuilt s ->
  stateRef s <> SCATTER ->
  nth_error (getData c (logicData s)) j = Some item ->
  sceneBuilt (run n s) /\
  stateRef (run n s) = stateRef s /\
  exists item_n,
    nth_error (getData c (logicData (run n s))) j = Some item_n /\
    treePos item_n = treePos item /\
    scatterPos item_n = scatterPos item /\
    scale item_n = scale item /\
    let T := targetOf (stateRef s) item in
    Vector3.x T - Vector3.x (currentPos item_n) =
      0.94 ^ n * (Vector3.x T - Vector3.x (currentPos item)) /\
    Vector3.y T - Vector3.y (currentPos item_n) =
      0.94 ^ n * (Vector3.y T - Vector3.y (currentPos item)) /\
    Vector3.z T - Vector3.z (currentPos item_n) =
      0.94 ^ n * (Vector3.z T - Vector3.z (currentPos item)).
Proof.
  intros Hb Hm Hj. induction n as [| n IH].
  - simpl. split; [exact Hb |]. split; [reflexivity |].
    exists item. repeat split; try exact Hj; ring.
  - destruct IH as (Hbn & Hmn & item_n & Hjn & Ht & Hs & Hsc & Gx & Gy & Gz).
    change (run (S n) s) with (frame (run n s)).
    destruct (animate_built (run n s) Hbn) as (_ & _ & _ & Hb').
    destruct (animate_refs (run n s)) as (_ & Hm' & _).
    destruct (animate_item (run n s) c j item_n Hbn Hjn) as (Hj' & _).
    split; [exact Hb' |]. split; [congruence |].
    eexists. split; [exact Hj' |].
    repeat split; try assumption.
    all: rewrite Hmn, updateItem_currentPos by exact Hm.
    all: assert (HT : targetOf (stateRef s) item_n = targetOf (stateRef s) item)
      by (unfold targetOf; destruct (stateRef s); congruence).
    all: rewrite HT.
    all: destruct (lerp_gap (currentPos item_n) (targetOf (stateRef s) item) 0.06)
      as (Lx & Ly & Lz).
    + rewrite Lx. cbv zeta in Gx. rewrite Gx.
      replace (1 - 0.06) with 0.94 by lra. simpl pow. ring.
    + rewrite Ly. cbv zeta in Gy. rewrite Gy.
      replace (1 - 0.06) with 0.94 by lra. simpl pow. ring.
    + rewrite Lz. cbv zeta in Gz. rewrite Gz.
      replace (1 - 0.06) with 0.94 by lra. simpl pow. ring.
Qed.

(** An instance in [TREE] and in [ZOOM]: every frame multiplies its distance
    to the target by 0.94. *)
Lemma instance_converges (s : App) (c : Category) (j : nat)
  (item : InstanceData) (n : nat) :
  sceneBuilt s ->
  stateRef s <> SCATTER ->
  nth_error (getData c (logicData s)) j = Some item ->
  exists item_n item_next,
    nth_error (getData c (logicData (run n s))) j = Some item_n /\
    nth_error (getData c (logicData (run (S n) s))) j = Some item_next /\
    let T := targetOf (stateRef s) item in
    let d0 := Vector3.distanceTo (currentPos item) T in
    let dn := Vector3.distanceTo (currentPos item_n) T in
    let dnext := Vector3.distanceTo (currentPos item_next) T in
    targetOf (stateRef (run n s)) item_n = T /\
    dn = 0.94 ^ n * d0 /\
    dnext = 0.94 * dn /\
    (0 < d0 -> dnext < dn) /\
    ((150 <= n)%nat -> dn <= 0.001 * d0) /\
    ((150 <= n)%nat -> 0 < d0 -> dn < 0.001 * d0) /\
    Vector3.x T - Vector3.x (currentPos item_n) =
      0.94 ^ n * (Vector3.x T - Vector3.x (currentPos item)) /\
    Vector3.y T - Vector3.y (currentPos item_n) =
      0.94 ^ n * (Vector3.y T - Vector3.y (currentPos item)) /\
    Vector3.z T - Vector3.z (currentPos item_n) =
      0.94 ^ n * (Vector3.z T - Vector3.z (currentPos item)).
Proof.
  intros Hb Hm Hj.
  destruct (run_item s c j item n Hb Hm Hj)
    as (_ & Hmn & item_n & Hjn & Ht & Hs & _ & Gx & Gy & Gz).
  destruct (run_item s c j item (S n) Hb Hm Hj)
    as (_ & _ & item_next & Hjs & _ & _ & _ & Sx & Sy & Sz).
  exists item_n, item_next.
  split; [exact Hjn |]. split; [exact Hjs |].
  cbv zeta in *.
  set (T := targetOf (stateRef s) item) in *.
  pose proof (distanceTo_nonneg (currentPos item) T) as Hd0.
  destruct (pow_094_bounds n) as (Hp & Hdec).
  assert (Hdn : Vector3.distanceTo (currentPos item_n) T =
                0.94 ^ n * Vector3.distanceTo (currentPos item) T)
    by (apply distanceTo_scaled; [lra | assumption ..]).
  assert (Hds : Vector3.distanceTo (currentPos item_next) T =
                0.94 ^ S n * Vector3.distanceTo (currentPos item) T).
  { apply distanceTo_scaled; try assumption.
    destruct (pow_094_bounds (S n)); lra. }
  split.
  { rewrite Hmn. unfold T, targetOf. destruct (stateRef s); congruence. }
  split; [exact Hdn |].
  split; [rewrite Hds, Hdn; simpl; ring |].
  split; [intros Hpos; rewrite Hds, Hdn; nra |].
  assert (H150 : (150 <= n)%nat -> 0.94 ^ n < 0.001).
  { intros Hn. pose proof (pow_094_decr n 150 Hn). pose proof pow_094_150. lra. }
  split; [intros Hn; rewrite Hdn; specialize (H150 Hn); nra |].
  split; [intros Hn Hpos; rewrite Hdn; specialize (H150 Hn); nra |].
  auto.
Qed.

(** ** Rotation momentum *)

(** What a frame does to the momentum refs is what block 1 does. *)
Lemma animate_momentum (s : App) (g : Group) :
  mainGroup s = Some g ->
  rotVelocity (frame s) =
    rotVelocity (fst (rotateGroup (set_time (time s + 0.01) s) g)) /\
  lastHandPos (frame s) =
    lastHandPos (fst (rotateGroup (set_time (time s + 0.01) s) g)) /\
  mainGroup (frame s) <> None.
Proof.
  intros Eg. unfold animate. rewrite Eg.
  destruct (rotateGroup (set_time (time s + 0.01) s) g) as [s1 g1].
  match goal with
  | |- context [updateMeshGroup ?c ?t 3 Emerald ?st] =>
      destruct (updateMeshGroup c t 3 Emerald st) as [ld g2]
  end.
  destruct (dustSystem s1) as [positions |].
  - destruct (updateDust _ _ _ _ _) as [motes positions'].
    simpl. repeat split. discriminate.
  - simpl. repeat split. discriminate.
Qed.

(** The angular velocity after one frame, by mode and hand presence. *)
Lemma animate_rotVelocity (s : App) :
  mainGroup s <> None ->
  (stateRef s = SCATTER -> isHandPresent s = true ->
     rotVelocity (frame s) =
       mkXY ((x (rotVelocity s)
              + (y (handPos s) - y (lastHandPos s)) * 0.2) * 0.95)
            ((y (rotVelocity s)
              + (x (handPos s) - x (lastHandPos s)) * 0.2) * 0.95) /\
     lastHandPos (frame s) = mkXY (x (handPos s)) (y (handPos s))) /\
  (stateRef s = SCATTER -> isHandPresent s = false ->
     rotVelocity (frame s) =
       mkXY (x (rotVelocity s) * 0.95) (y (rotVelocity s) * 0.95) /\
     lastHandPos (frame s) = lastHandPos s) /\
  (stateRef s <> SCATTER ->
     rotVelocity (frame s) = rotVelocity s /\
     lastHandPos (frame s) = lastHandPos s).
Proof.
  intros Hg. destruct (mainGroup s) as [g |] eqn:Eg; [| congruence].
  destruct (animate_momentum s g Eg) as (Hv & Hl & _).
  rewrite Hv, Hl. unfold rotateGroup.
  change (stateRef (set_time (time s + 0.01) s)) with (stateRef s).
  change (isHandPresent (set_time (time s + 0.01) s)) with (isHandPresent s).
  split; [intros Hm Hp; rewrite Hm, Hp; split; reflexivity |].
  split; [intros Hm Hp; rewrite Hm, Hp; split; reflexivity |].
  intros Hm.
  destruct (stateRef s); [split; reflexivity | congruence | split; reflexivity].
Qed.

(** With the hand absent or still, [n] frames in [SCATTER] multiply each
    component of the angular velocity by [0.95 ^ n]. *)
Lemma run_momentum (s : App) (n : nat) :
  mainGroup s <> None ->
  stateRef s = SCATTER ->
  isHandPresent s = false \/ handPos s = lastHandPos s ->
  mainGroup (run n s) <> None /\
  stateRef (run n s) = SCATTER /\
  (isHandPresent (run n s) = false \/ handPos (run n s) = lastHandPos (run n s)) /\
  x (rotVelocity (run n s)) = 0.95 ^ n * x (rotVelocity s) /\
  y (rotVelocity (run n s)) = 0.95 ^ n * y (rotVelocity s).
Proof.
  intros Hg Hm Hz. induction n as [| n IH].
  - simpl. repeat split; try assumption; ring.
  - destruct IH as (Hgn & Hmn & Hzn & Hx & Hy).
    change (run (S n) s) with (frame (run n s)).
    destruct (animate_refs (run n s)) as (_ & Hm' & _ & _ & Hh & Hp).
    destruct (animate_rotVelocity (run n s) Hgn) as (Hpres & Habs & _).
    destruct (mainGroup (run n s)) as [g |] eqn:Eg; [| congruence].
    destruct (animate_momentum (run n s) g Eg) as (_ & _ & Hg').
    split; [exact Hg' |]. split; [congruence |].
    destruct (isHandPresent (run n s)) eqn:Ep.
    + destruct (Hpres Hmn eq_refl) as (Hv & Hl).
      destruct Hzn as [Hzn | Hzn]; [discriminate |].
      rewrite Hv, Hl, Hp. simpl. rewrite Hzn.
      split; [right; destruct (lastHandPos (run n s)); reflexivity |].
      split.
      * rewrite Hx. ring.
      * rewrite Hy. ring.
    + destruct (Habs Hmn eq_refl) as (Hv & Hl).
      rewrite Hv, Hh. simpl.
      split; [left; reflexivity |].
      split.
      * rewrite Hx. ring.
      * rewrite Hy. ring.
Qed.

Lemma pow_095_bounds (n : nat) : 0 < 0.95 ^ n /\ 0.95 ^ S n < 0.95 ^ n.
Proof.
  assert (H : 0 < 0.95 ^ n) by (apply pow_lt; lra).
  split; [exact H |]. simpl. nra.
Qed.

Lemma Rabs_scaled (k a : R) : 0 <= k -> Rabs (k * a) = k * Rabs a.
Proof. intros H. rewrite Rabs_mult, (Rabs_right k); [reflexivity | lra]. Qed.

(** Momentum that decays by [0.95] per frame goes below every bound. *)
Lemma decay_to_zero (v eps : R) :
  0 < eps -> exists N, forall k, (N <= k)%nat -> Rabs (0.95 ^ k * v) < eps.
Proof.
  intros He.
  assert (Hq : 0 < eps / (Rabs v + 1)).
  { apply Rdiv_lt_0_compat; [exact He |]. pose proof (Rabs_pos v). lra. }
  destruct (pow_lt_1_zero 0.95) with (y := eps / (Rabs v + 1)) as [N HN];
    [rewrite Rabs_right; lra | exact Hq |].
  exists N. intros k Hk.
  specialize (HN k Hk).
  destruct (pow_095_bounds k) as (Hp & _).
  rewrite Rabs_right in HN by lra.
  rewrite Rabs_scaled by lra.
  pose proof (Rabs_pos v) as Hv.
  assert (H1 : 0.95 ^ k * (Rabs v + 1) < eps).
  { apply (Rmult_lt_compat_r (Rabs v + 1)) in HN; [| lra].
    unfold Rdiv in HN. rewrite Rmult_assoc, Rinv_l in HN by lra. lra. }
  nra.
Qed.

(** C1, as the code has it: the angular velocity is damped by 0.95 in the
    frames whose mode is [SCATTER], after the impulse of a present hand was
    added, and is left alone in [TREE] and in [ZOOM]; with the hand absent or
    still, [n] frames in [SCATTER] scale each component by [0.95 ^ n], so its
    magnitude never grows, its sign never flips and it goes to zero. *)
Theorem momentum_damped_in_SCATTER (s : App) (n : nat) :
  mainGroup s <> None ->
  (stateRef s = SCATTER -> isHandPresent s = true ->
     rotVelocity (frame s) =
       mkXY ((x (rotVelocity s)
              + (y (handPos s) - y (lastHandPos s)) * 0.2) * 0.95)
            ((y (rotVelocity s)
              + (x (handPos s) - x (lastHandPos s)) * 0.2) * 0.95)) /\
  (stateRef s = SCATTER -> isHandPresent s = false ->
     rotVelocity (frame s) =
       mkXY (x (rotVelocity s) * 0.95) (y (rotVelocity s) * 0.95)) /\
  (stateRef s <> SCATTER -> rotVelocity (frame s) = rotVelocity s) /\
  (stateRef s = SCATTER ->
   isHandPresent s = false \/ handPos s = lastHandPos s ->
     x (rotVelocity (run n s)) = 0.95 ^ n * x (rotVelocity s) /\
     y (rotVelocity (run n s)) = 0.95 ^ n * y (rotVelocity s) /\
     Rabs (x (rotVelocity (run (S n) s))) <= Rabs (x (rotVelocity (run n s))) /\
     Rabs (y (rotVelocity (run (S n) s))) <= Rabs (y (rotVelocity (run n s))) /\
     0 <= x (rotVelocity (run n s)) * x (rotVelocity s) /\
     0 <= y (rotVelocity (run n s)) * y (rotVelocity s) /\
     (forall eps, 0 < eps ->
        exists N, forall k, (N <= k)%nat ->
          Rabs (x (rotVelocity (run k s))) < eps /\
          Rabs (y (rotVelocity (run k s))) < eps)).
Proof.
  intros Hg.
  destruct (animate_rotVelocity s Hg) as (Hp & Ha & Ho).
  split; [intros Hm Hh; exact (proj1 (Hp Hm Hh)) |].
  split; [intros Hm Hh; exact (proj1 (Ha Hm Hh)) |].
  split; [intros Hm; exact (proj1 (Ho Hm)) |].
  intros Hm Hz.
  destruct (run_momentum s n Hg Hm Hz) as (_ & _ & _ & Hx & Hy).
  destruct (run_momentum s (S n) Hg Hm Hz) as (_ & _ & _ & Hx' & Hy').
  destruct (pow_095_bounds n) as (Hpos & Hdec).
  destruct (pow_095_bounds (S n)) as (Hpos' & _).
  split; [exact Hx |]. split; [exact Hy |].
  split.
  { rewrite Hx', Hx, !Rabs_scaled by lra.
    pose proof (Rabs_pos (x (rotVelocity s))). nra. }
  split.
  { rewrite Hy', Hy, !Rabs_scaled by lra.
    pose proof (Rabs_pos (y (rotVelocity s))). nra. }
  split; [rewrite Hx; nra |].
  split; [rewrite Hy; nra |].
  intros eps He.
  destruct (decay_to_zero (x (rotVelocity s)) eps He) as [N1 H1].
  destruct (decay_to_zero (y (rotVelocity s)) eps He) as [N2 H2].
  exists (Nat.max N1 N2). intros k Hk.
  destruct (run_momentum s k Hg Hm Hz) as (_ & _ & _ & Hxk & Hyk).
  rewrite Hxk, Hyk. split; [apply H1 | apply H2]; lia.
Qed.

(** ** The scene at mount *)

Lemma createInstances_spec (random : nat -> R) (n i count : nat)
  (store : list InstanceData) (matrices : list Transform) :
  exists matrices',
    createInstances random n i count store matrices =
      ((store ++ map (fun k => createItem random (n + 9 * k)) (seq 0 count))%list,
       matrices', (n + 9 * count)%nat) /\
    length matrices' = length matrices.
Proof.
  revert n i store matrices.
  induction count as [| count IH]; intros n i store matrices.
  - exists matrices. simpl. rewrite app_nil_r, Nat.add_0_r. auto.
  - destruct (IH (n + 9)%nat (S i) (store ++ [createItem random n])
                (setAt i (mkTransform (treePos (createItem random n))
                                      (Euler.mk 0 0 0) 1) matrices))
      as (ms & E & Hlen).
    exists ms. split.
    + change (createInstances random n i (S count) store matrices)
        with (createInstances random (n + 9) (S i) count
                (store ++ [createItem random n])
                (setAt i (mkTransform (treePos (createItem random n))
                                      (Euler.mk 0 0 0) 1) matrices)).
      rewrite E. f_equal; [f_equal |]; [| lia].
      rewrite <- app_assoc. f_equal.
      change (seq 0 (S count)) with (0%nat :: seq 1 count).
      rewrite <- seq_shift, map_cons, map_map.
      simpl app. f_equal; [f_equal; lia |].
      apply map_ext. intros k. f_equal. lia.
    + rewrite Hlen. apply length_setAt.
Qed.

Lemma createInstancedMesh_spec (random : nat -> R) (n count : nat)
  (parent : Group) :
  exists matrices,
    createInstancedMesh random n count [] parent =
      (map (fun k => createItem random (n + 9 * k)) (seq 0 count),
       addChild (InstancedMesh matrices) parent, (n + 9 * count)%nat) /\
    length matrices = count.
Proof.
  unfold createInstancedMesh.
  destruct (createInstances_spec random n 0 count []
              (repeat identityTransform count)) as (ms & E & Hlen).
  exists ms. rewrite E. split; [reflexivity |].
  now rewrite Hlen, repeat_length.
Qed.

(** The scene that [initThree] builds on the initial refs: four instanced
    meshes, the star and the dust, and the four lists of items. *)
Lemma initThree_scene (random : nat -> R) :
  let n1 := (0 + 9 * goldCount CONFIG)%nat in
  let n2 := (n1 + 9 * silverCount CONFIG)%nat in
  let n3 := (n2 + 9 * gemCount CONFIG)%nat in
  exists mg ms mgm me motes,
    mainGroup (initThree random initialApp) =
      Some (mkGroup (Euler.mk 0 0 0)
              [InstancedMesh mg; InstancedMesh ms; InstancedMesh mgm;
               InstancedMesh me; StarChild; PointsChild]) /\
    logicData (initThree random initialApp) =
      mkLogic
        (map (fun k => createItem random (0 + 9 * k))
             (seq 0 (goldCount CONFIG)))
        (map (fun k => createItem random (n1 + 9 * k))
             (seq 0 (silverCount CONFIG)))
        (map (fun k => createItem random (n2 + 9 * k))
             (seq 0 (gemCount CONFIG)))
        (map (fun k => createItem random (n3 + 9 * k))
             (seq 0 (emeraldCount CONFIG)))
        motes
        (Some (mkStar (Vector3.mk 0 (treeHeight CONFIG / 2 + 3) 0) 0
                      (Vector3.mk 0 (treeHeight CONFIG / 2 + 3) 0)
                      (Vector3.mk 0 60 0))) /\
    length mg = goldCount CONFIG /\
    length ms = silverCount CONFIG /\
    length mgm = gemCount CONFIG /\
    length me = emeraldCount CONFIG.
Proof.
  intros n1 n2 n3.
  unfold initThree.
  change (mainGroup initialApp) with (@None Group). cbv iota.
  unfold createJewels.
  change (logicData initialApp) with (mkLogic [] [] [] [] [] None).
  change (gold (mkLogic [] [] [] [] [] None)) with (@nil InstanceData).
  change (silver (mkLogic [] [] [] [] [] None)) with (@nil InstanceData).
  change (gem (mkLogic [] [] [] [] [] None)) with (@nil InstanceData).
  change (emerald (mkLogic [] [] [] [] [] None)) with (@nil InstanceData).
  change (dust (mkLogic [] [] [] [] [] None)) with (@nil DustData).
  change (0 <? length (@nil InstanceData))%nat with false. cbv iota.
  destruct (createInstancedMesh_spec random 0 (goldCount CONFIG)
              (mkGroup (Euler.mk 0 0 0) [])) as (mg & -> & Hg).
  cbv beta iota zeta.
  destruct (createInstancedMesh_spec random n1 (silverCount CONFIG)
              (addChild (InstancedMesh mg) (mkGroup (Euler.mk 0 0 0) [])))
    as (ms & E1 & Hs).
  fold n1. rewrite E1. cbv beta iota zeta.
  destruct (createInstancedMesh_spec random n2 (gemCount CONFIG)
              (addChild (InstancedMesh ms)
                 (addChild (InstancedMesh mg) (mkGroup (Euler.mk 0 0 0) []))))
    as (mgm & E2 & Hgm).
  fold n2. rewrite E2. cbv beta iota zeta.
  destruct (createInstancedMesh_spec random n3 (emeraldCount CONFIG)
              (addChild (InstancedMesh mgm)
                 (addChild (InstancedMesh ms)
                    (addChild (InstancedMesh mg)
                       (mkGroup (Euler.mk 0 0 0) [])))))
    as (me & E3 & He).
  fold n3. rewrite E3. cbv beta iota zeta.
  change (dust (mkLogic _ _ _ _ (@nil DustData) _)) with (@nil DustData).
  change (0 <? length (@nil DustData))%nat with false. cbv iota.
  match goal with
  | |- context [createMotes ?a ?b ?c ?d ?e ?f] =>
      destruct (createMotes a b c d e f) as [motes pos]
  end.
  exists mg, ms, mgm, me, motes.
  repeat split; assumption.
Qed.

Lemma sceneBuilt_initThree (random : nat -> R) :
  sceneBuilt (initThree random initialApp).
Proof.
  destruct (initThree_scene random)
    as (mg & ms & mgm & me & motes & Eg & Eld & Hg & Hs & Hgm & He).
  eexists. split; [exact Eg |].
  rewrite Eld. intros c.
  destruct c;
    cbn [meshIndex getData gold silver gem emerald children nth_error];
    eexists; (split; [reflexivity |]);
    rewrite length_map, length_seq; assumption.
Qed.

(** Every instance is created at its tree position. *)
Lemma createItem_at_treePos (random : nat -> R) (n : nat) :
  currentPos (createItem random n) = treePos (createItem random n).
Proof. reflexivity. Qed.

Lemma first_gold_item (random : nat -> R) :
  nth_error (getData Gold (logicData (initThree random initialApp))) 0 =
    Some (createItem random 0).
Proof.
  destruct (initThree_scene random) as (mg & ms & mgm & me & motes & _ & -> & _).
  change (goldCount CONFIG) with (S 499).
  cbn [getData gold].
  rewrite <- cons_seq. reflexivity.
Qed.

(** A detector frame on a hand whose tests are known. *)
Lemma detectFrame_eq (marks : list NormalizedLandmark) (s : App)
  (p9 : NormalizedLandmark) (fist pinch : bool) :
  landmarkAt marks 9 = Ok p9 ->
  isFist marks = Ok fist ->
  isPinch marks = Ok pinch ->
  detectFrame (Some [marks]) s =
    syncState (applyGesture pinch fist
                 (set_handPos (mkXY (lx p9) (ly p9))
                    (set_isHandPresent true s))).
Proof.
  intros E9 Ef Ep. unfold detectFrame, predictWebcam, handleGesture.
  now rewrite E9, Ef, Ep.
Qed.

Lemma reachable_detectFrame
  (result : option (list (list NormalizedLandmark))) (s : App) :
  reached s -> reached (detectFrame result s).
Proof.
  intros H. unfold detectFrame.
  eapply reachable_step; [| apply step_sync].
  eapply reachable_step; [exact H | apply step_detect].
Qed.

End Frames.

(** ** The sample runs *)

Lemma initThree_clock (random : nat -> R) (s : App) :
  time (initThree random s) = time s /\
  isHandPresent (initThree random s) = isHandPresent s /\
  handPos (initThree random s) = handPos s /\
  lastHandPos (initThree random s) = lastHandPos s.
Proof.
  unfold initThree.
  destruct (mainGroup s); [repeat split |].
  destruct (createJewels random 0 (logicData s) _) as [[ld group] n].
  destruct (0 <? length (dust ld))%nat.
  - repeat split.
  - destruct (createMotes _ _ _ _ _ _). repeat split.
Qed.

(** An open hand: the palm centre is stored; from [TREE] or [ZOOM] the mode
    becomes [SCATTER] and the reference position is reset; in [SCATTER]
    nothing else moves. *)
Lemma detect_open (marks : list NormalizedLandmark) (s : App)
  (p9 : NormalizedLandmark) :
  landmarkAt marks 9 = Ok p9 ->
  isFist marks = Ok false -> isPinch marks = Ok false ->
  currentState s = stateRef s ->
  let s' := detectFrame (Some [marks]) s in
  stateRef s' = SCATTER /\ currentState s' = SCATTER /\
  handPos s' = mkXY (lx p9) (ly p9) /\
  lastHandPos s' =
    (if AppState_eqb (stateRef s) SCATTER then lastHandPos s
     else mkXY (lx p9) (ly p9)) /\
  isHandPresent s' = true /\
  time s' = time s.
Proof.
  intros E9 Ef Ep Hsync s'. subst s'.
  rewrite (detectFrame_eq marks s p9 false false E9 Ef Ep).
  destruct s as [cur ? ? ? ? ? ? ? photos mode ? ? ? ? ? ?].
  simpl in Hsync. subst cur.
  unfold applyGesture, syncState; simpl.
  destruct mode; simpl; repeat split.
Qed.

(** A fist: the palm centre is stored and the mode becomes [TREE]. *)
Lemma detect_fist (marks : list NormalizedLandmark) (s : App)
  (p9 : NormalizedLandmark) :
  landmarkAt marks 9 = Ok p9 ->
  isFist marks = Ok true -> isPinch marks = Ok false ->
  let s' := detectFrame (Some [marks]) s in
  stateRef s' = TREE /\ currentState s' = TREE /\
  handPos s' = mkXY (lx p9) (ly p9) /\
  lastHandPos s' = lastHandPos s /\
  isHandPresent s' = true.
Proof.
  intros E9 Ef Ep s'. subst s'.
  rewrite (detectFrame_eq marks s p9 true false E9 Ef Ep).
  repeat split.
Qed.

Lemma isFist_movedHand : isFist movedHand = Ok false.
Proof. unfold isFist, andAlso, isFingerFolded. hand_eval. reflexivity. Qed.

Lemma isPinch_movedHand : isPinch movedHand = Ok false.
Proof. unfold isPinch, pinchDist. hand_eval. reflexivity. Qed.

Lemma initThree_initial (random : nat -> R) :
  stateRef (initThree random initialApp) = TREE /\
  currentState (initThree random initialApp) = TREE /\
  rotVelocity (initThree random initialApp) = mkXY 0 0 /\
  time (initThree random initialApp) = 0.
Proof.
  destruct (initThree_refs random initialApp) as (Hc & Hm & _ & _ & Hv).
  destruct (initThree_clock random initialApp) as (Ht & _).
  repeat split; assumption.
Qed.

Lemma mounted_facts :
  stateRef mounted = TREE /\ currentState mounted = TREE /\
  rotVelocity mounted = mkXY 0 0 /\ time mounted = 0 /\
  mainGroup mounted <> None /\ sceneBuilt mounted.
Proof.
  destruct (initThree_initial half) as (Hm & Hc & Hv & Ht).
  repeat split; try assumption.
  - exact (mounted_mainGroup half).
  - exact (sceneBuilt_initThree half).
Qed.

Lemma scattered_facts :
  stateRef scattered = SCATTER /\ currentState scattered = SCATTER /\
  handPos scattered = mkXY 0.3 0 /\ lastHandPos scattered = mkXY 0.3 0 /\
  isHandPresent scattered = true /\
  rotVelocity scattered = mkXY 0 0 /\ time scattered = 0 /\
  mainGroup scattered <> None /\ sceneBuilt scattered.
Proof.
  destruct mounted_facts as (Hm & Hc & Hv & Ht & Hg & Hb).
  destruct (detect_open openHand mounted (mkLandmark 0.3 0 0))
    as (H1 & H2 & H3 & H4 & H5 & H6);
    [reflexivity | exact isFist_openHand | exact isPinch_openHand
     | congruence |].
  destruct (detectFrame_scene (Some [openHand]) mounted) as (Hld & Hmg & Hrv).
  rewrite Hm in H4. cbn [AppState_eqb] in H4.
  repeat split; try assumption; try congruence.
  revert Hb. apply sceneBuilt_ext; assumption.
Qed.

Lemma flung_facts :
  stateRef flung = TREE /\ currentState flung = TREE /\
  rotVelocity flung = mkXY 0 0.038 /\
  mainGroup flung <> None.
Proof.
  destruct scattered_facts as (Hm & Hc & Hh & Hl & Hp & Hv & _ & Hg & _).
  set (s2 := detectFrame (Some [movedHand]) scattered).
  destruct (detect_open movedHand scattered (mkLandmark 0.5 0 0))
    as (H1 & H2 & H3 & H4 & H5 & _);
    [reflexivity | exact isFist_movedHand | exact isPinch_movedHand
     | congruence |].
  fold s2 in H1, H2, H3, H4, H5.
  destruct (detectFrame_scene (Some [movedHand]) scattered) as (_ & Hmg & Hrv).
  fold s2 in Hmg, Hrv.
  rewrite Hm in H4. cbn [AppState_eqb] in H4.
  assert (Hg2 : mainGroup s2 <> None) by congruence.
  destruct (animate_rotVelocity sameVector sameFrame s2 Hg2) as (Hpres & _).
  destruct (Hpres H1 H5) as (Hv3 & _).
  change (animate sameVector sameFrame) with play in Hv3.
  rewrite H3, H4, Hl, Hrv, Hv in Hv3. cbn [x y lx ly] in Hv3.
  destruct (mainGroup s2) as [g |] eqn:Eg; [| congruence].
  destruct (animate_momentum sameVector sameFrame s2 g Eg) as (_ & _ & Hg3).
  change (animate sameVector sameFrame) with play in Hg3.
  destruct (detect_fist fistHand (play s2) (mkLandmark 0.3 0 0))
    as (F1 & F2 & _);
    [reflexivity | exact isFist_fistHand | exact isPinch_fistHand |].
  destruct (detectFrame_scene (Some [fistHand]) (play s2)) as (_ & Fmg & Frv).
  repeat split; try assumption; try congruence.
  rewrite Frv, Hv3. f_equal; lra.
Qed.

(** C1, counterexample: after a fling and a fist the mode is [TREE] and the
    angular velocity about the vertical axis is 0.038; the next frame leaves
    it at 0.038, where a damped value would be 0.0361. *)
Lemma momentum_kept_in_TREE :
  stateRef flung = TREE /\
  y (rotVelocity flung) = 0.038 /\
  y (rotVelocity (play flung)) = 0.038 /\
  0.038 * 0.95 = 0.0361.
Proof.
  destruct flung_facts as (Hm & _ & Hv & Hg).
  destruct (animate_rotVelocity sameVector sameFrame flung Hg) as (_ & _ & Ho).
  destruct Ho as (Hv' & _); [congruence |].
  change (animate sameVector sameFrame) with play in Hv'.
  repeat split; [exact Hm | now rewrite Hv | now rewrite Hv', Hv | lra].
Qed.

(** After the wave the mode is [SCATTER], the hand is where the frame last
    saw it, and the group turns about the vertical axis at 0.038. *)
Lemma waved_facts :
  stateRef waved = SCATTER /\ handPos waved = lastHandPos waved /\
  rotVelocity waved = mkXY 0 0.038 /\
  mainGroup waved <> None.
Proof.
  destruct scattered_facts as (Hm & Hc & Hh & Hl & Hp & Hv & _ & Hg & _).
  set (s2 := detectFrame (Some [movedHand]) scattered).
  destruct (detect_open movedHand scattered (mkLandmark 0.5 0 0))
    as (H1 & H2 & H3 & H4 & H5 & _);
    [reflexivity | exact isFist_movedHand | exact isPinch_movedHand
     | congruence |].
  fold s2 in H1, H2, H3, H4, H5.
  destruct (detectFrame_scene (Some [movedHand]) scattered) as (_ & Hmg & Hrv).
  fold s2 in Hmg, Hrv.
  rewrite Hm in H4. cbn [AppState_eqb] in H4.
  assert (Hg2 : mainGroup s2 <> None) by congruence.
  destruct (animate_rotVelocity sameVector sameFrame s2 Hg2) as (Hpres & _).
  destruct (Hpres H1 H5) as (Hv3 & Hl3).
  destruct (animate_refs sameVector sameFrame s2) as (_ & Hm3 & _ & _ & _ & Hh3).
  change (animate sameVector sameFrame) with play in Hv3, Hl3, Hm3, Hh3.
  rewrite H3, H4, Hl, Hrv, Hv in Hv3. cbn [x y lx ly] in Hv3.
  rewrite H3 in Hl3. cbn [x y] in Hl3.
  destruct (mainGroup s2) as [g |] eqn:Eg; [| congruence].
  destruct (animate_momentum sameVector sameFrame s2 g Eg) as (_ & _ & Hg3).
  change (animate sameVector sameFrame) with play in Hg3.
  split; [congruence |]. split; [congruence |].
  split; [| exact Hg3].
  rewrite Hv3. f_equal; lra.
Qed.

Lemma momentum_damped_in_SCATTER_witness :
  mainGroup waved <> None /\
  y (rotVelocity waved) = 0.038 /\
  y (rotVelocity (frames sameVector sameFrame 10 waved)) = 0.95 ^ 10 * 0.038 /\
  Rabs (y (rotVelocity (frames sameVector sameFrame 11 waved))) <=
    Rabs (y (rotVelocity (frames sameVector sameFrame 10 waved))).
Proof.
  destruct waved_facts as (Hm & Hh & Hv & Hg).
  split; [exact Hg |].
  split; [rewrite Hv; reflexivity |].
  destruct (momentum_damped_in_SCATTER sameVector sameFrame waved 10 Hg)
    as (_ & _ & _ & H).
  destruct (H Hm (or_intror Hh)) as (_ & Hy & _ & Hd & _).
  split; [| exact Hd].
  rewrite Hy, Hv. reflexivity.
Defined.

(** An instance that sits on its tree position stays there in [TREE]. *)
Lemma rests_on_target
  (applyQuaternion : R * R * R * R -> Vector3.t -> Vector3.t)
  (worldToLocal : Group -> Vector3.t -> Vector3.t)
  (s : App) (item : InstanceData) :
  sceneBuilt s -> stateRef s = TREE ->
  nth_error (getData Gold (logicData s)) 0 = Some item ->
  currentPos item = treePos item ->
  exists item',
    nth_error (getData Gold
                 (logicData (animate applyQuaternion worldToLocal s))) 0 =
      Some item' /\
    Vector3.distanceTo (currentPos item) (treePos item) = 0 /\
    Vector3.distanceTo (currentPos item') (treePos item') = 0.
Proof.
  intros Hb Hm Hj Hc.
  destruct (animate_item applyQuaternion worldToLocal s Gold 0 item Hb Hj)
    as (Hj' & _).
  eexists. split; [exact Hj' |].
  assert (Hz : forall p, Vector3.distanceTo p p = 0).
  { intros p. unfold Vector3.distanceTo.
    replace ((Vector3.x p - Vector3.x p) * (Vector3.x p - Vector3.x p) +
             (Vector3.y p - Vector3.y p) * (Vector3.y p - Vector3.y p) +
             (Vector3.z p - Vector3.z p) * (Vector3.z p - Vector3.z p))
      with 0 by ring.
    apply sqrt_0. }
  split; [rewrite Hc; apply Hz |].
  rewrite Hm, updateItem_currentPos by discriminate.
  destruct (updateItem_fields TREE (time s + 0.01) 0 item) as (-> & _).
  unfold targetOf. rewrite Hc.
  replace (Vector3.lerp (treePos item) (treePos item) 0.06)
    with (treePos item); [apply Hz |].
  unfold Vector3.lerp. destruct (treePos item) as [a b c].
  cbn [Vector3.x Vector3.y Vector3.z]. f_equal; ring.
Qed.

(** An instance that sits on its scatter target at the origin is moved off
    it by the first frame in [SCATTER]. *)
Lemma drifts_off_target
  (applyQuaternion : R * R * R * R -> Vector3.t -> Vector3.t)
  (worldToLocal : Group -> Vector3.t -> Vector3.t)
  (s : App) (item : InstanceData) :
  sceneBuilt s -> stateRef s = SCATTER -> time s = 0 ->
  nth_error (getData Gold (logicData s)) 0 = Some item ->
  currentPos item = Vector3.mk 0 0 0 ->
  scatterPos item = Vector3.mk 0 0 0 ->
  exists item',
    nth_error (getData Gold
                 (logicData (animate applyQuaternion worldToLocal s))) 0 =
      Some item' /\
    Vector3.distanceTo (currentPos item) (scatterPos item) = 0 /\
    0 < Vector3.distanceTo (currentPos item') (scatterPos item').
Proof.
  intros Hb Hm Ht Hj Hc Hs.
  destruct (animate_item applyQuaternion worldToLocal s Gold 0 item Hb Hj)
    as (Hj' & _).
  eexists. split; [exact Hj' |].
  split.
  - rewrite Hc, Hs. unfold Vector3.distanceTo.
    cbn [Vector3.x Vector3.y Vector3.z].
    replace ((0 - 0) * (0 - 0) + (0 - 0) * (0 - 0) + (0 - 0) * (0 - 0))
      with 0 by ring.
    apply sqrt_0.
  - rewrite Hm, Ht, updateItem_currentPos_SCATTER.
    destruct (updateItem_fields SCATTER (0 + 0.01) 0 item) as (_ & -> & _).
    rewrite Hc, Hs. unfold Vector3.distanceTo, Vector3.lerp, Vector3.set_y.
    cbn [Vector3.x Vector3.y Vector3.z INR].
    apply sqrt_lt_R0.
    assert (H : 0 < sin (0 + 0.01 + 0)).
    { apply sin_gt_0; [lra |]. pose proof PI2_1. lra. }
    nra.
Qed.

Lemma origin_item :
  currentPos (createItem originDraws 0) = Vector3.mk 0 0 0 /\
  scatterPos (createItem originDraws 0) = Vector3.mk 0 0 0.
Proof.
  unfold createItem, originDraws. simpl.
  rewrite sqrt_0. split; f_equal; unfold Rdiv; ring.
Qed.

(** [atOrigin] is in [SCATTER], its clock at zero, its scene built. *)
Lemma atOrigin_facts :
  sceneBuilt atOrigin /\ stateRef atOrigin = SCATTER /\ time atOrigin = 0 /\
  nth_error (getData Gold (logicData atOrigin)) 0 =
    Some (createItem originDraws 0).
Proof.
  destruct (initThree_initial originDraws) as (Hm0 & Hc0 & _ & Ht0).
  pose proof (sceneBuilt_initThree originDraws) as Hb0.
  pose proof (first_gold_item originDraws) as Hj.
  revert Hm0 Hc0 Ht0 Hb0 Hj.
  generalize (initThree originDraws initialApp).
  intros s0 Hm0 Hc0 Ht0 Hb0 Hj.
  destruct (detect_open openHand s0 (mkLandmark 0.3 0 0))
    as (H1 & _ & _ & _ & _ & H6);
    [reflexivity | exact isFist_openHand | exact isPinch_openHand
     | congruence |].
  destruct (detectFrame_scene (Some [openHand]) s0) as (Hld & Hmg & _).
  split; [apply (sceneBuilt_ext s0); assumption |].
  split; [exact H1 |]. split; [congruence |].
  rewrite Hld. exact Hj.
Qed.

(** C4, counterexample.  At mount, in [TREE], the first gold instance sits
    on its target: its distance is zero before and after a frame, so it does
    not decrease.  In [SCATTER], on the scene whose instances sit on their
    targets at the origin, the first frame moves the first gold instance
    away from its target: the distance grows from zero.  On binary64, an
    instance pulled from the origin to (1, 1, 1) is after 1000 frames still
    short of its target, and the next frame does not move it: the step has
    become smaller than the rounding. *)
Lemma distance_not_always_decreasing :
  (stateRef mounted = TREE /\
   exists item',
     nth_error (getData Gold (logicData mounted)) 0 =
       Some (createItem half 0) /\
     nth_error (getData Gold (logicData (play mounted))) 0 = Some item' /\
     Vector3.distanceTo (currentPos (createItem half 0))
                        (treePos (createItem half 0)) = 0 /\
     Vector3.distanceTo (currentPos item') (treePos item') = 0) /\
  (stateRef atOrigin = SCATTER /\
   exists item',
     nth_error (getData Gold (logicData atOrigin)) 0 =
       Some (createItem originDraws 0) /\
     nth_error (getData Gold (logicData (play atOrigin))) 0 = Some item' /\
     Vector3.distanceTo (currentPos (createItem originDraws 0))
                        (scatterPos (createItem originDraws 0)) = 0 /\
     0 < Vector3.distanceTo (currentPos item') (scatterPos item')) /\
  (PrimFloat.ltb (IEEE.x (IEEE.moveInstances 1000 IEEE.zero IEEE.ones))
                 (IEEE.x IEEE.ones) = true /\
   IEEE.moveInstance (IEEE.moveInstances 1000 IEEE.zero IEEE.ones) IEEE.ones =
     IEEE.moveInstances 1000 IEEE.zero IEEE.ones).
Proof.
  split; [| split]; [| | split; vm_compute; reflexivity].
  - destruct mounted_facts as (Hm & _ & _ & _ & _ & Hb).
    split; [exact Hm |].
    destruct (rests_on_target sameVector sameFrame mounted (createItem half 0)
                Hb Hm (first_gold_item half)
                (createItem_at_treePos half 0)) as (item' & H1 & H2 & H3).
    exists item'. split; [exact (first_gold_item half) |].
    split; [exact H1 |]. split; [exact H2 | exact H3].
  - destruct atOrigin_facts as (Hb & Hm & Ht & Hj).
    split; [exact Hm |].
    destruct origin_item as (Hc & Hs).
    destruct (drifts_off_target sameVector sameFrame atOrigin
                (createItem originDraws 0) Hb Hm Ht Hj Hc Hs)
      as (item' & H1 & H2 & H3).
    exists item'. split; [exact Hj |].
    split; [exact H1 |]. split; [exact H2 | exact H3].
Qed.


Lemma twoPhotos_reachable : reachable sameVector sameFrame twoPhotos.
Proof.
  apply reachable_detectFrame.
  eapply reachable_step; [| apply step_sync].
  eapply reachable_step; [| apply step_upload].
  eapply reachable_step; [| apply step_upload].
  apply reachable_mount.
Qed.

Lemma grabbed_facts :
  stateRef grabbed = ZOOM /\ currentState grabbed = ZOOM /\
  photoMeshes grabbed = photoMeshes twoPhotos /\
  zoomTargetIndex grabbed = 0%Z.
Proof.
  destruct twoPhotos_facts as (Hm & Hi & Hl).
  destruct (detectFrame_pinch pinchHand twoPhotos)
    as (H1 & H2 & H3 & H4);
    [exact length_pinchHand | exact isPinch_pinchHand | exact Hm
     | exact twoPhotos_nonempty |].
  repeat split; try assumption.
  rewrite H3, Hi, Hl. reflexivity.
Qed.

Lemma cursor_valid_in_ZOOM_witness :
  (0 <= zoomTargetIndex grabbed < Z.of_nat (length (photoMeshes grabbed)))%Z.
Proof.
  apply (cursor_valid_in_ZOOM sameVector sameFrame grabbed).
  - apply reachable_detectFrame. exact twoPhotos_reachable.
  - left. exact (proj1 grabbed_facts).
  - rewrite (proj1 (proj2 (proj2 grabbed_facts))). exact twoPhotos_nonempty.
Defined.

Lemma addPhoto_scene (w h : R) (random : nat -> R) (s : App) :
  sceneBuilt s ->
  sceneBuilt (addPhoto w h random s) /\
  logicData (addPhoto w h random s) = logicData s.
Proof.
  intros (g & Eg & Hb). unfold addPhoto. rewrite Eg.
  split; [| reflexivity].
  exists (addChild PhotoChild g). split; [reflexivity |].
  intros c. destruct (Hb c) as (ms & Hms & Hlen).
  exists ms. split; [| exact Hlen].
  unfold addChild. cbn [children]. rewrite nth_error_app1; [exact Hms |].
  apply nth_error_Some. congruence.
Qed.

Lemma syncState_scene (s : App) :
  sceneBuilt s -> sceneBuilt (syncState s) /\
  logicData (syncState s) = logicData s.
Proof. intros H. split; [exact H | reflexivity]. Qed.

Lemma detectFrame_built
  (result : option (list (list NormalizedLandmark))) (s : App) :
  sceneBuilt s ->
  sceneBuilt (detectFrame result s) /\
  logicData (detectFrame result s) = logicData s.
Proof.
  intros Hb. destruct (detectFrame_scene result s) as (Hld & Hmg & _).
  split; [revert Hb; apply sceneBuilt_ext; assumption | exact Hld].
Qed.

Lemma grabbed_scene :
  sceneBuilt grabbed /\
  nth_error (getData Gold (logicData grabbed)) 0 = Some (createItem half 0).
Proof.
  pose proof (sceneBuilt_initThree half) as Hb.
  pose proof (first_gold_item half) as Hj.
  revert Hb Hj. generalize (initThree half initialApp). intros s0 Hb Hj.
  destruct (addPhoto_scene 3 4 half s0 Hb) as (Hb1 & E1).
  destruct (addPhoto_scene 4 3 half _ Hb1) as (Hb2 & E2).
  destruct (syncState_scene _ Hb2) as (Hb3 & E3).
  destruct (detectFrame_built (Some [openHand]) _ Hb3) as (Hb4 & E4).
  destruct (detectFrame_built (Some [pinchHand]) _ Hb4) as (Hb5 & E5).
  split; [exact Hb5 |].
  rewrite E5, E4, E3, E2, E1. exact Hj.
Qed.

Lemma rendered_scale_in_ZOOM_witness :
  exists matrices tr,
    rendered Gold (play grabbed) = Some matrices /\
    nth_error matrices 0 = Some tr /\
    t_scale tr = 0.5 * scale (createItem half 0).
Proof.
  destruct (rendered_scale_in_ZOOM sameVector sameFrame grabbed Gold 0
              (createItem half 0) None)
    as ((item' & ms & tr & _ & _ & Hr & Hn & Hs) & _).
  - exact (proj1 grabbed_scene).
  - exact (proj2 grabbed_scene).
  - exists ms, tr. split; [exact Hr |]. split; [exact Hn |].
    rewrite (proj1 grabbed_facts) in Hs. exact Hs.
Defined.

(** ** Not-a-number in the frame loop *)

Lemma SFcompare_refl (f : SpecFloat.spec_float) :
  f <> SpecFloat.S754_nan -> SpecFloat.SFcompare f f = Some Eq.
Proof.
  destruct f as [s | s | | s m e]; intros H; try congruence.
  - reflexivity.
  - destruct s; reflexivity.
  - simpl. rewrite Z.compare_refl.
    assert (Hm : Pos.compare_cont Eq m m = Eq) by apply Pos.compare_cont_refl.
    rewrite Hm. destruct s; reflexivity.
Qed.

Lemma is_nan_spec (f : PrimFloat.float) :
  PrimFloat.is_nan f = true <-> FloatOps.Prim2SF f = SpecFloat.S754_nan.
Proof.
  unfold PrimFloat.is_nan. rewrite FloatAxioms.eqb_spec.
  unfold SpecFloat.SFeqb. split.
  - intros H.
    destruct (FloatOps.Prim2SF f) as [s | s | | s m e] eqn:E; try reflexivity.
    all: rewrite SFcompare_refl in H by discriminate; discriminate.
  - intros ->. reflexivity.
Qed.

Lemma nan_add (a b : PrimFloat.float) :
  PrimFloat.is_nan a = true \/ PrimFloat.is_nan b = true ->
  PrimFloat.is_nan (PrimFloat.add a b) = true.
Proof.
  rewrite !is_nan_spec, FloatAxioms.add_spec.
  unfold FloatAxioms.SF64add.
  intros [-> | ->]; [reflexivity |].
  destruct (FloatOps.Prim2SF a); reflexivity.
Qed.

Lemma nan_sub (a b : PrimFloat.float) :
  PrimFloat.is_nan a = true \/ PrimFloat.is_nan b = true ->
  PrimFloat.is_nan (PrimFloat.sub a b) = true.
Proof.
  rewrite !is_nan_spec, FloatAxioms.sub_spec.
  unfold FloatAxioms.SF64sub.
  intros [-> | ->]; [reflexivity |].
  destruct (FloatOps.Prim2SF a); reflexivity.
Qed.

Lemma nan_mul (a b : PrimFloat.float) :
  PrimFloat.is_nan a = true \/ PrimFloat.is_nan b = true ->
  PrimFloat.is_nan (PrimFloat.mul a b) = true.
Proof.
  rewrite !is_nan_spec, FloatAxioms.mul_spec.
  unfold FloatAxioms.SF64mul.
  intros [-> | ->]; [reflexivity |].
  destruct (FloatOps.Prim2SF a); reflexivity.
Qed.

(** One component of [lerp]: NaN in the position or in the target gives
    NaN. *)
Lemma nan_lerp_component (p t alpha : PrimFloat.float) :
  PrimFloat.is_nan p = true \/ PrimFloat.is_nan t = true ->
  PrimFloat.is_nan
    (PrimFloat.add p (PrimFloat.mul (PrimFloat.sub t p) alpha)) = true.
Proof.
  intros [H | H].
  - apply nan_add. now left.
  - apply nan_add. right. apply nan_mul. left. apply nan_sub. now left.
Qed.

Lemma hasNaN_lerp (p t : IEEE.Vector3) (alpha : PrimFloat.float) :
  IEEE.hasNaN p = true \/ IEEE.hasNaN t = true ->
  IEEE.hasNaN (IEEE.lerp p t alpha) = true.
Proof.
  unfold IEEE.hasNaN, IEEE.lerp. cbn [IEEE.x IEEE.y IEEE.z].
  rewrite !orb_true_iff.
  intros [[[H | H] | H] | [[H | H] | H]].
  - left. left. apply nan_lerp_component. now left.
  - left. right. apply nan_lerp_component. now left.
  - right. apply nan_lerp_component. now left.
  - left. left. apply nan_lerp_component. now right.
  - left. right. apply nan_lerp_component. now right.
  - right. apply nan_lerp_component. now right.
Qed.

(** Block 1 in [SCATTER]: a NaN hand coordinate, or a NaN angular velocity,
    gives a NaN angular velocity and a NaN rotation of the group. *)
Lemma nan_rotateScatter (m : IEEE.Momentum) :
  (IEEE.isHandPresent m = true /\
   PrimFloat.is_nan (fst (IEEE.handPos m)) = true) \/
  PrimFloat.is_nan (snd (IEEE.rotVelocity m)) = true ->
  PrimFloat.is_nan (snd (IEEE.rotVelocity (IEEE.rotateScatter m))) = true /\
  PrimFloat.is_nan (snd (IEEE.rotation (IEEE.rotateScatter m))) = true.
Proof.
  unfold IEEE.rotateScatter.
  intros [(Hp & Hn) | Hn].
  - rewrite Hp. cbn [IEEE.rotVelocity IEEE.rotation fst snd].
    split.
    + apply nan_mul. left. apply nan_add. right. apply nan_mul. left.
      apply nan_sub. now left.
    + apply nan_add. right. apply nan_add. right. apply nan_mul. left.
      apply nan_sub. now left.
  - destruct (IEEE.isHandPresent m);
      cbn [IEEE.rotVelocity IEEE.rotation fst snd]; split.
    + apply nan_mul. left. apply nan_add. now left.
    + apply nan_add. right. apply nan_add. now left.
    + apply nan_mul. now left.
    + apply nan_add. now right.
Qed.

Section NotANumber.

Import PrimFloat.
Local Set Warnings "-inexact-float".

Lemma nan_scatterFrames (inputs : list (bool * (PrimFloat.float * PrimFloat.float)))
  (m : IEEE.Momentum) :
  PrimFloat.is_nan (snd (IEEE.rotVelocity m)) = true ->
  PrimFloat.is_nan (snd (IEEE.rotVelocity (IEEE.scatterFrames inputs m))) = true /\
  (PrimFloat.is_nan (snd (IEEE.rotation m)) = true \/ inputs <> [] ->
   PrimFloat.is_nan (snd (IEEE.rotation (IEEE.scatterFrames inputs m))) = true).
Proof.
  revert m. induction inputs as [| [present hand] rest IH]; intros m H.
  - split; [exact H |]. intros [Hr | Hne]; [exact Hr | congruence].
  - cbn [IEEE.scatterFrames].
    destruct (nan_rotateScatter (IEEE.observe present hand m)) as (Hv & Hr);
      [right; exact H |].
    destruct (IH _ Hv) as (Hv' & Hr').
    split; [exact Hv' |]. intros _. apply Hr'. now left.
Qed.

(** C8, as the code has it: no update is skipped.  A NaN component of the
    target, or of the position, makes the position of a photo or of an
    instance NaN after the frame, whatever the other is; the only guard
    replaces a missing target by the origin; a NaN hand coordinate in
    [SCATTER] makes the angular velocity and the rotation of the group NaN,
    and they stay NaN through every later frame, with or without a hand. *)
Theorem nan_is_not_skipped :
  (forall position targetPos,
      IEEE.hasNaN targetPos = true ->
      IEEE.hasNaN (IEEE.movePhoto position (Some targetPos)) = true) /\
  (forall position targetPos,
      IEEE.hasNaN position = true ->
      IEEE.hasNaN (IEEE.movePhoto position targetPos) = true) /\
  (forall currentPos target,
      IEEE.hasNaN currentPos = true \/ IEEE.hasNaN target = true ->
      IEEE.hasNaN (IEEE.moveInstance currentPos target) = true) /\
  (forall position,
      IEEE.movePhoto position None =
        IEEE.lerp position IEEE.zero 0.1%float) /\
  (forall m inputs,
      IEEE.isHandPresent m = true ->
      PrimFloat.is_nan (fst (IEEE.handPos m)) = true ->
      PrimFloat.is_nan
        (snd (IEEE.rotVelocity
                (IEEE.scatterFrames inputs (IEEE.rotateScatter m)))) = true /\
      PrimFloat.is_nan
        (snd (IEEE.rotation
                (IEEE.scatterFrames inputs (IEEE.rotateScatter m)))) = true).
Proof.
  split; [| split; [| split; [| split]]].
  - intros position targetPos H. unfold IEEE.movePhoto.
    apply hasNaN_lerp. now right.
  - intros position targetPos H. unfold IEEE.movePhoto.
    apply hasNaN_lerp. now left.
  - intros currentPos target H. unfold IEEE.moveInstance.
    now apply hasNaN_lerp.
  - reflexivity.
  - intros m inputs Hp Hn.
    destruct (nan_rotateScatter m) as (Hv & Hr); [left; auto |].
    destruct (nan_scatterFrames inputs _ Hv) as (Hv' & Hr').
    split; [exact Hv' |]. apply Hr'. now left.
Qed.

(** C8, counterexample: a photo at (1, 2, 3) whose target has a NaN first
    coordinate has a NaN first coordinate after the frame, and still has it
    after a second frame toward the finite target (5, 5, 5); a hand whose x
    is NaN for one frame leaves the rotation of the group NaN two frames
    later, the hand being back at (0.5, 0.5) and then gone. *)
Lemma nan_target_reaches_photo :
  PrimFloat.is_nan (IEEE.x (IEEE.mk 1 2 3)%float) = false /\
  PrimFloat.is_nan
    (IEEE.x (IEEE.movePhoto (IEEE.mk 1 2 3)%float
               (Some (IEEE.mk PrimFloat.nan 0 0)%float))) = true /\
  PrimFloat.is_nan
    (IEEE.x (IEEE.movePhoto
               (IEEE.movePhoto (IEEE.mk 1 2 3)%float
                  (Some (IEEE.mk PrimFloat.nan 0 0)%float))
               (Some (IEEE.mk 5 5 5)%float))) = true /\
  PrimFloat.is_nan
    (snd (IEEE.rotation
            (IEEE.scatterFrames
               [(true, (PrimFloat.nan, 0.5%float));
                (true, (0.5%float, 0.5%float));
                (false, (0%float, 0%float))]
               (IEEE.mkMomentum false (0.5, 0.5) (0.5, 0.5) (0, 0) (0, 0))%float)))
    = true.
Proof. repeat split; vm_compute; reflexivity. Qed.

End NotANumber.

(** ** Further properties of the scene construction *)

(** The matrices of the loop of [createInstancedMesh]: slot [i + k] holds the
    transform of the k-th new item, at its tree position. *)
Lemma createInstances_matrices (random : nat -> R) (n i count k : nat)
  (store : list InstanceData) (matrices : list Transform) :
  (k < count)%nat -> (i + count <= length matrices)%nat ->
  nth_error (snd (fst (createInstances random n i count store matrices)))
            (i + k) =
    Some (mkTransform (treePos (createItem random (n + 9 * k)))
                      (Euler.mk 0 0 0) 1).
Proof.
  revert n i k store matrices.
  induction count as [| count IH]; intros n i k store matrices Hk Hlen; [lia |].
  change (createInstances random n i (S count) store matrices)
    with (createInstances random (n + 9) (S i) count
            (store ++ [createItem random n])
            (setAt i (mkTransform (treePos (createItem random n))
                                  (Euler.mk 0 0 0) 1) matrices)).
  destruct k as [| k].
  - rewrite Nat.add_0_r, Nat.mul_0_r, Nat.add_0_r.
    clear IH. revert n i store matrices Hlen.
    assert (Hkeep : forall c n' i' st ms j,
               (j < i')%nat ->
               nth_error (snd (fst (createInstances random n' i' c st ms))) j =
                 nth_error ms j).
    { induction c as [| c IHc]; intros n' i' st ms j Hj; [reflexivity |].
      change (createInstances random n' i' (S c) st ms)
        with (createInstances random (n' + 9) (S i') c
                (st ++ [createItem random n'])
                (setAt i' (mkTransform (treePos (createItem random n'))
                                       (Euler.mk 0 0 0) 1) ms)).
      rewrite IHc by lia. apply setAt_other. lia. }
    intros n i store matrices Hlen.
    rewrite Hkeep by lia. apply setAt_same. lia.
  - replace (i + S k)%nat with (S i + k)%nat by lia.
    replace (n + 9 * S k)%nat with (n + 9 + 9 * k)%nat by lia.
    apply IH; [lia | rewrite length_setAt; lia].
Qed.

(** [createInstancedMesh] on an empty list, in closed form: item [k] is built
    from the nine calls of the component that start at its call [n + 9 k],
    and matrix [k] of the new instanced mesh puts instance [k] at its tree
    position, unrotated and at scale 1. *)
Lemma createInstancedMesh_layout (random : nat -> R) (n count : nat)
  (parent : Group) :
  exists matrices,
    createInstancedMesh random n count [] parent =
      (map (fun k => createItem random (n + 9 * k)) (seq 0 count),
       mkGroup (rotation parent) (children parent ++ [InstancedMesh matrices]),
       (n + 9 * count)%nat) /\
    length matrices = count /\
    forall k, (k < count)%nat ->
      nth_error matrices k =
        Some (mkTransform (treePos (createItem random (n + 9 * k)))
                          (Euler.mk 0 0 0) 1) /\
      currentPos (createItem random (n + 9 * k)) =
        treePos (createItem random (n + 9 * k)).
Proof.
  unfold createInstancedMesh.
  pose proof (fun k Hk =>
                createInstances_matrices random n 0 count k []
                  (repeat identityTransform count) Hk) as Hm.
  destruct (createInstances_spec random n 0 count []
              (repeat identityTransform count)) as (ms & E & Hlen).
  rewrite E in Hm. rewrite E. cbn [fst snd] in Hm.
  exists ms. split; [reflexivity |].
  rewrite repeat_length in Hlen. split; [exact Hlen |].
  intros k Hk. split; [| reflexivity].
  apply (Hm k Hk). rewrite repeat_length. lia.
Qed.

(** X2: with draws in [0, 1), an instance is created inside the cone of the
    tree: its height is within 35 of the centre, its distance to the axis is
    at most the radius of the cone at that height (28 at the bottom, shrinking
    linearly to 2.8 at the top); its scatter target lies in the cube of side
    120, its base scale in [0.5, 1.5), its spin rates in [0, 0.05); it starts
    at its tree position, at rest. *)
Theorem createItem_in_cone (random : nat -> R) (n : nat) :
  (forall k, 0 <= random k < 1) ->
  let item := createItem random n in
  let p := treePos item in
  let radius := 28 * (1 - 0.9 * ((Vector3.y p + 35) / 70)) in
  - 35 <= Vector3.y p < 35 /\
  2.8 < radius <= 28 /\
  Vector3.x p * Vector3.x p + Vector3.z p * Vector3.z p <= radius * radius /\
  (- 60 <= Vector3.x (scatterPos item) < 60 /\
   - 60 <= Vector3.y (scatterPos item) < 60 /\
   - 60 <= Vector3.z (scatterPos item) < 60) /\
  0.5 <= scale item < 1.5 /\
  (0 <= x (rotSpeed item) < 0.05 /\ 0 <= y (rotSpeed item) < 0.05) /\
  currentPos item = p /\
  velocity item = Vector3.mk 0 0 0.
Proof.
  intros Hr item p radius. subst item p radius.
  unfold createItem.
  cbn [treePos scatterPos scale rotSpeed currentPos velocity
       Vector3.x Vector3.y Vector3.z x y treeHeight maxRadius CONFIG].
  pose proof (Hr n) as H0. pose proof (Hr (n + 1)%nat) as H1.
  pose proof (Hr (n + 3)%nat) as H3. pose proof (Hr (n + 4)%nat) as H4.
  pose proof (Hr (n + 5)%nat) as H5. pose proof (Hr (n + 6)%nat) as H6.
  pose proof (Hr (n + 7)%nat) as H7. pose proof (Hr (n + 8)%nat) as H8.
  set (u := random (n + 1)%nat) in *.
  set (r0 := random n) in *.
  set (theta := random (n + 2)%nat * PI * 2).
  replace (((r0 - 0.5) * 70 + 70 / 2) / 70) with r0 by lra.
  replace (((r0 - 0.5) * 70 + 35) / 70) with r0 by lra.
  split; [lra |]. split; [lra |]. split.
  - assert (Hs : sqrt u * sqrt u = u) by (apply sqrt_sqrt; lra).
    pose proof (sin2_cos2 theta) as Hsc. unfold Rsqr in Hsc.
    set (m := 28 * (1 - r0 * 0.9)).
    replace (28 * (1 - 0.9 * r0)) with m by (unfold m; ring).
    replace (sqrt u * m * cos theta * (sqrt u * m * cos theta) +
             sqrt u * m * sin theta * (sqrt u * m * sin theta))
      with ((sqrt u * sqrt u) * (m * m)
            * (sin theta * sin theta + cos theta * cos theta)) by ring.
    rewrite Hs, Hsc. nra.
  - repeat split; lra.
Qed.

Lemma createItem_in_cone_witness :
  (forall k, 0 <= half k < 1) /\
  - 35 <= Vector3.y (treePos (createItem half 0)) < 35.
Proof.
  assert (H : forall k, 0 <= half k < 1) by (intros k; unfold half; lra).
  split; [exact H |].
  exact (proj1 (createItem_in_cone half 0 H)).
Defined.

Lemma createMotes_length (random : nat -> R) (n i count : nat)
  (motes : list DustData) (pos : list Float32) :
  length (fst (createMotes random n i count motes pos)) =
    (length motes + count)%nat /\
  length (snd (createMotes random n i count motes pos)) = length pos.
Proof.
  revert n i motes pos.
  induction count as [| count IH]; intros n i motes pos.
  - cbn [createMotes fst snd]. split; [lia | reflexivity].
  - cbn [createMotes].
    match goal with
    | |- context [createMotes random ?a ?b count ?c ?d] =>
        destruct (IH a b c d) as (H1 & H2)
    end.
    rewrite H1, H2, length_app, !length_setAt. cbn [length]. split; [lia | reflexivity].
Qed.

Lemma initThree_dust (random : nat -> R) :
  length (dust (logicData (initThree random initialApp))) = dustCount CONFIG /\
  exists pos,
    dustSystem (initThree random initialApp) = Some pos /\
    length pos = (dustCount CONFIG * 3)%nat.
Proof.
  unfold initThree.
  change (mainGroup initialApp) with (@None Group). cbv iota.
  destruct (createJewels random 0 (logicData initialApp)
              (mkGroup (Euler.mk 0 0 0) [])) as [[ld group] n] eqn:E.
  assert (Hd : dust ld = []).
  { revert E. unfold createJewels.
    change (logicData initialApp) with (mkLogic [] [] [] [] [] None).
    change (0 <? length (gold (mkLogic [] [] [] [] [] None)))%nat with false.
    cbv iota.
    destruct (createInstancedMesh _ _ _ _ _) as [[g1 gr1] n1].
    destruct (createInstancedMesh _ _ _ _ _) as [[g2 gr2] n2].
    destruct (createInstancedMesh _ _ _ _ _) as [[g3 gr3] n3].
    destruct (createInstancedMesh _ _ _ _ _) as [[g4 gr4] n4].
    intros E. injection E as <- _ _. reflexivity. }
  rewrite Hd. change (0 <? length (@nil DustData))%nat with false. cbv iota.
  destruct (createMotes_length random n 0 (dustCount CONFIG) []
              (repeat (fround 0) (dustCount CONFIG * 3))) as (H1 & H2).
  destruct (createMotes random n 0 (dustCount CONFIG) []
              (repeat (fround 0) (dustCount CONFIG * 3))) as [motes pos].
  cbn [fst snd] in H1, H2. rewrite repeat_length in H2.
  split; [exact H1 |]. exists pos. split; [reflexivity | exact H2].
Qed.

(** X3: what mounting builds.  The four lists hold 500, 500, 350 and 350
    instances, each at its tree position; there are 1500 dust motes with a
    buffer of 4500 numbers; the star waits at (0, 38, 0) with scatter target
    (0, 60, 0); the group has the four instanced meshes, the star and the
    dust, in that order; the mode is [TREE], nothing is selected, there is no
    photo; a second call of [initThree] changes nothing. *)
Theorem mount_builds_scene (random random' : nat -> R) :
  (length (getData Gold (logicData (initThree random initialApp))) = 500 /\
   length (getData Silver (logicData (initThree random initialApp))) = 500 /\
   length (getData Gem (logicData (initThree random initialApp))) = 350 /\
   length (getData Emerald (logicData (initThree random initialApp))) = 350 /\
   length (dust (logicData (initThree random initialApp))) = 1500)%nat /\
  (forall c item,
      In item (getData c (logicData (initThree random initialApp))) ->
      currentPos item = treePos item) /\
  star (logicData (initThree random initialApp)) =
    Some (mkStar (Vector3.mk 0 38 0) 0 (Vector3.mk 0 38 0)
                 (Vector3.mk 0 60 0)) /\
  (exists mg ms mgm me pos,
      mainGroup (initThree random initialApp) =
        Some (mkGroup (Euler.mk 0 0 0)
                [InstancedMesh mg; InstancedMesh ms; InstancedMesh mgm;
                 InstancedMesh me; StarChild; PointsChild]) /\
      dustSystem (initThree random initialApp) = Some pos /\
      length pos = 4500%nat) /\
  stateRef (initThree random initialApp) = TREE /\
  zoomTargetIndex (initThree random initialApp) = (-1)%Z /\
  photoMeshes (initThree random initialApp) = [] /\
  initThree random' (initThree random initialApp) =
    initThree random initialApp.
Proof.
  destruct (initThree_scene random)
    as (mg & ms & mgm & me & motes & Eg & Eld & Hg & Hs & Hgm & He).
  destruct (initThree_dust random) as (Hd & pos & Ep & Hp).
  destruct (initThree_refs random initialApp) as (_ & Hm & Hi & Hph & _).
  pose proof (mounted_mainGroup random) as Hmg.
  revert Eg Eld Hd Ep Hm Hi Hph Hmg.
  generalize (initThree random initialApp). intros s Eg Eld Hd Ep Hm Hi Hph Hmg.
  split.
  { rewrite Eld in *. cbn [getData gold silver gem emerald].
    rewrite !length_map, !length_seq. repeat split; try reflexivity.
    exact Hd. }
  split.
  { intros c item Hin. rewrite Eld in Hin.
    destruct c; cbn [getData gold silver gem emerald] in Hin;
      apply in_map_iff in Hin; destruct Hin as (k & <- & _); reflexivity. }
  split.
  { rewrite Eld. cbn [star]. unfold CONFIG. cbn [treeHeight].
    replace (70 / 2 + 3) with 38 by lra. reflexivity. }
  split.
  { exists mg, ms, mgm, me, pos. repeat split; assumption. }
  split; [exact Hm |]. split; [exact Hi |]. split; [exact Hph |].
  unfold initThree. destruct (mainGroup s); [reflexivity | congruence].
Qed.

(** ** Further properties of the gesture callbacks *)

(** X4: a detector frame is idempotent on a component whose mode mirror is
    in sync: seeing the same result again changes nothing more.  Holding a
    pinch, in particular, selects one photo, not one photo per frame. *)
Theorem detectFrame_idempotent
  (result : option (list (list NormalizedLandmark))) (s : App) :
  currentState s = stateRef s ->
  detectFrame result (detectFrame result s) = detectFrame result s.
Proof.
  intros Hsync. unfold detectFrame, predictWebcam.
  destruct result as [[| marks others] |]; try reflexivity.
  unfold handleGesture.
  destruct (landmarkAt marks 9) as [p9 |]; [| reflexivity].
  destruct (isFist marks) as [fist |]; [| reflexivity].
  destruct (isPinch marks) as [pinch |]; [| reflexivity].
  destruct s as [cur ? ? ? ? ? ? ? photos mode ? ? ? ? ? ?].
  cbn [currentState stateRef] in Hsync. subst cur.
  destruct pinch, fist, mode, photos; cbn -[nextIndex]; reflexivity.
Qed.

Lemma detectFrame_idempotent_witness :
  detectFrame (Some [pinchHand]) (detectFrame (Some [pinchHand]) twoPhotos) =
    detectFrame (Some [pinchHand]) twoPhotos.
Proof.
  apply (detectFrame_idempotent (Some [pinchHand]) twoPhotos).
  exact (eq_sym (proj1 (proj2 (proj2
           (syncState_refs
              (finalState
                 (predictWebcam (Some [openHand])
                    (syncState
                       (addPhoto 4 3 half (addPhoto 3 4 half mounted)))))))))).
Defined.

(** X5: a hand of 10 to 12 landmarks.  The palm centre (landmark 9) is
    stored; the fist test stops at the index finger when it is not folded,
    and the frame is then classified as a pinch or an open hand without a
    fault; when the index finger is folded the test goes on to landmark 12,
    which does not exist, and the callback throws. *)
Theorem short_hand_by_index_finger (marks : list NormalizedLandmark)
  (s : App) :
  (10 <= length marks <= 12)%nat ->
  exists p9 folded pinch,
    landmarkAt marks 9 = Ok p9 /\
    isFingerFolded marks 8 = Ok folded /\
    isPinch marks = Ok pinch /\
    handleGesture marks s =
      if folded
      then TypeError (set_handPos (mkXY (lx p9) (ly p9)) s)
      else Normal (applyGesture pinch false
                     (set_handPos (mkXY (lx p9) (ly p9)) s)).
Proof.
  intros Hlen.
  destruct (landmarkAt_ok marks 9) as [p9 E9]; [lia |].
  destruct (isFingerFolded_ok marks 8) as [folded E8]; [lia |].
  destruct (isPinch_ok marks) as [pinch Ep]; [lia |].
  exists p9, folded, pinch.
  split; [exact E9 |]. split; [exact E8 |]. split; [exact Ep |].
  unfold handleGesture. rewrite E9.
  unfold isFist, andAlso. rewrite E8. cbn [bind].
  destruct folded.
  - assert (E12 : isFingerFolded marks 12 = Throw).
    { unfold isFingerFolded. rewrite (landmarkAt_short marks 12) by lia.
      reflexivity. }
    rewrite E12. reflexivity.
  - rewrite Ep. reflexivity.
Qed.

Lemma short_hand_by_index_finger_witness :
  exists p9 folded pinch,
    landmarkAt (firstn 12 openHand) 9 = Ok p9 /\
    isFingerFolded (firstn 12 openHand) 8 = Ok folded /\
    isPinch (firstn 12 openHand) = Ok pinch /\
    handleGesture (firstn 12 openHand) initialApp =
      if folded
      then TypeError (set_handPos (mkXY (lx p9) (ly p9)) initialApp)
      else Normal (applyGesture pinch false
                     (set_handPos (mkXY (lx p9) (ly p9)) initialApp)).
Proof.
  apply (short_hand_by_index_finger (firstn 12 openHand) initialApp).
  cbn [openHand handOf length firstn map seq]. lia.
Defined.

(** X6: the cursor on [len] photos.  Without photos it does not move; from
    "none" it goes to 0; from an index it goes to the next one and from the
    last one back to 0; it never goes back to "none"; [len] calls bring an
    index back to itself. *)
Theorem nextIndex_cycles (len : nat) (idx : Z) :
  nextIndex 0 idx = idx /\
  ((0 < len)%nat ->
     nextIndex len (-1) = 0%Z /\
     ((0 <= idx < Z.of_nat len)%Z ->
        nextIndex len idx = ((idx + 1) mod Z.of_nat len)%Z /\
        (0 <= nextIndex len idx < Z.of_nat len)%Z /\
        ((idx + 1 < Z.of_nat len)%Z -> nextIndex len idx = (idx + 1)%Z) /\
        (idx = (Z.of_nat len - 1)%Z -> nextIndex len idx = 0%Z) /\
        Nat.iter len (nextIndex len) idx = idx)).
Proof.
  split; [reflexivity |].
  intros Hlen.
  assert (Hne : (len =? 0)%nat = false) by (apply Nat.eqb_neq; lia).
  split; [unfold nextIndex; rewrite Hne; reflexivity |].
  intros Hidx.
  assert (Hstep : forall i, (0 <= i < Z.of_nat len)%Z ->
                    nextIndex len i = ((i + 1) mod Z.of_nat len)%Z).
  { intros i Hi. unfold nextIndex. rewrite Hne.
    destruct (i =? -1)%Z eqn:E; [apply Z.eqb_eq in E; lia |].
    apply Z.rem_mod_nonneg; lia. }
  split; [apply Hstep; exact Hidx |].
  split; [rewrite Hstep by exact Hidx; apply Z.mod_pos_bound; lia |].
  split; [intros Hlt; rewrite Hstep by exact Hidx; apply Z.mod_small; lia |].
  split.
  { intros ->. rewrite Hstep by lia.
    replace (Z.of_nat len - 1 + 1)%Z with (Z.of_nat len) by lia.
    apply Z_mod_same_full. }
  assert (Hk : forall k,
             Nat.iter k (nextIndex len) idx =
               ((idx + Z.of_nat k) mod Z.of_nat len)%Z).
  { induction k as [| k IH].
    - cbn [Nat.iter nat_rect]. rewrite Z.add_0_r. symmetry.
      apply Z.mod_small. exact Hidx.
    - change (Nat.iter (S k) (nextIndex len) idx)
        with (nextIndex len (Nat.iter k (nextIndex len) idx)).
      rewrite IH, Hstep by (apply Z.mod_pos_bound; lia).
      rewrite Zplus_mod_idemp_l. f_equal. lia. }
  rewrite Hk.
  rewrite <- (Z.mul_1_l (Z.of_nat len)) at 1.
  rewrite Z.mod_add by lia. apply Z.mod_small. exact Hidx.
Qed.

(** X7: a detector callback, whatever it receives and however it ends,
    leaves the scene and the photos alone: the instances, dust and star, the
    group and its rotation, the camera, the photo list and its count, the
    angular velocity and the clock. *)
Theorem detector_keeps_scene
  (result : option (list (list NormalizedLandmark))) (s : App) :
  let s' := finalState (predictWebcam result s) in
  logicData s' = logicData s /\
  mainGroup s' = mainGroup s /\
  camera s' = camera s /\
  dustSystem s' = dustSystem s /\
  photoMeshes s' = photoMeshes s /\
  photoCount s' = photoCount s /\
  rotVelocity s' = rotVelocity s /\
  time s' = time s.
Proof.
  unfold predictWebcam.
  destruct result as [[| marks others] |]; try (cbn; repeat split; fail).
  unfold handleGesture.
  destruct (landmarkAt marks 9) as [p9 |]; [| cbn; repeat split].
  destruct (isFist marks) as [fist |]; [| cbn; repeat split].
  destruct (isPinch marks) as [pinch |]; [| cbn; repeat split].
  destruct s as [cur ? ? ? ? ? ? ? photos mode ? ? ? ? ? ?].
  destruct pinch, fist, mode, photos; cbn -[nextIndex]; repeat split.
Qed.

(** ** Further properties of the frame loop *)

(** [updateMeshGroup] writes instance data and matrices only. *)
Lemma updateMeshGroup_keeps (m : AppState) (t : R) (meshIndex : nat)
  (c : Category) (st : LogicData * Group) :
  rotation (snd (updateMeshGroup m t meshIndex c st)) = rotation (snd st) /\
  length (children (snd (updateMeshGroup m t meshIndex c st))) =
    length (children (snd st)) /\
  dust (fst (updateMeshGroup m t meshIndex c st)) = dust (fst st) /\
  star (fst (updateMeshGroup m t meshIndex c st)) = star (fst st).
Proof.
  destruct st as [ld g]. unfold updateMeshGroup.
  destruct (nth_error (children g) meshIndex) as [[ms | | |] |];
    try (repeat split; fail).
  destruct (updateItems m t 0 (getData c ld) ms) as [data' ms'].
  cbn [fst snd rotation children]. rewrite length_setAt.
  destruct c; repeat split.
Qed.

Lemma updateDust_data (m : AppState) (t : R) (i : nat)
  (motes : list DustData) (positions : list Float32) :
  fst (updateDust m t i motes positions) = mapi (updateDustMote m t) i motes.
Proof.
  revert i positions. induction motes as [| p rest IH]; intros i positions.
  - reflexivity.
  - cbn [updateDust mapi].
    match goal with
    | |- context [updateDust m t (S i) rest ?ps] =>
        specialize (IH (S i) ps); destruct (updateDust m t (S i) rest ps)
    end.
    cbn [fst] in *. now rewrite IH.
Qed.

Lemma rotateGroup_photoCount (s : App) (g : Group) :
  photoCount (fst (rotateGroup s g)) = photoCount s.
Proof.
  unfold rotateGroup. destruct (stateRef s); try reflexivity.
  destruct (isHandPresent s); reflexivity.
Qed.

Section MoreFrames.

Variable applyQuaternion : R * R * R * R -> Vector3.t -> Vector3.t.
Variable worldToLocal : Group -> Vector3.t -> Vector3.t.

Local Abbreviation frame := (animate applyQuaternion worldToLocal).
Local Abbreviation run := (frames applyQuaternion worldToLocal).
Local Abbreviation photoStep := (updatePhoto applyQuaternion worldToLocal).

(** What a frame makes of the group, the photos, the star, the dust and the
    clock. *)
Lemma animate_parts (s : App) (g : Group) :
  mainGroup s = Some g ->
  exists g2,
    mainGroup (frame s) = Some g2 /\
    rotation g2 = rotation (snd (rotateGroup (set_time (time s + 0.01) s) g)) /\
    length (children g2) = length (children g) /\
    photoMeshes (frame s) =
      mapi (photoStep (stateRef s) (zoomTargetIndex s) (camera s) g2) 0
           (photoMeshes s) /\
    star (logicData (frame s)) =
      option_map (updateStar (stateRef s)) (star (logicData s)) /\
    dust (logicData (frame s)) =
      match dustSystem s with
      | Some _ =>
          mapi (updateDustMote (stateRef s) (time s + 0.01)) 0
               (dust (logicData s))
      | None => dust (logicData s)
      end /\
    time (frame s) = time s + 0.01 /\
    camera (frame s) = camera s /\
    photoCount (frame s) = photoCount s /\
    (dustSystem s = None <-> dustSystem (frame s) = None).
Proof.
  intros Eg. unfold animate. rewrite Eg.
  pose proof (rotateGroup_refs (set_time (time s + 0.01) s) g) as H.
  pose proof (rotateGroup_photoCount (set_time (time s + 0.01) s) g) as Hpc.
  destruct (rotateGroup (set_time (time s + 0.01) s) g) as [s1 g1].
  cbn [fst snd] in *.
  change (photoCount (set_time (time s + 0.01) s)) with (photoCount s) in Hpc.
  destruct H as (H1 & H2 & H3 & H4 & H5 & H6 & H7 & _ & _ & H10 & H11).
  change (stateRef (set_time (time s + 0.01) s)) with (stateRef s) in *.
  change (time (set_time (time s + 0.01) s)) with (time s + 0.01) in *.
  change (zoomTargetIndex (set_time (time s + 0.01) s))
    with (zoomTargetIndex s) in H3.
  change (photoMeshes (set_time (time s + 0.01) s)) with (photoMeshes s) in H4.
  change (logicData (set_time (time s + 0.01) s)) with (logicData s) in H5.
  change (dustSystem (set_time (time s + 0.01) s)) with (dustSystem s) in H6.
  change (camera (set_time (time s + 0.01) s)) with (camera s) in H7.
  change (children (mkGroup _ _)) with (children g) in H11 || idtac.
  set (m := stateRef s) in *. set (t := time s + 0.01) in *.
  pose proof (updateMeshGroup_keeps m t 0 Gold (logicData s1, g1)) as K0.
  set (st0 := updateMeshGroup m t 0 Gold (logicData s1, g1)) in *.
  pose proof (updateMeshGroup_keeps m t 1 Silver st0) as K1.
  set (st1 := updateMeshGroup m t 1 Silver st0) in *.
  pose proof (updateMeshGroup_keeps m t 2 Gem st1) as K2.
  set (st2 := updateMeshGroup m t 2 Gem st1) in *.
  pose proof (updateMeshGroup_keeps m t 3 Emerald st2) as K3.
  set (st3 := updateMeshGroup m t 3 Emerald st2) in *.
  destruct K0 as (A0 & B0 & C0 & D0). destruct K1 as (A1 & B1 & C1 & D1).
  destruct K2 as (A2 & B2 & C2 & D2). destruct K3 as (A3 & B3 & C3 & D3).
  cbn [fst snd] in A0, B0, C0, D0.
  destruct st3 as [ld g2]. cbn [fst snd] in *.
  assert (Hrot : rotation g2 = rotation g1) by congruence.
  assert (Hlen : length (children g2) = length (children g)) by congruence.
  assert (Hdust : dust ld = dust (logicData s)) by congruence.
  assert (Hstar : star ld = star (logicData s)) by congruence.
  exists g2.
  destruct (dustSystem s1) as [positions |] eqn:Ed.
  - pose proof (updateDust_data m t 0 (dust ld) positions) as Hu.
    destruct (updateDust m t 0 (dust ld) positions) as [motes positions'].
    cbn [fst] in Hu.
    rewrite <- H6.
    cbn -[mapi]. rewrite Hu, Hdust, Hstar, H3, H4, H7.
    repeat split; try assumption; try reflexivity; try discriminate.
  - rewrite <- H6.
    cbn -[mapi]. rewrite Hdust, Hstar, H3, H4, H7.
    repeat split; try assumption; try reflexivity; try congruence.
Qed.


Lemma run_refs (s : App) (n : nat) :
  stateRef (run n s) = stateRef s /\
  zoomTargetIndex (run n s) = zoomTargetIndex s /\
  length (photoMeshes (run n s)) = length (photoMeshes s) /\
  (mainGroup s <> None -> mainGroup (run n s) <> None).
Proof.
  induction n as [| n (H1 & H2 & H3 & H4)]; [repeat split; auto |].
  change (run (S n) s) with (frame (run n s)).
  destruct (animate_refs applyQuaternion worldToLocal (run n s))
    as (_ & A1 & A2 & A3 & _).
  repeat split; try congruence.
  intros Hg. specialize (H4 Hg).
  destruct (mainGroup (run n s)) as [g |] eqn:Eg; [| congruence].
  now destruct (animate_momentum applyQuaternion worldToLocal (run n s) g Eg)
    as (_ & _ & H).
Qed.

(** X8: the rotation of the group.  In [TREE] each frame multiplies the tilt
    by 0.95 and adds 0.002 to the yaw: after [n] frames the tilt is
    [0.95 ^ n] times what it was and the yaw has advanced by [0.002 n].  In
    [ZOOM] the rotation is frozen.  In [SCATTER] a frame advances tilt and
    yaw by the angular velocity as it was before damping. *)
Theorem group_rotation (s : App) (g : Group) (n : nat) :
  mainGroup s = Some g ->
  (stateRef s = TREE ->
     exists g', mainGroup (run n s) = Some g' /\
       Euler.x (rotation g') = 0.95 ^ n * Euler.x (rotation g) /\
       Euler.y (rotation g') = Euler.y (rotation g) + 0.002 * INR n /\
       Euler.z (rotation g') = Euler.z (rotation g)) /\
  (stateRef s = ZOOM ->
     exists g', mainGroup (run n s) = Some g' /\ rotation g' = rotation g) /\
  (stateRef s = SCATTER ->
     exists g', mainGroup (frame s) = Some g' /\
       0.95 * (Euler.x (rotation g') - Euler.x (rotation g)) =
         x (rotVelocity (frame s)) /\
       0.95 * (Euler.y (rotation g') - Euler.y (rotation g)) =
         y (rotVelocity (frame s)) /\
       Euler.z (rotation g') = Euler.z (rotation g)).
Proof.
  intros Eg. split; [| split].
  - intros Hm. induction n as [| n (g' & Eg' & Hx & Hy & Hz)].
    + exists g. cbn [frames pow INR]. repeat split; [exact Eg | ring | ring].
    + change (run (S n) s) with (frame (run n s)).
      destruct (animate_parts (run n s) g' Eg') as (g2 & E2 & Hr & _).
      exists g2. split; [exact E2 |].
      rewrite Hr. unfold rotateGroup.
      change (stateRef (set_time (time (run n s) + 0.01) (run n s)))
        with (stateRef (run n s)).
      rewrite (proj1 (run_refs s n)), Hm.
      cbn [snd rotation Euler.x Euler.y Euler.z].
      rewrite Hx, Hy, Hz, S_INR. cbn [pow].
      repeat split; ring.
  - intros Hm. induction n as [| n (g' & Eg' & Hr')].
    + exists g. split; [exact Eg | reflexivity].
    + change (run (S n) s) with (frame (run n s)).
      destruct (animate_parts (run n s) g' Eg') as (g2 & E2 & Hr & _).
      exists g2. split; [exact E2 |].
      rewrite Hr. unfold rotateGroup.
      change (stateRef (set_time (time (run n s) + 0.01) (run n s)))
        with (stateRef (run n s)).
      rewrite (proj1 (run_refs s n)), Hm. exact Hr'.
  - intros Hm.
    destruct (animate_parts s g Eg) as (g2 & E2 & Hr & _).
    destruct (animate_momentum applyQuaternion worldToLocal s g Eg)
      as (Hv & _ & _).
    exists g2. split; [exact E2 |].
    rewrite Hr, Hv. unfold rotateGroup.
    change (stateRef (set_time (time s + 0.01) s)) with (stateRef s).
    rewrite Hm.
    cbn [fst snd rotation rotVelocity set_rotVelocity x y
         Euler.x Euler.y Euler.z].
    repeat split; ring.
Qed.

Lemma run_star (s : App) (g : Group) (st : Star) (n : nat) :
  mainGroup s = Some g ->
  star (logicData s) = Some st ->
  exists st',
    star (logicData (run n s)) = Some st' /\
    starTreePos st' = starTreePos st /\
    starScatterPos st' = starScatterPos st /\
    starRotY st' = starRotY st + 0.02 * INR n /\
    let target :=
      match stateRef s with
      | TREE => starTreePos st
      | _ => starScatterPos st
      end in
    Vector3.x target - Vector3.x (starPos st') =
      0.95 ^ n * (Vector3.x target - Vector3.x (starPos st)) /\
    Vector3.y target - Vector3.y (starPos st') =
      0.95 ^ n * (Vector3.y target - Vector3.y (starPos st)) /\
    Vector3.z target - Vector3.z (starPos st') =
      0.95 ^ n * (Vector3.z target - Vector3.z (starPos st)).
Proof.
  intros Eg Es.
  induction n as [| n (st' & E' & Ht & Hs & Hr & Hx & Hy & Hz)].
  - exists st. cbn [frames pow INR]. repeat split; try exact Es; ring.
  - change (run (S n) s) with (frame (run n s)).
    destruct (run_refs s n) as (Hm & _ & _ & Hg).
    destruct (mainGroup (run n s)) as [g' |] eqn:Eg';
      [| exfalso; apply Hg; congruence].
    destruct (animate_parts (run n s) g' Eg') as (g2 & _ & _ & _ & _ & E2 & _).
    rewrite E', Hm in E2. cbn [option_map] in E2.
    exists (updateStar (stateRef s) st'). split; [exact E2 |].
    unfold updateStar. cbn [starTreePos starScatterPos starRotY starPos].
    rewrite Ht, Hs, Hr, S_INR.
    repeat split; try ring; cbv zeta in Hx, Hy, Hz |- *;
      destruct (stateRef s); cbn [Vector3.lerp Vector3.x Vector3.y Vector3.z pow];
      lra.
Qed.

(** X9: the star.  Whatever the mode, [n] frames turn the star by [0.02 n]
    and leave it at [0.95 ^ n] times its former distance from the place the
    mode assigns to it: its place on the tree in [TREE], its scattered place
    in [SCATTER] and in [ZOOM].  The two places themselves are never
    changed. *)
Theorem star_approaches (s : App) (g : Group) (st : Star) (n : nat) :
  mainGroup s = Some g ->
  star (logicData s) = Some st ->
  exists st',
    star (logicData (run n s)) = Some st' /\
    starTreePos st' = starTreePos st /\
    starScatterPos st' = starScatterPos st /\
    starRotY st' = starRotY st + 0.02 * INR n /\
    let target :=
      match stateRef s with
      | TREE => starTreePos st
      | _ => starScatterPos st
      end in
    Vector3.distanceTo (starPos st') target =
      0.95 ^ n * Vector3.distanceTo (starPos st) target.
Proof.
  intros Eg Es.
  destruct (run_star s g st n Eg Es)
    as (st' & E' & Ht & Hs & Hr & Hx & Hy & Hz).
  exists st'. repeat split; try assumption.
  cbv zeta. apply distanceTo_scaled; try assumption.
  apply Rlt_le, pow_lt. lra.
Qed.

Lemma run_camera (s : App) (n : nat) : camera (run n s) = camera s.
Proof.
  induction n as [| n IH]; [reflexivity |].
  change (run (S n) s) with (frame (run n s)).
  destruct (mainGroup (run n s)) as [g |] eqn:Eg.
  - destruct (animate_parts (run n s) g Eg) as (_ & _ & _ & _ & _ & _ & _ & _ & H & _).
    congruence.
  - unfold animate. now rewrite Eg.
Qed.

Lemma frame_photo (s : App) (g : Group) (i : nat) (m : PhotoMesh) :
  mainGroup s = Some g ->
  nth_error (photoMeshes s) i = Some m ->
  exists g2,
    nth_error (photoMeshes (frame s)) i =
      Some (photoStep (stateRef s) (zoomTargetIndex s) (camera s) g2 i m).
Proof.
  intros Eg Em.
  destruct (animate_parts s g Eg) as (g2 & _ & _ & _ & Hp & _).
  exists g2. rewrite Hp, nth_error_mapi, Em. reflexivity.
Qed.

Lemma not_zoomed (m : AppState) (i : nat) (z : Z) :
  (m = ZOOM -> Z.of_nat i <> z) ->
  AppState_eqb m ZOOM && (Z.of_nat i =? z)%Z = false.
Proof.
  intros H. destruct m; try reflexivity.
  cbn [AppState_eqb andb]. apply Z.eqb_neq. now apply H.
Qed.

(** The place and the size a mode assigns to a photo that is not zoomed. *)
Local Abbreviation restPlace mode m :=
  (match
     match mode with
     | TREE => p_treePos (userData m)
     | _ => p_scatterPos (userData m)
     end
   with
   | Some v => v
   | None => Vector3.zero
   end).
Local Abbreviation restSize mode :=
  (if AppState_eqb mode TREE then 1 else 2).

Lemma run_photo (s : App) (g : Group) (i : nat) (m : PhotoMesh) (n : nat) :
  mainGroup s = Some g ->
  nth_error (photoMeshes s) i = Some m ->
  (stateRef s = ZOOM -> Z.of_nat i <> zoomTargetIndex s) ->
  exists m',
    nth_error (photoMeshes (run n s)) i = Some m' /\
    userData m' = userData m /\
    planeWidth m' = planeWidth m /\ planeHeight m' = planeHeight m /\
    (Vector3.x (restPlace (stateRef s) m) - Vector3.x (position m') =
       0.9 ^ n * (Vector3.x (restPlace (stateRef s) m) - Vector3.x (position m)) /\
     Vector3.y (restPlace (stateRef s) m) - Vector3.y (position m') =
       0.9 ^ n * (Vector3.y (restPlace (stateRef s) m) - Vector3.y (position m)) /\
     Vector3.z (restPlace (stateRef s) m) - Vector3.z (position m') =
       0.9 ^ n * (Vector3.z (restPlace (stateRef s) m) - Vector3.z (position m))) /\
    (restSize (stateRef s) - Vector3.x (meshScale m') =
       0.9 ^ n * (restSize (stateRef s) - Vector3.x (meshScale m)) /\
     restSize (stateRef s) - Vector3.y (meshScale m') =
       0.9 ^ n * (restSize (stateRef s) - Vector3.y (meshScale m)) /\
     restSize (stateRef s) - Vector3.z (meshScale m') =
       0.9 ^ n * (restSize (stateRef s) - Vector3.z (meshScale m))) /\
    ((0 < n)%nat ->
     orientation m' =
       match stateRef s, camera s with
       | TREE, _ =>
           Rotation (Euler.mk (Euler.x (baseRot (userData m)))
                              (Euler.y (baseRot (userData m)) + 0.01)
                              (Euler.z (baseRot (userData m))))
       | _, Some c => LookAt (camPosition c)
       | _, None => orientation m
       end) /\
    (camera s = None -> stateRef s <> TREE -> orientation m' = orientation m).
Proof.
  intros Eg Em Hz.
  induction n as [| n (m' & E' & Hu & Hw & Hh & (Px & Py & Pz) & (Sx & Sy & Sz) & Ho & Hk)].
  - exists m. cbn [frames pow].
    repeat split; try exact Em; try ring; intros; try lia; reflexivity.
  - change (run (S n) s) with (frame (run n s)).
    destruct (run_refs s n) as (Hm & Hzi & _ & Hg).
    destruct (mainGroup (run n s)) as [g' |] eqn:Eg';
      [| exfalso; apply Hg; congruence].
    destruct (frame_photo (run n s) g' i m' Eg' E') as (g2 & E2).
    rewrite Hm, Hzi, run_camera in E2.
    eexists. split; [exact E2 |].
    unfold updatePhoto. rewrite (not_zoomed _ _ _ Hz), Hu.
    cbn [userData planeWidth planeHeight position meshScale orientation].
    split; [reflexivity |]. split; [exact Hw |]. split; [exact Hh |].
    split; [| split; [| split]].
    + cbn [Vector3.lerp Vector3.x Vector3.y Vector3.z pow].
      repeat split; lra.
    + cbn [Vector3.lerp Vector3.x Vector3.y Vector3.z pow].
      repeat split; lra.
    + intros _. destruct (stateRef s); cbn [AppState_eqb negb orb];
        try reflexivity;
        destruct (camera s) as [c |] eqn:Ec; try reflexivity;
        apply Hk; congruence.
    + intros Ec Hn. rewrite Ec.
      destruct (stateRef s); cbn [AppState_eqb negb orb];
        [congruence | apply Hk; congruence | apply Hk; congruence].
Qed.

(** X10: a photo that is not the zoomed one.  After [n] frames it is at
    [0.9 ^ n] times its former distance from the place of the mode (its
    place on the tree in [TREE], its scattered place otherwise, the origin
    where the mesh carries no such place), and its scale is as much closer
    to 1 in [TREE] and to 2 otherwise.  From the first frame on its
    orientation in [TREE] is the base rotation with 0.01 added to the yaw:
    the addition does not accumulate, so the photo does not spin.  Outside
    [TREE] it faces the camera, and keeps its orientation when there is no
    camera. *)
Theorem photo_approaches (s : App) (g : Group) (i : nat) (m : PhotoMesh)
  (n : nat) :
  mainGroup s = Some g ->
  nth_error (photoMeshes s) i = Some m ->
  (stateRef s = ZOOM -> Z.of_nat i <> zoomTargetIndex s) ->
  exists m',
    nth_error (photoMeshes (run n s)) i = Some m' /\
    userData m' = userData m /\
    Vector3.distanceTo (position m') (restPlace (stateRef s) m) =
      0.9 ^ n * Vector3.distanceTo (position m) (restPlace (stateRef s) m) /\
    Vector3.distanceTo (meshScale m')
        (Vector3.mk (restSize (stateRef s)) (restSize (stateRef s))
                    (restSize (stateRef s))) =
      0.9 ^ n *
      Vector3.distanceTo (meshScale m)
        (Vector3.mk (restSize (stateRef s)) (restSize (stateRef s))
                    (restSize (stateRef s))) /\
    ((0 < n)%nat ->
     orientation m' =
       match stateRef s, camera s with
       | TREE, _ =>
           Rotation (Euler.mk (Euler.x (baseRot (userData m)))
                              (Euler.y (baseRot (userData m)) + 0.01)
                              (Euler.z (baseRot (userData m))))
       | _, Some c => LookAt (camPosition c)
       | _, None => orientation m
       end).
Proof.
  intros Eg Em Hz.
  destruct (run_photo s g i m n Eg Em Hz)
    as (m' & E' & Hu & _ & _ & (Px & Py & Pz) & (Sx & Sy & Sz) & Ho & _).
  assert (Hk : 0 <= 0.9 ^ n) by (apply Rlt_le, pow_lt; lra).
  exists m'. repeat split; try assumption.
  - now apply distanceTo_scaled.
  - now apply distanceTo_scaled.
Qed.

Lemma is_zoomed (m : AppState) (i : nat) (z : Z) :
  m = ZOOM -> Z.of_nat i = z ->
  AppState_eqb m ZOOM && (Z.of_nat i =? z)%Z = true.
Proof. intros -> ->. cbn [AppState_eqb andb]. apply Z.eqb_refl. Qed.

(** The size of the zoomed photo: 5 in front of the camera, 1 when there is
    no camera to bring it to. *)
Local Abbreviation scatterPlace m :=
  (match p_scatterPos (userData m) with
   | Some v => v
   | None => Vector3.zero
   end).
Local Abbreviation zoomSize cam :=
  (match cam with Some _ => 5 | None => 1 end).

Lemma run_zoomed (s : App) (g : Group) (i : nat) (m : PhotoMesh) (n : nat) :
  mainGroup s = Some g ->
  nth_error (photoMeshes s) i = Some m ->
  stateRef s = ZOOM ->
  Z.of_nat i = zoomTargetIndex s ->
  exists m',
    nth_error (photoMeshes (run n s)) i = Some m' /\
    userData m' = userData m /\
    (zoomSize (camera s) - Vector3.x (meshScale m') =
       0.9 ^ n * (zoomSize (camera s) - Vector3.x (meshScale m)) /\
     zoomSize (camera s) - Vector3.y (meshScale m') =
       0.9 ^ n * (zoomSize (camera s) - Vector3.y (meshScale m)) /\
     zoomSize (camera s) - Vector3.z (meshScale m') =
       0.9 ^ n * (zoomSize (camera s) - Vector3.z (meshScale m))) /\
    (forall c, camera s = Some c -> (0 < n)%nat ->
               orientation m' = LookAt (camPosition c)) /\
    (camera s = None ->
     orientation m' = orientation m /\
     Vector3.x (scatterPlace m) - Vector3.x (position m') =
       0.9 ^ n * (Vector3.x (scatterPlace m) - Vector3.x (position m)) /\
     Vector3.y (scatterPlace m) - Vector3.y (position m') =
       0.9 ^ n * (Vector3.y (scatterPlace m) - Vector3.y (position m)) /\
     Vector3.z (scatterPlace m) - Vector3.z (position m') =
       0.9 ^ n * (Vector3.z (scatterPlace m) - Vector3.z (position m))).
Proof.
  intros Eg Em Hm Hz.
  induction n as [| n (m' & E' & Hu & (Sx & Sy & Sz) & Hc & Hn)].
  - exists m. cbn [frames pow].
    repeat split; try exact Em; try ring; intros; try lia; reflexivity.
  - change (run (S n) s) with (frame (run n s)).
    destruct (run_refs s n) as (Hm' & Hzi & _ & Hg).
    destruct (mainGroup (run n s)) as [g' |] eqn:Eg';
      [| exfalso; apply Hg; congruence].
    destruct (frame_photo (run n s) g' i m' Eg' E') as (g2 & E2).
    rewrite Hm', Hzi, run_camera in E2.
    eexists. split; [exact E2 |].
    unfold updatePhoto. rewrite (is_zoomed _ _ _ Hm Hz), Hu.
    destruct (camera s) as [c |] eqn:Ec;
      cbn [userData planeWidth planeHeight position meshScale orientation
           orb Vector3.lerp Vector3.x Vector3.y Vector3.z pow].
    + split; [reflexivity |]. split; [repeat split; lra |].
      split; [| discriminate].
      intros c' [= <-] _. reflexivity.
    + rewrite Hm. cbn [AppState_eqb negb].
      destruct (Hn eq_refl) as (Ho & Px & Py & Pz).
      split; [reflexivity |]. split; [repeat split; lra |].
      split; [discriminate |].
      intros _. split; [exact Ho |]. repeat split; lra.
Qed.

(** X11: the zoomed photo.  In [ZOOM] the photo under the cursor grows
    toward five times its size, 10 % of the gap per frame, and faces the
    camera from the first frame on.  Without a camera it is not brought
    forward: it shrinks toward its plain size 1 (not the 2 of the other
    photos), keeps its orientation and goes to its scattered place. *)
Theorem zoomed_photo_grows (s : App) (g : Group) (i : nat) (m : PhotoMesh)
  (n : nat) :
  mainGroup s = Some g ->
  nth_error (photoMeshes s) i = Some m ->
  stateRef s = ZOOM ->
  Z.of_nat i = zoomTargetIndex s ->
  exists m',
    nth_error (photoMeshes (run n s)) i = Some m' /\
    userData m' = userData m /\
    (forall c, camera s = Some c ->
       Vector3.distanceTo (meshScale m') (Vector3.mk 5 5 5) =
         0.9 ^ n * Vector3.distanceTo (meshScale m) (Vector3.mk 5 5 5) /\
       ((0 < n)%nat -> orientation m' = LookAt (camPosition c))) /\
    (camera s = None ->
       Vector3.distanceTo (meshScale m') (Vector3.mk 1 1 1) =
         0.9 ^ n * Vector3.distanceTo (meshScale m) (Vector3.mk 1 1 1) /\
       Vector3.distanceTo (position m') (scatterPlace m) =
         0.9 ^ n * Vector3.distanceTo (position m) (scatterPlace m) /\
       orientation m' = orientation m).
Proof.
  intros Eg Em Hm Hz.
  destruct (run_zoomed s g i m n Eg Em Hm Hz)
    as (m' & E' & Hu & (Sx & Sy & Sz) & Hc & Hn).
  assert (Hk : 0 <= 0.9 ^ n) by (apply Rlt_le, pow_lt; lra).
  exists m'. split; [exact E' |]. split; [exact Hu |]. split.
  - intros c Ec. rewrite Ec in Sx, Sy, Sz. split.
    + now apply distanceTo_scaled.
    + intros Hpos. now apply (Hc c).
  - intros Ec. rewrite Ec in Sx, Sy, Sz.
    destruct (Hn Ec) as (Ho & Px & Py & Pz).
    split; [now apply distanceTo_scaled |].
    split; [now apply distanceTo_scaled | exact Ho].
Qed.

(** *** Every object that is pulled to a place *)

Lemma pow_095_150 : 0.95 ^ 150 < 0.001.
Proof.
  assert (H2 : 0.95 ^ 2 = 0.9025) by (simpl; lra).
  assert (H4 : 0.95 ^ 4 < 0.8146).
  { replace 4%nat with (2 + 2)%nat by reflexivity. rewrite pow_add, H2. lra. }
  assert (H4p : 0 < 0.95 ^ 4) by (apply pow_lt; lra).
  assert (H8 : 0.95 ^ 8 < 0.6636).
  { replace 8%nat with (4 + 4)%nat by reflexivity. rewrite pow_add. nra. }
  assert (H8p : 0 < 0.95 ^ 8) by (apply pow_lt; lra).
  assert (H16 : 0.95 ^ 16 < 0.4404).
  { replace 16%nat with (8 + 8)%nat by reflexivity. rewrite pow_add. nra. }
  assert (H16p : 0 < 0.95 ^ 16) by (apply pow_lt; lra).
  assert (H32 : 0.95 ^ 32 < 0.194).
  { replace 32%nat with (16 + 16)%nat by reflexivity. rewrite pow_add. nra. }
  assert (H32p : 0 < 0.95 ^ 32) by (apply pow_lt; lra).
  assert (H64 : 0.95 ^ 64 < 0.03764).
  { replace 64%nat with (32 + 32)%nat by reflexivity. rewrite pow_add. nra. }
  assert (H64p : 0 < 0.95 ^ 64) by (apply pow_lt; lra).
  assert (H128 : 0.95 ^ 128 < 0.001417).
  { replace 128%nat with (64 + 64)%nat by reflexivity. rewrite pow_add. nra. }
  assert (H128p : 0 < 0.95 ^ 128) by (apply pow_lt; lra).
  assert (H6p : 0 < 0.95 ^ 6) by (apply pow_lt; lra).
  assert (H6 : 0.95 ^ 6 < 1) by (apply pow_lt_1_compat; [lra | lia]).
  assert (H22 : 0.95 ^ 22 < 0.4404).
  { replace 22%nat with (16 + 6)%nat by reflexivity. rewrite pow_add. nra. }
  assert (H22p : 0 < 0.95 ^ 22) by (apply pow_lt; lra).
  replace 150%nat with (128 + 22)%nat by reflexivity. rewrite pow_add. nra.
Qed.

(** A factor of at most 0.95 leaves less than a thousandth after 150 steps. *)
Lemma pow_small (k : R) (n : nat) :
  0 < k <= 0.95 -> (150 <= n)%nat -> k ^ n < 0.001.
Proof.
  intros Hk Hn.
  assert (H1 : k ^ n <= 0.95 ^ n) by (apply pow_incr; lra).
  assert (H2 : 0.95 ^ n <= 0.95 ^ 150).
  { clear H1. induction Hn as [| n _ IH]; [lra |].
    destruct (pow_095_bounds n). lra. }
  pose proof pow_095_150. lra.
Qed.

(** What the statements say of a position [pn] after [n] steps and [pnext]
    after one more, starting at [p0], for a place [T] and a factor [k]: the
    distance is [k ^ n] times the initial one; a step multiplies it by [k],
    so that it decreases strictly unless it is zero; from step 150 on it is
    at most, and unless zero below, a thousandth of the initial distance; on
    each axis the gap keeps its sign: the position never passes [T]. *)
Local Abbreviation approaches k T p0 pn pnext n :=
  (Vector3.distanceTo pn T = k ^ n * Vector3.distanceTo p0 T /\
   Vector3.distanceTo pnext T = k * Vector3.distanceTo pn T /\
   (0 < Vector3.distanceTo p0 T ->
    Vector3.distanceTo pnext T < Vector3.distanceTo pn T) /\
   ((150 <= n)%nat ->
    Vector3.distanceTo pn T <= 0.001 * Vector3.distanceTo p0 T) /\
   ((150 <= n)%nat -> 0 < Vector3.distanceTo p0 T ->
    Vector3.distanceTo pn T < 0.001 * Vector3.distanceTo p0 T) /\
   0 < k ^ n /\
   Vector3.x T - Vector3.x pn = k ^ n * (Vector3.x T - Vector3.x p0) /\
   Vector3.y T - Vector3.y pn = k ^ n * (Vector3.y T - Vector3.y p0) /\
   Vector3.z T - Vector3.z pn = k ^ n * (Vector3.z T - Vector3.z p0)).

Lemma approach_facts (k : R) (T p0 pn pnext : Vector3.t) (n : nat) :
  0 < k <= 0.95 ->
  Vector3.x T - Vector3.x pn = k ^ n * (Vector3.x T - Vector3.x p0) ->
  Vector3.y T - Vector3.y pn = k ^ n * (Vector3.y T - Vector3.y p0) ->
  Vector3.z T - Vector3.z pn = k ^ n * (Vector3.z T - Vector3.z p0) ->
  Vector3.x T - Vector3.x pnext = k ^ S n * (Vector3.x T - Vector3.x p0) ->
  Vector3.y T - Vector3.y pnext = k ^ S n * (Vector3.y T - Vector3.y p0) ->
  Vector3.z T - Vector3.z pnext = k ^ S n * (Vector3.z T - Vector3.z p0) ->
  approaches k T p0 pn pnext n.
Proof.
  intros Hk Gx Gy Gz Sx Sy Sz.
  assert (Hp : 0 < k ^ n) by (apply pow_lt; lra).
  assert (Hps : 0 < k ^ S n) by (apply pow_lt; lra).
  pose proof (distanceTo_nonneg p0 T) as Hd0.
  assert (Hdn : Vector3.distanceTo pn T = k ^ n * Vector3.distanceTo p0 T)
    by (apply distanceTo_scaled; [lra | assumption ..]).
  assert (Hds : Vector3.distanceTo pnext T =
                k ^ S n * Vector3.distanceTo p0 T)
    by (apply distanceTo_scaled; [lra | assumption ..]).
  assert (H150 : (150 <= n)%nat -> k ^ n < 0.001)
    by (intros Hn; now apply pow_small).
  split; [exact Hdn |].
  split; [rewrite Hds, Hdn; cbn [pow]; ring |].
  split.
  { intros Hpos. rewrite Hds, Hdn. cbn [pow].
    assert (HP : 0 < k ^ n * Vector3.distanceTo p0 T)
      by (apply Rmult_lt_0_compat; assumption).
    assert (Hle : k * (k ^ n * Vector3.distanceTo p0 T) <=
                  0.95 * (k ^ n * Vector3.distanceTo p0 T))
      by (apply Rmult_le_compat_r; lra).
    lra. }
  split.
  { intros Hn. rewrite Hdn. specialize (H150 Hn).
    apply Rmult_le_compat_r; lra. }
  split.
  { intros Hn Hpos. rewrite Hdn. specialize (H150 Hn).
    apply Rmult_lt_compat_r; assumption. }
  split; [exact Hp |].
  split; [exact Gx |]. split; [exact Gy | exact Gz].
Qed.

(** In [ZOOM] the group keeps its rotation. *)
Lemma run_group_ZOOM (s : App) (g : Group) (n : nat) :
  mainGroup s = Some g ->
  stateRef s = ZOOM ->
  exists g', mainGroup (run n s) = Some g' /\ rotation g' = rotation g.
Proof.
  intros Eg Hm. induction n as [| n (g' & Eg' & Hr')].
  - exists g. split; [exact Eg | reflexivity].
  - change (run (S n) s) with (frame (run n s)).
    destruct (animate_parts (run n s) g' Eg') as (g2 & E2 & Hr & _).
    exists g2. split; [exact E2 |].
    rewrite Hr. unfold rotateGroup.
    change (stateRef (set_time (time (run n s) + 0.01) (run n s)))
      with (stateRef (run n s)).
    rewrite (proj1 (run_refs s n)), Hm. exact Hr'.
Qed.

(** The place in front of the camera, in the frame of the group:
    [mainGroup.worldToLocal(v)] for [v] at distance 60 before the camera. *)
Local Abbreviation zoomPlace c g :=
  (worldToLocal g
     (Vector3.mk
        (Vector3.x (applyQuaternion (quaternion c) (Vector3.mk 0 0 (- 60)))
         + Vector3.x (camPosition c))
        (Vector3.y (applyQuaternion (quaternion c) (Vector3.mk 0 0 (- 60)))
         + Vector3.y (camPosition c))
        (Vector3.z (applyQuaternion (quaternion c) (Vector3.mk 0 0 (- 60)))
         + Vector3.z (camPosition c)))).

(** The zoomed photo goes to the place in front of the camera, which stays
    where it is since neither the camera nor the group turns in [ZOOM];
    that [worldToLocal] reads the placement of the group only, here its
    rotation, is the hypothesis. *)
Lemma run_zoomed_place (s : App) (g : Group) (c : Camera) (i : nat)
  (m : PhotoMesh) (n : nat) :
  (forall g1 g2 v, rotation g1 = rotation g2 ->
                   worldToLocal g1 v = worldToLocal g2 v) ->
  mainGroup s = Some g ->
  camera s = Some c ->
  nth_error (photoMeshes s) i = Some m ->
  stateRef s = ZOOM ->
  Z.of_nat i = zoomTargetIndex s ->
  exists m',
    nth_error (photoMeshes (run n s)) i = Some m' /\
    Vector3.x (zoomPlace c g) - Vector3.x (position m') =
      0.9 ^ n * (Vector3.x (zoomPlace c g) - Vector3.x (position m)) /\
    Vector3.y (zoomPlace c g) - Vector3.y (position m') =
      0.9 ^ n * (Vector3.y (zoomPlace c g) - Vector3.y (position m)) /\
    Vector3.z (zoomPlace c g) - Vector3.z (position m') =
      0.9 ^ n * (Vector3.z (zoomPlace c g) - Vector3.z (position m)).
Proof.
  intros Hw Eg Ec Em Hm Hz.
  induction n as [| n (m' & E' & Px & Py & Pz)].
  - exists m. cbn [frames pow]. split; [exact Em |]. repeat split; ring.
  - change (run (S n) s) with (frame (run n s)).
    destruct (run_refs s n) as (Hm' & Hzi & _ & _).
    destruct (run_group_ZOOM s g n Eg Hm) as (g' & Eg' & Hr').
    destruct (run_group_ZOOM s g (S n) Eg Hm) as (g2' & Eg2' & Hr2').
    change (run (S n) s) with (frame (run n s)) in Eg2'.
    destruct (animate_parts (run n s) g' Eg')
      as (g2 & E2 & _ & _ & Hp & _).
    assert (g2' = g2) by congruence. subst g2'.
    rewrite Hp, nth_error_mapi, E', Hm', Hzi, run_camera, Ec.
    cbn [option_map Nat.add].
    eexists. split; [reflexivity |].
    unfold updatePhoto. rewrite (is_zoomed _ _ _ Hm Hz).
    rewrite (Hw g2 g _ Hr2').
    cbn [position Vector3.lerp Vector3.x Vector3.y Vector3.z pow].
    repeat split; lra.
Qed.

(** C4, as the code has it, with numbers taken as reals.  Every object that
    the frame loop pulls to a fixed place approaches it geometrically: the
    star in every mode, by the factor 0.95 per frame; every photo in every
    mode, by 0.9, the zoomed one going to the place in front of the camera
    (or to its scattered place when there is no camera); a decorative
    instance in [TREE] and in [ZOOM], by 0.94.  Each step decreases the
    distance strictly while it is not zero, from frame 150 on the distance is
    below a thousandth of the initial one, and the position never passes its
    target.  The one object left out is the decorative instance in
    [SCATTER], where a sinusoid is added after the blend. *)
Theorem objects_converge (s : App) (n : nat) :
  sceneBuilt s ->
  (forall c j item,
      stateRef s <> SCATTER ->
      nth_error (getData c (logicData s)) j = Some item ->
      exists item_n item_next,
        nth_error (getData c (logicData (run n s))) j = Some item_n /\
        nth_error (getData c (logicData (run (S n) s))) j = Some item_next /\
        approaches 0.94 (targetOf (stateRef s) item) (currentPos item)
                   (currentPos item_n) (currentPos item_next) n) /\
  (forall st,
      star (logicData s) = Some st ->
      exists st_n st_next,
        star (logicData (run n s)) = Some st_n /\
        star (logicData (run (S n) s)) = Some st_next /\
        approaches 0.95
                   (match stateRef s with
                    | TREE => starTreePos st
                    | _ => starScatterPos st
                    end)
                   (starPos st) (starPos st_n) (starPos st_next) n) /\
  (forall i m,
      nth_error (photoMeshes s) i = Some m ->
      (stateRef s = ZOOM -> Z.of_nat i <> zoomTargetIndex s) ->
      exists m_n m_next,
        nth_error (photoMeshes (run n s)) i = Some m_n /\
        nth_error (photoMeshes (run (S n) s)) i = Some m_next /\
        approaches 0.9 (restPlace (stateRef s) m) (position m)
                   (position m_n) (position m_next) n) /\
  (forall i m,
      nth_error (photoMeshes s) i = Some m ->
      stateRef s = ZOOM -> Z.of_nat i = zoomTargetIndex s ->
      (camera s = None ->
       exists m_n m_next,
         nth_error (photoMeshes (run n s)) i = Some m_n /\
         nth_error (photoMeshes (run (S n) s)) i = Some m_next /\
         approaches 0.9 (scatterPlace m) (position m)
                    (position m_n) (position m_next) n) /\
      (forall c g,
          camera s = Some c -> mainGroup s = Some g ->
          (forall g1 g2 v, rotation g1 = rotation g2 ->
                           worldToLocal g1 v = worldToLocal g2 v) ->
          exists m_n m_next,
            nth_error (photoMeshes (run n s)) i = Some m_n /\
            nth_error (photoMeshes (run (S n) s)) i = Some m_next /\
            approaches 0.9 (zoomPlace c g) (position m)
                       (position m_n) (position m_next) n)).
Proof.
  intros Hb.
  destruct Hb as (g & Eg & Hb').
  assert (Hb : sceneBuilt s) by (exists g; split; assumption).
  split; [| split; [| split]].
  - intros c j item Hm Hj.
    destruct (run_item applyQuaternion worldToLocal s c j item n Hb Hm Hj)
      as (_ & _ & item_n & Hjn & _ & _ & _ & Gx & Gy & Gz).
    destruct (run_item applyQuaternion worldToLocal s c j item (S n) Hb Hm Hj)
      as (_ & _ & item_next & Hjs & _ & _ & _ & Sx & Sy & Sz).
    exists item_n, item_next.
    split; [exact Hjn |]. split; [exact Hjs |].
    apply approach_facts; try assumption. lra.
  - intros st Es.
    destruct (run_star s g st n Eg Es)
      as (st_n & En & _ & _ & _ & Gx & Gy & Gz).
    destruct (run_star s g st (S n) Eg Es)
      as (st_next & Esn & _ & _ & _ & Sx & Sy & Sz).
    exists st_n, st_next.
    split; [exact En |]. split; [exact Esn |].
    apply approach_facts; try assumption. lra.
  - intros i m Em Hz.
    destruct (run_photo s g i m n Eg Em Hz)
      as (m_n & En & _ & _ & _ & (Gx & Gy & Gz) & _).
    destruct (run_photo s g i m (S n) Eg Em Hz)
      as (m_next & Esn & _ & _ & _ & (Sx & Sy & Sz) & _).
    exists m_n, m_next.
    split; [exact En |]. split; [exact Esn |].
    apply approach_facts; try assumption. lra.
  - intros i m Em Hm Hz. split.
    + intros Ec.
      destruct (run_zoomed s g i m n Eg Em Hm Hz)
        as (m_n & En & _ & _ & _ & Hn).
      destruct (run_zoomed s g i m (S n) Eg Em Hm Hz)
        as (m_next & Esn & _ & _ & _ & Hsn).
      destruct (Hn Ec) as (_ & Gx & Gy & Gz).
      destruct (Hsn Ec) as (_ & Sx & Sy & Sz).
      exists m_n, m_next.
      split; [exact En |]. split; [exact Esn |].
      apply approach_facts; try assumption. lra.
    + intros c g0 Ec Eg0 Hw.
      assert (g0 = g) by congruence. subst g0.
      destruct (run_zoomed_place s g c i m n Hw Eg Ec Em Hm Hz)
        as (m_n & En & Gx & Gy & Gz).
      destruct (run_zoomed_place s g c i m (S n) Hw Eg Ec Em Hm Hz)
        as (m_next & Esn & Sx & Sy & Sz).
      exists m_n, m_next.
      split; [exact En |]. split; [exact Esn |].
      apply approach_facts; try assumption. lra.
Qed.

(** *** The dust *)

Lemma updateDust_cons (m : AppState) (t : R) (i : nat) (p : DustData)
  (rest : list DustData) (positions : list Float32) :
  updateDust m t i (p :: rest) positions =
    (updateDustMote m t i p
       :: fst (updateDust m t (S i) rest
                 (setAt (i * 3 + 2) (fround (Vector3.z (dustPos (updateDustMote m t i p))))
                    (setAt (i * 3 + 1) (fround (Vector3.y (dustPos (updateDustMote m t i p))))
                       (setAt (i * 3) (fround (Vector3.x (dustPos (updateDustMote m t i p))))
                          positions)))),
     snd (updateDust m t (S i) rest
            (setAt (i * 3 + 2) (fround (Vector3.z (dustPos (updateDustMote m t i p))))
               (setAt (i * 3 + 1) (fround (Vector3.y (dustPos (updateDustMote m t i p))))
                  (setAt (i * 3) (fround (Vector3.x (dustPos (updateDustMote m t i p))))
                     positions))))).
Proof.
  cbn [updateDust].
  match goal with
  | |- context [updateDust m t (S i) rest ?ps] =>
      destruct (updateDust m t (S i) rest ps)
  end.
  reflexivity.
Qed.

Lemma updateDust_length (m : AppState) (t : R) (i : nat)
  (motes : list DustData) (positions : list Float32) :
  length (snd (updateDust m t i motes positions)) = length positions.
Proof.
  revert i positions. induction motes as [| p rest IH]; intros i positions.
  - reflexivity.
  - rewrite updateDust_cons. cbn [snd]. rewrite IH, !length_setAt. reflexivity.
Qed.

(** The loop started at mote [i] writes at [3 i] and beyond. *)
Lemma updateDust_below (m : AppState) (t : R) (i k : nat)
  (motes : list DustData) (positions : list Float32) :
  (k < i * 3)%nat ->
  nth_error (snd (updateDust m t i motes positions)) k = nth_error positions k.
Proof.
  revert i positions. induction motes as [| p rest IH]; intros i positions Hk.
  - reflexivity.
  - rewrite updateDust_cons. cbn [snd].
    rewrite IH by lia.
    rewrite !setAt_other by lia. reflexivity.
Qed.

Lemma updateDust_buffer (m : AppState) (t : R) (i j : nat)
  (motes : list DustData) (positions : list Float32) (p : DustData) :
  nth_error motes j = Some p ->
  ((i + j) * 3 + 2 < length positions)%nat ->
  let c := dustPos (updateDustMote m t (i + j) p) in
  nth_error (snd (updateDust m t i motes positions)) ((i + j) * 3) =
    Some (fround (Vector3.x c)) /\
  nth_error (snd (updateDust m t i motes positions)) ((i + j) * 3 + 1) =
    Some (fround (Vector3.y c)) /\
  nth_error (snd (updateDust m t i motes positions)) ((i + j) * 3 + 2) =
    Some (fround (Vector3.z c)).
Proof.
  revert i j positions.
  induction motes as [| a rest IH]; intros i j positions Hj Hlen.
  - destruct j; discriminate.
  - rewrite updateDust_cons. cbn [snd].
    destruct j as [| j]; cbn [nth_error] in Hj.
    + injection Hj as ->. rewrite Nat.add_0_r in *. cbv zeta.
      rewrite !updateDust_below by lia.
      split; [| split].
      * rewrite !setAt_other by lia. apply setAt_same. lia.
      * rewrite setAt_other by lia. apply setAt_same.
        rewrite length_setAt. lia.
      * apply setAt_same. rewrite !length_setAt. lia.
    + replace (i + S j)%nat with (S i + j)%nat in * by lia.
      apply IH; [exact Hj |].
      rewrite !length_setAt. lia.
Qed.

Lemma animate_buffer (s : App) (g : Group) (positions : list Float32) :
  mainGroup s = Some g ->
  dustSystem s = Some positions ->
  dustSystem (frame s) =
    Some (snd (updateDust (stateRef s) (time s + 0.01) 0
                 (dust (logicData s)) positions)).
Proof.
  intros Eg Ed. unfold animate. rewrite Eg.
  pose proof (rotateGroup_refs (set_time (time s + 0.01) s) g) as H.
  destruct (rotateGroup (set_time (time s + 0.01) s) g) as [s1 g1].
  cbn [fst snd] in *.
  destruct H as (H1 & H2 & H3 & H4 & H5 & H6 & H7 & _).
  change (stateRef (set_time (time s + 0.01) s)) with (stateRef s) in *.
  change (time (set_time (time s + 0.01) s)) with (time s + 0.01) in *.
  change (logicData (set_time (time s + 0.01) s)) with (logicData s) in H5.
  change (dustSystem (set_time (time s + 0.01) s)) with (dustSystem s) in H6.
  set (m := stateRef s) in *. set (t := time s + 0.01) in *.
  pose proof (updateMeshGroup_keeps m t 0 Gold (logicData s1, g1)) as K0.
  set (st0 := updateMeshGroup m t 0 Gold (logicData s1, g1)) in *.
  pose proof (updateMeshGroup_keeps m t 1 Silver st0) as K1.
  set (st1 := updateMeshGroup m t 1 Silver st0) in *.
  pose proof (updateMeshGroup_keeps m t 2 Gem st1) as K2.
  set (st2 := updateMeshGroup m t 2 Gem st1) in *.
  pose proof (updateMeshGroup_keeps m t 3 Emerald st2) as K3.
  set (st3 := updateMeshGroup m t 3 Emerald st2) in *.
  destruct K0 as (A0 & B0 & C0 & D0). destruct K1 as (A1 & B1 & C1 & D1).
  destruct K2 as (A2 & B2 & C2 & D2). destruct K3 as (A3 & B3 & C3 & D3).
  cbn [fst snd] in A0, B0, C0, D0.
  destruct st3 as [ld g2]. cbn [fst snd] in *.
  assert (Hdust : dust ld = dust (logicData s)) by congruence.
  rewrite H6, Ed, Hdust.
  destruct (updateDust m t 0 (dust (logicData s)) positions)
    as [motes positions'].
  reflexivity.
Qed.



(** A mote outside [TREE]: it only bobs, by at most 0.05. *)
Lemma updateDustMote_bob (m : AppState) (t : R) (i : nat) (p : DustData) :
  m <> TREE ->
  let p' := updateDustMote m t i p in
  Vector3.x (dustPos p') = Vector3.x (dustPos p) /\
  Vector3.z (dustPos p') = Vector3.z (dustPos p) /\
  Rabs (Vector3.y (dustPos p') - Vector3.y (dustPos p)) <= 0.05.
Proof.
  intros Hm p'. subst p'.
  assert (Hb : Rabs (Vector3.y (dustPos p) + sin (t + INR i) * 0.05 -
                     Vector3.y (dustPos p)) <= 0.05).
  { pose proof (SIN_bound (t + INR i)) as [H1 H2].
    apply Rabs_le. lra. }
  destruct m; [congruence | |];
    cbn [updateDustMote dustPos Vector3.set_y Vector3.x Vector3.y Vector3.z];
    repeat split; exact Hb.
Qed.

Lemma updateDustMote_base (m : AppState) (t : R) (i : nat) (p : DustData) :
  baseY (updateDustMote m t i p) = baseY p /\
  speed (updateDustMote m t i p) = speed p.
Proof. destruct m; split; reflexivity. Qed.

Lemma frame_mote (s : App) (g : Group) (i : nat) (p : DustData) :
  mainGroup s = Some g ->
  nth_error (dust (logicData s)) i = Some p ->
  nth_error (dust (logicData (frame s))) i =
    Some (match dustSystem s with
          | Some _ => updateDustMote (stateRef s) (time s + 0.01) i p
          | None => p
          end).
Proof.
  intros Eg Ep.
  destruct (animate_parts s g Eg) as (g2 & _ & _ & _ & _ & _ & Hd & _).
  rewrite Hd. destruct (dustSystem s); [| exact Ep].
  rewrite nth_error_mapi, Ep. reflexivity.
Qed.


(** X13: the dust outside [TREE].  A mote keeps its x and z, and after [n]
    frames its height is within [0.05 n] of where it was. *)
Theorem dust_bobs_outside_TREE (s : App) (i : nat) (p : DustData) (n : nat) :
  mainGroup s <> None ->
  stateRef s <> TREE ->
  nth_error (dust (logicData s)) i = Some p ->
  exists p',
    nth_error (dust (logicData (run n s))) i = Some p' /\
    Vector3.x (dustPos p') = Vector3.x (dustPos p) /\
    Vector3.z (dustPos p') = Vector3.z (dustPos p) /\
    baseY p' = baseY p /\
    Rabs (Vector3.y (dustPos p') - Vector3.y (dustPos p)) <= 0.05 * INR n.
Proof.
  intros Hg Hm Ep.
  induction n as [| n (p' & E' & Hx & Hz & Hb & Hy)].
  - exists p. cbn [frames INR]. repeat split; try exact Ep.
    rewrite Rminus_diag, Rabs_R0. lra.
  - change (run (S n) s) with (frame (run n s)).
    destruct (run_refs s n) as (Hm' & _ & _ & Hg').
    destruct (mainGroup (run n s)) as [g' |] eqn:Eg';
      [| exfalso; apply Hg'; congruence].
    pose proof (frame_mote (run n s) g' i p' Eg' E') as E2.
    eexists. split; [exact E2 |].
    rewrite S_INR.
    destruct (dustSystem (run n s)).
    + rewrite Hm'.
      destruct (updateDustMote_bob (stateRef s) (time (run n s) + 0.01) i p' Hm)
        as (Bx & Bz & By).
      destruct (updateDustMote_base (stateRef s) (time (run n s) + 0.01) i p')
        as (Bb & _).
      repeat split; try congruence.
      match goal with
      | |- Rabs (?a - ?b) <= _ =>
          replace (a - b) with ((a - Vector3.y (dustPos p')) +
                                (Vector3.y (dustPos p') - b)) by ring
      end.
      eapply Rle_trans; [apply Rabs_triang |]. lra.
    + repeat split; try assumption. lra.
Qed.

(** X14: after a frame the buffer of the point cloud holds, for every mote
    that fits in it, the binary32 rounding of its three new coordinates, at
    the entries [3 i], [3 i + 1] and [3 i + 2]: what is drawn is what was
    computed, to single precision. *)
Theorem dust_buffer_mirrors_motes (s : App) (g : Group)
  (positions : list Float32) (i : nat) (p : DustData) :
  mainGroup s = Some g ->
  dustSystem s = Some positions ->
  (i * 3 + 2 < length positions)%nat ->
  nth_error (dust (logicData s)) i = Some p ->
  exists p' positions',
    nth_error (dust (logicData (frame s))) i = Some p' /\
    dustSystem (frame s) = Some positions' /\
    length positions' = length positions /\
    nth_error positions' (i * 3) = Some (fround (Vector3.x (dustPos p'))) /\
    nth_error positions' (i * 3 + 1) = Some (fround (Vector3.y (dustPos p'))) /\
    nth_error positions' (i * 3 + 2) = Some (fround (Vector3.z (dustPos p'))).
Proof.
  intros Eg Ed Hlen Ep.
  pose proof (frame_mote s g i p Eg Ep) as E1. rewrite Ed in E1.
  pose proof (animate_buffer s g positions Eg Ed) as E2.
  destruct (updateDust_buffer (stateRef s) (time s + 0.01) 0 i
              (dust (logicData s)) positions p Ep Hlen) as (Bx & By & Bz).
  eexists. eexists. split; [exact E1 |]. split; [exact E2 |].
  split; [apply updateDust_length |].
  split; [exact Bx |]. split; [exact By | exact Bz].
Qed.

(** *** Waving the hand *)

(** An open hand, whatever the state of the mode mirror. *)
Lemma detect_open_any (marks : list NormalizedLandmark) (s : App)
  (p9 : NormalizedLandmark) :
  landmarkAt marks 9 = Ok p9 ->
  isFist marks = Ok false -> isPinch marks = Ok false ->
  let s' := detectFrame (Some [marks]) s in
  stateRef s' =
    (if AppState_eqb (stateRef s) SCATTER then currentState s else SCATTER) /\
  handPos s' = mkXY (lx p9) (ly p9) /\
  lastHandPos s' =
    (if AppState_eqb (stateRef s) SCATTER then lastHandPos s
     else mkXY (lx p9) (ly p9)) /\
  isHandPresent s' = true.
Proof.
  intros E9 Ef Ep s'. subst s'.
  rewrite (detectFrame_eq marks s p9 false false E9 Ef Ep).
  destruct s as [cur ? ? ? ? ? ? ? photos mode ? ? ? ? ? ?].
  unfold applyGesture, syncState; simpl.
  destruct mode; simpl; repeat split.
Qed.

(** X15: an open hand (neither fist nor pinch) and the frame that follows,
    in every state of the component.  The handler looks at the mode in
    [stateRef].  When that mode is [TREE] or [ZOOM], it asks for [SCATTER]
    and takes the position of the hand as the last one seen, so the first
    frame in [SCATTER] gives the group no impulse: the angular velocity is
    only damped.  When that mode is [SCATTER] and no mode change is pending,
    the frame adds 0.2 times the displacement of the hand since the last
    frame, the vertical displacement to the tilt and the horizontal one to
    the yaw, and then damps.  In both cases the displacement is used up: a
    second frame without a new detection only damps.  When that mode is
    [SCATTER] but a change to [TREE] or [ZOOM] is pending, the handler
    writes nothing, the pending mode takes effect, and the frame neither
    adds to the angular velocity nor damps it. *)
Theorem wave_gives_one_impulse (marks : list NormalizedLandmark) (s : App)
  (p9 : NormalizedLandmark) :
  landmarkAt marks 9 = Ok p9 ->
  isFist marks = Ok false -> isPinch marks = Ok false ->
  mainGroup s <> None ->
  let s0 := detectFrame (Some [marks]) s in
  let s1 := frame s0 in
  (stateRef s <> SCATTER ->
     stateRef s0 = SCATTER /\
     rotVelocity s1 =
       mkXY (x (rotVelocity s) * 0.95) (y (rotVelocity s) * 0.95) /\
     lastHandPos s1 = mkXY (lx p9) (ly p9) /\
     rotVelocity (frame s1) =
       mkXY (x (rotVelocity s1) * 0.95) (y (rotVelocity s1) * 0.95)) /\
  (stateRef s = SCATTER -> currentState s = SCATTER ->
     stateRef s0 = SCATTER /\
     rotVelocity s1 =
       mkXY ((x (rotVelocity s) + (ly p9 - y (lastHandPos s)) * 0.2) * 0.95)
            ((y (rotVelocity s) + (lx p9 - x (lastHandPos s)) * 0.2) * 0.95) /\
     lastHandPos s1 = mkXY (lx p9) (ly p9) /\
     rotVelocity (frame s1) =
       mkXY (x (rotVelocity s1) * 0.95) (y (rotVelocity s1) * 0.95)) /\
  (stateRef s = SCATTER -> currentState s <> SCATTER ->
     stateRef s0 = currentState s /\
     rotVelocity s1 = rotVelocity s /\
     lastHandPos s1 = lastHandPos s).
Proof.
  intros E9 Ef Ep Hg s0 s1. subst s1 s0.
  destruct (detect_open_any marks s p9 E9 Ef Ep) as (Hm & Hh & Hl & Hp).
  destruct (detectFrame_scene (Some [marks]) s) as (_ & Hmg & Hv).
  assert (Hg1 : mainGroup (detectFrame (Some [marks]) s) <> None)
    by (rewrite Hmg; exact Hg).
  destruct (animate_rotVelocity applyQuaternion worldToLocal _ Hg1)
    as (Ha & _ & Ho).
  destruct (animate_refs applyQuaternion worldToLocal
              (detectFrame (Some [marks]) s))
    as (_ & Hm2 & _ & _ & Hp2 & Hh2).
  assert (Hg2 : mainGroup (frame (detectFrame (Some [marks]) s)) <> None).
  { destruct (mainGroup (detectFrame (Some [marks]) s)) as [g |] eqn:Eg;
      [| congruence].
    now destruct (animate_momentum applyQuaternion worldToLocal _ g Eg)
      as (_ & _ & H). }
  destruct (animate_rotVelocity applyQuaternion worldToLocal _ Hg2)
    as (Hb & _ & _).
  assert (Hscatter :
            stateRef (detectFrame (Some [marks]) s) = SCATTER ->
            rotVelocity (frame (detectFrame (Some [marks]) s)) =
              mkXY ((x (rotVelocity s)
                     + (ly p9 - y (lastHandPos (detectFrame (Some [marks]) s)))
                       * 0.2) * 0.95)
                   ((y (rotVelocity s)
                     + (lx p9 - x (lastHandPos (detectFrame (Some [marks]) s)))
                       * 0.2) * 0.95) /\
            lastHandPos (frame (detectFrame (Some [marks]) s)) =
              mkXY (lx p9) (ly p9) /\
            rotVelocity (frame (frame (detectFrame (Some [marks]) s))) =
              mkXY (x (rotVelocity (frame (detectFrame (Some [marks]) s)))
                    * 0.95)
                   (y (rotVelocity (frame (detectFrame (Some [marks]) s)))
                    * 0.95)).
  { intros Hs. destruct (Ha Hs Hp) as (Hv1 & Hl1).
    rewrite Hh, Hv in Hv1. rewrite Hh in Hl1. cbn [x y] in Hv1, Hl1.
    split; [exact Hv1 |]. split; [exact Hl1 |].
    destruct Hb as (Hv2 & _); [congruence | congruence |].
    rewrite Hh2, Hh, Hl1 in Hv2. cbn [x y] in Hv2.
    rewrite Hv2. f_equal; lra. }
  split; [| split].
  - intros Hn.
    assert (E : AppState_eqb (stateRef s) SCATTER = false)
      by (destruct (stateRef s); [reflexivity | congruence | reflexivity]).
    rewrite E in Hm, Hl.
    destruct (Hscatter Hm) as (Hv1 & Hl1 & Hv2).
    split; [exact Hm |].
    split; [| split; [exact Hl1 | exact Hv2]].
    rewrite Hv1, Hl. cbn [x y]. f_equal; lra.
  - intros Hs Hc.
    rewrite Hs in Hm, Hl. cbn [AppState_eqb] in Hm, Hl.
    rewrite Hc in Hm.
    destruct (Hscatter Hm) as (Hv1 & Hl1 & Hv2).
    split; [exact Hm |].
    split; [| split; [exact Hl1 | exact Hv2]].
    rewrite Hv1, Hl. reflexivity.
  - intros Hs Hc.
    rewrite Hs in Hm, Hl. cbn [AppState_eqb] in Hm, Hl.
    split; [exact Hm |].
    destruct Ho as (Hv1 & Hl1); [congruence |].
    split; [congruence | congruence].
Qed.

(** *** What never changes *)

Lemma initThree_camera (random : nat -> R) :
  camera (initThree random initialApp) <> None /\
  photoCount (initThree random initialApp) = 0%nat.
Proof.
  unfold initThree.
  change (mainGroup initialApp) with (@None Group). cbv iota.
  destruct (createJewels random 0 (logicData initialApp) _) as [[ld group] n].
  destruct (0 <? length (dust ld))%nat.
  - split; [discriminate | reflexivity].
  - destruct (createMotes _ _ _ _ _ _). split; [discriminate | reflexivity].
Qed.

Lemma predictWebcam_keeps
  (result : option (list (list NormalizedLandmark))) (s : App) :
  logicData (finalState (predictWebcam result s)) = logicData s /\
  mainGroup (finalState (predictWebcam result s)) = mainGroup s /\
  camera (finalState (predictWebcam result s)) = camera s /\
  dustSystem (finalState (predictWebcam result s)) = dustSystem s /\
  photoMeshes (finalState (predictWebcam result s)) = photoMeshes s /\
  photoCount (finalState (predictWebcam result s)) = photoCount s.
Proof.
  unfold predictWebcam.
  destruct result as [[| marks others] |]; try (cbn; repeat split; fail).
  unfold handleGesture.
  destruct (landmarkAt marks 9) as [p9 |]; [| cbn; repeat split].
  destruct (isFist marks) as [fist |]; [| cbn; repeat split].
  destruct (isPinch marks) as [pinch |]; [| cbn; repeat split].
  destruct s as [cur ? ? ? ? ? ? ? photos mode ? ? ? ? ? ?].
  destruct pinch, fist, mode, photos; cbn -[nextIndex]; repeat split.
Qed.

(** Once mounted, the group and the camera stay. *)
Lemma scene_present (s : App) :
  reachable applyQuaternion worldToLocal s ->
  mainGroup s <> None /\ camera s <> None.
Proof.
  intros Hr. induction Hr as [random | s s' Hr (Hg & Hc) Hstep].
  - split; [exact (mounted_mainGroup random) |].
    exact (proj1 (initThree_camera random)).
  - destruct Hstep as [result s | s | s | w h random s].
    + destruct (predictWebcam_keeps result s) as (_ & Kg & Kc & _).
      rewrite Kg, Kc. split; assumption.
    + split; assumption.
    + destruct (mainGroup s) as [g |] eqn:Eg; [| congruence].
      destruct (animate_parts s g Eg)
        as (g2 & Eg2 & _ & _ & _ & _ & _ & _ & Hc2 & _).
      rewrite Eg2, Hc2. split; [discriminate | exact Hc].
    + split; [now apply addPhoto_mainGroup |].
      unfold addPhoto. destruct (mainGroup s); exact Hc.
Qed.

(** X16: what holds in every state the component can reach, by detector
    callbacks, sync effects, frames and uploads.  The scene keeps its
    500, 500, 350 and 350 instances and its 1500 motes, each category with
    its instanced mesh and one matrix per instance; the buffer of the dust
    keeps its 4500 numbers; the star keeps its two places; the camera stays;
    the group holds the six objects of the scene and one plane per photo;
    and the displayed photo count is the number of photos. *)
Theorem reachable_scene_invariant (s : App) :
  reachable applyQuaternion worldToLocal s ->
  sceneBuilt s /\
  (length (getData Gold (logicData s)) = 500 /\
   length (getData Silver (logicData s)) = 500 /\
   length (getData Gem (logicData s)) = 350 /\
   length (getData Emerald (logicData s)) = 350 /\
   length (dust (logicData s)) = 1500)%nat /\
  (exists positions,
      dustSystem s = Some positions /\ length positions = 4500%nat) /\
  (exists st,
      star (logicData s) = Some st /\
      starTreePos st = Vector3.mk 0 38 0 /\
      starScatterPos st = Vector3.mk 0 60 0) /\
  camera s <> None /\
  (exists g,
      mainGroup s = Some g /\
      length (children g) = (6 + length (photoMeshes s))%nat) /\
  photoCount s = length (photoMeshes s).
Proof.
  intros Hr. induction Hr as [random | s s' Hr IH Hstep].
  - destruct (initThree_scene random)
      as (mg & ms & mgm & me & motes & Eg & Eld & _).
    destruct (initThree_dust random) as (Hd & pos & Ep & Hp).
    destruct (initThree_refs random initialApp) as (_ & _ & _ & Hph & _).
    destruct (initThree_camera random) as (Hc & Hpc).
    pose proof (sceneBuilt_initThree random) as Hb.
    revert Eg Eld Hd Ep Hph Hc Hpc Hb.
    generalize (initThree random initialApp).
    intros s Eg Eld Hd Ep Hph Hc Hpc Hb.
    change (photoMeshes initialApp) with (@nil PhotoMesh) in Hph.
    split; [exact Hb |]. split.
    { rewrite Eld in *. cbn [getData gold silver gem emerald].
      rewrite !length_map, !length_seq. repeat split; try reflexivity.
      exact Hd. }
    split; [exists pos; split; [exact Ep | exact Hp] |].
    split.
    { rewrite Eld. cbn [star]. eexists. split; [reflexivity |].
      cbn [starTreePos starScatterPos]. split; [| reflexivity].
      f_equal. change (treeHeight CONFIG) with 70. lra. }
    split; [exact Hc |].
    split; [| rewrite Hph, Hpc; reflexivity].
    eexists. split; [exact Eg |]. rewrite Hph. reflexivity.
  - destruct IH as (Hb & (L1 & L2 & L3 & L4 & L5) & (pos & Ep & Hp)
                    & (st & Es & St & Ss) & Hc & (g & Eg & Hch) & Hpc).
    destruct Hstep as [result s | s | s | w h random s].
    + destruct (predictWebcam_keeps result s)
        as (Kl & Kg & Kc & Kd & Kp & Kn).
      rewrite Kl, Kg, Kc, Kd, Kp, Kn.
      split; [exact (sceneBuilt_ext _ _ Kl Kg Hb) |].
      repeat split; try assumption; eauto.
    + split; [exact Hb |].
      change (logicData (syncState s)) with (logicData s).
      change (dustSystem (syncState s)) with (dustSystem s).
      change (camera (syncState s)) with (camera s).
      change (mainGroup (syncState s)) with (mainGroup s).
      change (photoMeshes (syncState s)) with (photoMeshes s).
      change (photoCount (syncState s)) with (photoCount s).
      repeat split; try assumption; eauto.
    + destruct (animate_built applyQuaternion worldToLocal s Hb)
        as (Hd & _ & _ & Hb').
      destruct (animate_parts s g Eg)
        as (g2 & Eg2 & _ & Hch2 & Hph2 & Hs2 & Hd2 & _ & Hc2 & Hn2 & _).
      pose proof (animate_buffer s g pos Eg Ep) as Ep2.
      split; [exact Hb' |]. split.
      { rewrite !Hd. unfold newData. rewrite !length_mapi.
        rewrite Hd2, Ep, length_mapi. repeat split; assumption. }
      split.
      { eexists. split; [exact Ep2 |]. now rewrite updateDust_length. }
      split.
      { rewrite Hs2, Es. cbn [option_map]. eexists. split; [reflexivity |].
        split; assumption. }
      split; [congruence |].
      rewrite Hph2, length_mapi.
      split; [| congruence].
      exists g2. split; [exact Eg2 | congruence].
    + destruct (addPhoto_scene w h random s Hb) as (Hb' & Kl).
      split; [exact Hb' |]. rewrite Kl.
      unfold addPhoto. rewrite Eg.
      cbn [dustSystem camera mainGroup photoMeshes photoCount
           setCurrentState setPhotoCount set_mainGroup set_photoMeshes].
      split; [repeat split; assumption |].
      split; [exists pos; split; assumption |].
      split; [exists st; repeat split; assumption |].
      split; [exact Hc |].
      rewrite length_app. cbn [length].
      split; [| lia].
      eexists. split; [reflexivity |].
      unfold addChild. cbn [children]. rewrite length_app. cbn [length]. lia.
Qed.


End MoreFrames.

(** ** Where things are put *)

Lemma createMotes_Forall (P : DustData -> Prop) (random : nat -> R)
  (n i count : nat) (motes : list DustData) (pos : list Float32) :
  (forall k,
      P (mkDust (Vector3.mk ((random k - 0.5) * 100)
                            ((random (k + 1)%nat - 0.5) * 100)
                            ((random (k + 2)%nat - 0.5) * 100))
                ((random (k + 1)%nat - 0.5) * 100)
                (random (k + 3)%nat * 0.05 + 0.02))) ->
  Forall P motes ->
  Forall P (fst (createMotes random n i count motes pos)).
Proof.
  intros HP. revert n i motes pos.
  induction count as [| count IH]; intros n i motes pos H.
  - exact H.
  - cbn [createMotes]. apply IH.
    apply Forall_app. split; [exact H |].
    constructor; [apply HP | constructor].
Qed.

(** The loop of [createDust] keeps the buffer in step with the motes. *)
Lemma createMotes_buffer (random : nat -> R) (n i count : nat)
  (motes : list DustData) (pos : list Float32) :
  length motes = i ->
  ((i + count) * 3 <= length pos)%nat ->
  (forall j p, nth_error motes j = Some p ->
     nth_error pos (j * 3) = Some (fround (Vector3.x (dustPos p))) /\
     nth_error pos (j * 3 + 1) = Some (fround (Vector3.y (dustPos p))) /\
     nth_error pos (j * 3 + 2) = Some (fround (Vector3.z (dustPos p)))) ->
  forall j p,
    nth_error (fst (createMotes random n i count motes pos)) j = Some p ->
    nth_error (snd (createMotes random n i count motes pos)) (j * 3) =
      Some (fround (Vector3.x (dustPos p))) /\
    nth_error (snd (createMotes random n i count motes pos)) (j * 3 + 1) =
      Some (fround (Vector3.y (dustPos p))) /\
    nth_error (snd (createMotes random n i count motes pos)) (j * 3 + 2) =
      Some (fround (Vector3.z (dustPos p))).
Proof.
  revert n i motes pos.
  induction count as [| count IH]; intros n i motes pos Hi Hlen Hm.
  - exact Hm.
  - cbn [createMotes]. apply IH.
    + rewrite length_app. cbn [length]. lia.
    + rewrite !length_setAt. lia.
    + intros j p Hj.
      destruct (Nat.lt_ge_cases j i) as [Hlt | Hge].
      * rewrite nth_error_app1 in Hj by lia.
        rewrite !setAt_other by lia. now apply Hm.
      * rewrite nth_error_app2 in Hj by lia.
        destruct (j - length motes)%nat as [| d] eqn:Ed;
          [| destruct d; discriminate].
        assert (j = i) by lia. subst j.
        injection Hj as <-. cbn [dustPos Vector3.x Vector3.y Vector3.z].
        split; [| split].
        -- rewrite !setAt_other by lia. apply setAt_same. lia.
        -- rewrite setAt_other by lia. apply setAt_same.
           rewrite length_setAt. lia.
        -- apply setAt_same. rewrite !length_setAt. lia.
Qed.

Lemma initThree_motes (random : nat -> R) :
  exists n,
    dust (logicData (initThree random initialApp)) =
      fst (createMotes random n 0 (dustCount CONFIG) []
             (repeat (fround 0) (dustCount CONFIG * 3))) /\
    dustSystem (initThree random initialApp) =
      Some (snd (createMotes random n 0 (dustCount CONFIG) []
                   (repeat (fround 0) (dustCount CONFIG * 3)))).
Proof.
  unfold initThree.
  change (mainGroup initialApp) with (@None Group). cbv iota.
  destruct (createJewels random 0 (logicData initialApp)
              (mkGroup (Euler.mk 0 0 0) [])) as [[ld group] n] eqn:E.
  assert (Hd : dust ld = []).
  { revert E. unfold createJewels.
    change (logicData initialApp) with (mkLogic [] [] [] [] [] None).
    change (0 <? length (gold (mkLogic [] [] [] [] [] None)))%nat with false.
    cbv iota.
    destruct (createInstancedMesh _ _ _ _ _) as [[g1 gr1] n1].
    destruct (createInstancedMesh _ _ _ _ _) as [[g2 gr2] n2].
    destruct (createInstancedMesh _ _ _ _ _) as [[g3 gr3] n3].
    destruct (createInstancedMesh _ _ _ _ _) as [[g4 gr4] n4].
    intros E. injection E as <- _ _. reflexivity. }
  rewrite Hd. change (0 <? length (@nil DustData))%nat with false. cbv iota.
  exists n.
  destruct (createMotes random n 0 (dustCount CONFIG) []
              (repeat (fround 0) (dustCount CONFIG * 3))) as [motes pos].
  split; reflexivity.
Qed.

(** X17: the dust as mounting scatters it.  With [Math.random] in [0, 1),
    every mote starts in the cube of half-width 50, its [baseY] is its
    starting height, its speed lies in [0.02, 0.07), and the buffer of the
    point cloud holds the binary32 rounding of the three coordinates of each
    mote. *)
Theorem mount_scatters_dust (random : nat -> R) :
  (forall k, 0 <= random k < 1) ->
  Forall (fun p =>
            (-50 <= Vector3.x (dustPos p) < 50 /\
             -50 <= Vector3.y (dustPos p) < 50 /\
             -50 <= Vector3.z (dustPos p) < 50) /\
            baseY p = Vector3.y (dustPos p) /\
            0.02 <= speed p < 0.07)
         (dust (logicData (initThree random initialApp))) /\
  exists positions,
    dustSystem (initThree random initialApp) = Some positions /\
    forall i p,
      nth_error (dust (logicData (initThree random initialApp))) i = Some p ->
      nth_error positions (i * 3) = Some (fround (Vector3.x (dustPos p))) /\
      nth_error positions (i * 3 + 1) = Some (fround (Vector3.y (dustPos p))) /\
      nth_error positions (i * 3 + 2) = Some (fround (Vector3.z (dustPos p))).
Proof.
  intros Hr.
  destruct (initThree_motes random) as (n & Ed & Ep).
  rewrite Ed. split.
  - apply createMotes_Forall; [| constructor].
    intros k. cbn [dustPos baseY speed Vector3.x Vector3.y Vector3.z].
    pose proof (Hr k). pose proof (Hr (k + 1)%nat).
    pose proof (Hr (k + 2)%nat). pose proof (Hr (k + 3)%nat).
    repeat split; lra.
  - eexists. split; [exact Ep |].
    apply createMotes_buffer.
    + reflexivity.
    + rewrite repeat_length. lia.
    + intros [| j] p Hj; discriminate.
Qed.

(** X18: where an uploaded photo is put.  The plane is 4 high and keeps the
    aspect ratio of the image.  With [Math.random] in [0, 1), its place on
    the tree is between 15 and 25 from the axis and at a height in
    [-20, 20); its scattered place is in the cube of half-width 40; it
    starts at its place on the tree at scale 1, facing the axis. *)
Theorem addPhoto_placement (w h : R) (random : nat -> R) (s : App)
  (g : Group) :
  mainGroup s = Some g ->
  (forall k, 0 <= random k < 1) ->
  h <> 0 ->
  exists mesh tree scatter,
    photoMeshes (addPhoto w h random s) = photoMeshes s ++ [mesh] /\
    planeHeight mesh = 4 /\
    planeWidth mesh * h = planeHeight mesh * w /\
    p_treePos (userData mesh) = Some tree /\
    p_scatterPos (userData mesh) = Some scatter /\
    position mesh = tree /\
    meshScale mesh = Vector3.mk 1 1 1 /\
    orientation mesh = LookAt (Vector3.mk 0 (Vector3.y tree) 0) /\
    15 * 15 <= Vector3.x tree * Vector3.x tree +
               Vector3.z tree * Vector3.z tree < 25 * 25 /\
    -20 <= Vector3.y tree < 20 /\
    (-40 <= Vector3.x scatter < 40 /\
     -40 <= Vector3.y scatter < 40 /\
     -40 <= Vector3.z scatter < 40).
Proof.
  intros Eg Hr Hh. unfold addPhoto. rewrite Eg.
  cbn [photoMeshes setCurrentState setPhotoCount set_mainGroup
       set_photoMeshes].
  eexists. eexists. eexists.
  split; [reflexivity |].
  cbn [planeHeight planeWidth userData p_treePos p_scatterPos position
       meshScale orientation].
  split; [reflexivity |].
  split; [field; exact Hh |].
  split; [reflexivity |]. split; [reflexivity |]. split; [reflexivity |].
  split; [reflexivity |]. split; [reflexivity |].
  cbn [Vector3.x Vector3.y Vector3.z].
  pose proof (Hr 0%nat). pose proof (Hr 1%nat). pose proof (Hr 2%nat).
  pose proof (Hr 3%nat). pose proof (Hr 4%nat). pose proof (Hr 5%nat).
  split; [| repeat split; lra].
  set (a := random 0%nat * PI * 2).
  pose proof (sin2_cos2 a) as Hsc. unfold Rsqr in Hsc.
  set (rad := 15 + random 1%nat * 10).
  assert (Hrad : 15 <= rad < 25) by (unfold rad; lra).
  replace (rad * cos a * (rad * cos a) + rad * sin a * (rad * sin a))
    with (rad * rad * (sin a * sin a + cos a * cos a)) by ring.
  rewrite Hsc. nra.
Qed.

(** ** The further properties on the sample runs *)

Lemma nextIndex_cycles_witness :
  nextIndex 3 (-1) = 0%Z /\ Nat.iter 3 (nextIndex 3) 1%Z = 1%Z.
Proof.
  destruct (nextIndex_cycles 3 1) as (_ & H).
  destruct (H ltac:(lia)) as (H0 & H1).
  destruct (H1 ltac:(lia)) as (_ & _ & _ & _ & Hc).
  split; [exact H0 | exact Hc].
Defined.

Lemma first_of_nonempty {A : Type} (l : list A) :
  (0 < length l)%nat -> exists a, nth_error l 0 = Some a.
Proof. destruct l as [| a l]; [cbn; lia | intros _; now exists a]. Qed.

Lemma mounted_star :
  star (logicData mounted) =
    Some (mkStar (Vector3.mk 0 (treeHeight CONFIG / 2 + 3) 0) 0
                 (Vector3.mk 0 (treeHeight CONFIG / 2 + 3) 0)
                 (Vector3.mk 0 60 0)).
Proof.
  destruct (initThree_scene half) as (mg & ms & mgm & me & motes & _ & -> & _).
  reflexivity.
Qed.

(** The first gold instance as mounting makes it with every draw at one
    half: it is not on its scatter target. *)
Lemma half_item_off_target :
  0 < Vector3.distanceTo (currentPos (createItem half 0))
                         (scatterPos (createItem half 0)).
Proof.
  unfold Vector3.distanceTo, createItem, half.
  cbn [currentPos scatterPos Vector3.x Vector3.y Vector3.z
       treeHeight maxRadius CONFIG].
  apply sqrt_lt_R0.
  set (theta := 0.5 * PI * 2).
  pose proof (sin2_cos2 theta) as Hsc. unfold Rsqr in Hsc.
  set (r := sqrt 0.5 * (28 * (1 - ((0.5 - 0.5) * 70 + 70 / 2) / 70 * 0.9))).
  assert (Hr : 0 < r).
  { unfold r. apply Rmult_lt_0_compat; [apply sqrt_lt_R0; lra | lra]. }
  assert (Hrr : 0 < r * r) by (apply Rmult_lt_0_compat; assumption).
  assert (Hid : r * cos theta * (r * cos theta) +
                r * sin theta * (r * sin theta) = r * r)
    by (transitivity (r * r * (sin theta * sin theta + cos theta * cos theta));
        [ring | rewrite Hsc; ring]).
  clearbody r theta.
  replace ((r * cos theta - (0.5 - 0.5) * 120) *
           (r * cos theta - (0.5 - 0.5) * 120) +
           ((0.5 - 0.5) * 70 - (0.5 - 0.5) * 120) *
           ((0.5 - 0.5) * 70 - (0.5 - 0.5) * 120) +
           (r * sin theta - (0.5 - 0.5) * 120) *
           (r * sin theta - (0.5 - 0.5) * 120))
    with (r * cos theta * (r * cos theta) + r * sin theta * (r * sin theta))
    by lra.
  lra.
Qed.

Lemma objects_converge_witness :
  0 < Vector3.distanceTo (currentPos (createItem half 0))
                         (scatterPos (createItem half 0)) /\
  exists item_n,
    nth_error
      (getData Gold (logicData (frames sameVector sameFrame 150 grabbed))) 0 =
      Some item_n /\
    Vector3.distanceTo (currentPos item_n) (scatterPos (createItem half 0)) <
      0.001 *
      Vector3.distanceTo (currentPos (createItem half 0))
                         (scatterPos (createItem half 0)).
Proof.
  split; [exact half_item_off_target |].
  destruct (objects_converge sameVector sameFrame grabbed 150
              (proj1 grabbed_scene)) as (H & _).
  destruct (H Gold 0%nat (createItem half 0))
    as (item_n & item_next & Hj & _ & Hd).
  - rewrite (proj1 grabbed_facts). discriminate.
  - exact (proj2 grabbed_scene).
  - exists item_n. split; [exact Hj |].
    rewrite (proj1 grabbed_facts) in Hd. cbn [targetOf] in Hd.
    destruct Hd as (_ & _ & _ & _ & Hlt & _).
    apply Hlt; [lia | exact half_item_off_target].
Defined.

Lemma group_rotation_witness :
  exists g g',
    mainGroup mounted = Some g /\
    mainGroup (frames sameVector sameFrame 10 mounted) = Some g' /\
    Euler.x (rotation g') = 0.95 ^ 10 * Euler.x (rotation g) /\
    Euler.y (rotation g') = Euler.y (rotation g) + 0.002 * INR 10.
Proof.
  destruct (initThree_scene half) as (mg & ms & mgm & me & motes & Eg & _).
  destruct (group_rotation sameVector sameFrame mounted _ 10 Eg)
    as (HT & _ & _).
  destruct (HT (proj1 mounted_facts)) as (g' & Eg' & Hx & Hy & _).
  eexists. exists g'.
  split; [exact Eg |]. split; [exact Eg' |]. split; [exact Hx | exact Hy].
Defined.

Lemma star_approaches_witness :
  exists st',
    star (logicData (frames sameVector sameFrame 10 mounted)) = Some st' /\
    starRotY st' = 0 + 0.02 * INR 10.
Proof.
  destruct (initThree_scene half) as (mg & ms & mgm & me & motes & Eg & _).
  destruct (star_approaches sameVector sameFrame mounted _ _ 10 Eg mounted_star)
    as (st' & E' & _ & _ & Hr & _).
  exists st'. split; [exact E' | exact Hr].
Defined.

Lemma twoPhotos_parts :
  exists g c m,
    mainGroup twoPhotos = Some g /\ camera twoPhotos = Some c /\
    nth_error (photoMeshes twoPhotos) 0 = Some m.
Proof.
  destruct (scene_present sameVector sameFrame twoPhotos twoPhotos_reachable)
    as (Hg & Hc).
  destruct (mainGroup twoPhotos) as [g |] eqn:Eg; [| congruence].
  destruct (first_of_nonempty (photoMeshes twoPhotos)) as (m & Em).
  { rewrite (proj2 (proj2 twoPhotos_facts)). lia. }
  destruct (camera twoPhotos) as [c |] eqn:Ec; [| congruence].
  exists g, c, m. repeat split; assumption.
Qed.

Lemma grabbed_parts :
  exists g c m,
    mainGroup grabbed = Some g /\ camera grabbed = Some c /\
    nth_error (photoMeshes grabbed) 0 = Some m.
Proof.
  destruct (scene_present sameVector sameFrame grabbed
              (reachable_detectFrame sameVector sameFrame _ _
                 twoPhotos_reachable))
    as (Hg & Hc).
  destruct (mainGroup grabbed) as [g |] eqn:Eg; [| congruence].
  destruct (first_of_nonempty (photoMeshes grabbed)) as (m & Em).
  { rewrite (proj1 (proj2 (proj2 grabbed_facts))),
      (proj2 (proj2 twoPhotos_facts)). lia. }
  destruct (camera grabbed) as [c |] eqn:Ec; [| congruence].
  exists g, c, m. repeat split; assumption.
Qed.

Lemma photo_approaches_witness :
  exists m m',
    nth_error (photoMeshes twoPhotos) 0 = Some m /\
    nth_error (photoMeshes (frames sameVector sameFrame 5 twoPhotos)) 0 =
      Some m' /\
    userData m' = userData m.
Proof.
  destruct twoPhotos_parts as (g & c & m & Eg & _ & Em).
  destruct (photo_approaches sameVector sameFrame twoPhotos g 0 m 5 Eg Em)
    as (m' & E' & Hu & _).
  - rewrite (proj1 twoPhotos_facts). discriminate.
  - exists m, m'. split; [exact Em |]. split; [exact E' | exact Hu].
Defined.

Lemma zoomed_photo_grows_witness :
  exists m m' c,
    nth_error (photoMeshes grabbed) 0 = Some m /\
    camera grabbed = Some c /\
    nth_error (photoMeshes (frames sameVector sameFrame 5 grabbed)) 0 =
      Some m' /\
    orientation m' = LookAt (camPosition c).
Proof.
  destruct grabbed_parts as (g & c & m & Eg & Ec & Em).
  destruct (zoomed_photo_grows sameVector sameFrame grabbed g 0 m 5 Eg Em)
    as (m' & E' & _ & Hc & _).
  - exact (proj1 grabbed_facts).
  - rewrite (proj2 (proj2 (proj2 grabbed_facts))). reflexivity.
  - exists m, m', c. split; [exact Em |]. split; [exact Ec |].
    split; [exact E' |].
    apply (proj2 (Hc c Ec)). lia.
Defined.

Lemma mounted_dust :
  (0 < length (dust (logicData mounted)))%nat /\
  Forall (fun p =>
            -60 <= Vector3.y (dustPos p) <= 60 /\
            Vector3.x (dustPos p) * Vector3.x (dustPos p) +
            Vector3.z (dustPos p) * Vector3.z (dustPos p) <= 71 * 71)
         (dust (logicData mounted)).
Proof.
  split.
  { rewrite (proj1 (initThree_dust half)). cbn. lia. }
  destruct (initThree_motes half) as (n & -> & _).
  apply createMotes_Forall; [| constructor].
  intros k. unfold half. cbn [dustPos Vector3.x Vector3.y Vector3.z].
  split; [lra | nra].
Qed.


Lemma scattered_mote :
  exists p, nth_error (dust (logicData scattered)) 0 = Some p.
Proof.
  apply first_of_nonempty.
  rewrite (proj1 (detectFrame_scene (Some [openHand]) mounted)).
  exact (proj1 mounted_dust).
Qed.

Lemma dust_bobs_outside_TREE_witness :
  exists p p',
    nth_error (dust (logicData scattered)) 0 = Some p /\
    nth_error (dust (logicData (frames sameVector sameFrame 20 scattered))) 0 =
      Some p' /\
    Vector3.x (dustPos p') = Vector3.x (dustPos p) /\
    Rabs (Vector3.y (dustPos p') - Vector3.y (dustPos p)) <= 0.05 * INR 20.
Proof.
  destruct scattered_mote as (p & Ep).
  destruct scattered_facts as (Hm & _ & _ & _ & _ & _ & _ & Hg & _).
  destruct (dust_bobs_outside_TREE sameVector sameFrame scattered 0 p 20 Hg)
    as (p' & E' & Hx & _ & _ & Hy).
  - rewrite Hm. discriminate.
  - exact Ep.
  - exists p, p'. split; [exact Ep |]. split; [exact E' |].
    split; [exact Hx | exact Hy].
Defined.

Lemma dust_buffer_mirrors_motes_witness :
  exists p' positions',
    nth_error (dust (logicData (play mounted))) 0 = Some p' /\
    dustSystem (play mounted) = Some positions' /\
    nth_error positions' (0 * 3 + 1) = Some (fround (Vector3.y (dustPos p'))).
Proof.
  destruct (initThree_scene half) as (mg & ms & mgm & me & motes & Eg & _).
  destruct (initThree_dust half) as (_ & pos & Ep & Hp).
  destruct (first_of_nonempty _ (proj1 mounted_dust)) as (p & Em).
  destruct (dust_buffer_mirrors_motes sameVector sameFrame mounted _ pos 0 p
              Eg Ep)
    as (p' & pos' & E1 & E2 & _ & _ & Hy & _).
  - rewrite Hp. cbn. lia.
  - exact Em.
  - exists p', pos'. split; [exact E1 |]. split; [exact E2 | exact Hy].
Defined.

Lemma wave_gives_one_impulse_witness :
  rotVelocity waved =
    mkXY ((x (rotVelocity scattered)
           + (ly (mkLandmark 0.5 0 0) - y (lastHandPos scattered)) * 0.2)
          * 0.95)
         ((y (rotVelocity scattered)
           + (lx (mkLandmark 0.5 0 0) - x (lastHandPos scattered)) * 0.2)
          * 0.95) /\
  y (rotVelocity waved) = 0.038.
Proof.
  destruct scattered_facts as (Hm & Hc & _ & _ & _ & _ & _ & Hg & _).
  split.
  - exact (proj1 (proj2
             (proj1 (proj2
                (wave_gives_one_impulse sameVector sameFrame movedHand
                   scattered (mkLandmark 0.5 0 0) eq_refl isFist_movedHand
                   isPinch_movedHand Hg)) Hm Hc))).
  - rewrite (proj1 (proj2 (proj2 waved_facts))). reflexivity.
Defined.

Lemma reachable_scene_invariant_witness :
  photoCount grabbed = length (photoMeshes grabbed).
Proof.
  apply (reachable_scene_invariant sameVector sameFrame grabbed).
  apply reachable_detectFrame. exact twoPhotos_reachable.
Defined.

Lemma mount_scatters_dust_witness :
  (forall k, 0 <= half k < 1) /\
  Forall (fun p =>
            (-50 <= Vector3.x (dustPos p) < 50 /\
             -50 <= Vector3.y (dustPos p) < 50 /\
             -50 <= Vector3.z (dustPos p) < 50) /\
            baseY p = Vector3.y (dustPos p) /\
            0.02 <= speed p < 0.07)
         (dust (logicData mounted)).
Proof.
  assert (H : forall k, 0 <= half k < 1) by (intros k; unfold half; lra).
  split; [exact H |].
  exact (proj1 (mount_scatters_dust half H)).
Defined.

Lemma addPhoto_placement_witness :
  exists mesh,
    photoMeshes (addPhoto 3 4 half mounted) = photoMeshes mounted ++ [mesh] /\
    planeHeight mesh = 4 /\
    planeWidth mesh * 4 = planeHeight mesh * 3.
Proof.
  assert (H : forall k, 0 <= half k < 1) by (intros k; unfold half; lra).
  destruct (initThree_scene half) as (mg & ms & mgm & me & motes & Eg & _).
  destruct (addPhoto_placement 3 4 half mounted _ Eg H ltac:(lra))
    as (mesh & tree & scatter & E & Hh & Hw & _).
  exists mesh. split; [exact E |]. split; [exact Hh | exact Hw].
Defined.

(** ** The instances in [SCATTER], and what is drawn *)

Section Instances.

Variable applyQuaternion : R * R * R * R -> Vector3.t -> Vector3.t.
Variable worldToLocal : Group -> Vector3.t -> Vector3.t.

Local Abbreviation frame := (animate applyQuaternion worldToLocal).
Local Abbreviation run := (frames applyQuaternion worldToLocal).

(** Instance [j] over [n] frames in any mode: the clock advances by 0.01
    per frame, and the fields that [animate] only reads are kept. *)
Lemma run_item_kept (s : App) (c : Category) (j : nat) (item : InstanceData)
  (n : nat) :
  sceneBuilt s ->
  nth_error (getData c (logicData s)) j = Some item ->
  sceneBuilt (run n s) /\
  stateRef (run n s) = stateRef s /\
  time (run n s) = time s + 0.01 * INR n /\
  exists item_n,
    nth_error (getData c (logicData (run n s))) j = Some item_n /\
    treePos item_n = treePos item /\
    scatterPos item_n = scatterPos item /\
    scale item_n = scale item /\
    rotSpeed item_n = rotSpeed item.
Proof.
  intros Hb Hj. induction n as [| n IH].
  - cbn [frames INR]. split; [exact Hb |]. split; [reflexivity |].
    split; [ring |]. exists item. repeat split. exact Hj.
  - destruct IH as (Hbn & Hmn & Htn & item_n & Hjn & Ht & Hs & Hsc & Hrs).
    change (run (S n) s) with (frame (run n s)).
    destruct (animate_built applyQuaternion worldToLocal (run n s) Hbn)
      as (_ & _ & Ht' & Hb').
    destruct (animate_refs applyQuaternion worldToLocal (run n s))
      as (_ & Hm' & _).
    destruct (animate_item applyQuaternion worldToLocal (run n s) c j item_n
                Hbn Hjn) as (Hj' & _).
    destruct (updateItem_fields (stateRef (run n s)) (time (run n s) + 0.01)
                j item_n) as (F1 & F2 & F3 & F4).
    split; [exact Hb' |]. split; [congruence |].
    split; [rewrite Ht', Htn, S_INR; ring |].
    eexists. split; [exact Hj' |].
    repeat split; congruence.
Qed.

(** X19: an instance in [SCATTER].  On x and z its gap to the scatter
    target shrinks by the factor 0.94 per frame, as in the other modes.  On
    y the sinusoid added after the blend keeps it from settling, but not far
    from the target: after [n] frames the gap is at most [0.94 ^ n] times
    the initial gap plus [(1 - 0.94 ^ n) / 3], so less than a third of a unit
    in the long run. *)
Theorem instance_bobs_in_SCATTER (s : App) (c : Category) (j : nat)
  (item : InstanceData) (n : nat) :
  sceneBuilt s ->
  stateRef s = SCATTER ->
  nth_error (getData c (logicData s)) j = Some item ->
  exists item_n,
    nth_error (getData c (logicData (run n s))) j = Some item_n /\
    Vector3.x (scatterPos item) - Vector3.x (currentPos item_n) =
      0.94 ^ n * (Vector3.x (scatterPos item) - Vector3.x (currentPos item)) /\
    Vector3.z (scatterPos item) - Vector3.z (currentPos item_n) =
      0.94 ^ n * (Vector3.z (scatterPos item) - Vector3.z (currentPos item)) /\
    Rabs (Vector3.y (scatterPos item) - Vector3.y (currentPos item_n)) <=
      0.94 ^ n *
      Rabs (Vector3.y (scatterPos item) - Vector3.y (currentPos item))
      + (1 - 0.94 ^ n) / 3.
Proof.
  intros Hb Hm Hj. induction n as [| n (item_n & Hjn & Gx & Gz & Gy)].
  - exists item. cbn [frames pow]. split; [exact Hj |].
    split; [ring |]. split; [ring |]. lra.
  - destruct (run_item_kept s c j item n Hb Hj)
      as (Hbn & Hmn & _ & item_n' & Hjn' & _ & Hs & _).
    assert (item_n' = item_n) by congruence. subst item_n'.
    change (run (S n) s) with (frame (run n s)).
    destruct (animate_item applyQuaternion worldToLocal (run n s) c j item_n
                Hbn Hjn) as (Hj' & _).
    eexists. split; [exact Hj' |].
    rewrite Hmn, Hm, updateItem_currentPos_SCATTER. cbv zeta.
    rewrite Hs.
    cbn [Vector3.set_y Vector3.lerp Vector3.x Vector3.y Vector3.z pow].
    split; [lra |]. split; [lra |].
    pose proof (SIN_bound (time (run n s) + 0.01 + INR j)) as [S1 S2].
    pose proof (Rle_abs (Vector3.y (scatterPos item) -
                         Vector3.y (currentPos item_n))) as G1.
    pose proof (Rle_abs (- (Vector3.y (scatterPos item) -
                            Vector3.y (currentPos item_n)))) as G2.
    rewrite Rabs_Ropp in G2.
    assert (Hp : 0 < 0.94 ^ n) by (apply pow_lt; lra).
    apply Rabs_le. lra.
Qed.

(** X20: what is drawn for an instance.  After every frame the matrix of
    instance [j] carries the position just stored for it, and a rotation
    that is the clock times the spin rates of the instance: the spin is not
    accumulated, it is read off the clock, which has advanced by 0.01 per
    frame. *)
Theorem rendered_follows_instance (s : App) (c : Category) (j : nat)
  (item : InstanceData) (n : nat) :
  sceneBuilt s ->
  nth_error (getData c (logicData s)) j = Some item ->
  exists item' matrices tr,
    nth_error (getData c (logicData (run (S n) s))) j = Some item' /\
    rendered c (run (S n) s) = Some matrices /\
    nth_error matrices j = Some tr /\
    t_position tr = currentPos item' /\
    t_rotation tr =
      Euler.mk ((time s + 0.01 * INR (S n)) * x (rotSpeed item))
               ((time s + 0.01 * INR (S n)) * y (rotSpeed item)) 0 /\
    time (run (S n) s) = time s + 0.01 * INR (S n).
Proof.
  intros Hb Hj.
  destruct (run_item_kept s c j item n Hb Hj)
    as (Hbn & _ & Htn & item_n & Hjn & _ & _ & _ & Hrs).
  destruct (run_item_kept s c j item (S n) Hb Hj) as (_ & _ & Hts & _).
  change (run (S n) s) with (frame (run n s)) in *.
  destruct (animate_item applyQuaternion worldToLocal (run n s) c j item_n
              Hbn Hjn) as (Hj' & ms & Hr & Hn).
  eexists. exists ms. eexists.
  split; [exact Hj' |]. split; [exact Hr |]. split; [exact Hn |].
  split; [reflexivity |]. split; [| exact Hts].
  unfold updateItem. cbn [snd t_rotation]. rewrite Hrs, Htn, S_INR.
  f_equal; ring.
Qed.

End Instances.

Lemma instance_bobs_in_SCATTER_witness :
  exists item_n,
    nth_error
      (getData Gold (logicData (frames sameVector sameFrame 50 scattered))) 0 =
      Some item_n /\
    Vector3.x (scatterPos (createItem half 0)) - Vector3.x (currentPos item_n) =
      0.94 ^ 50 *
      (Vector3.x (scatterPos (createItem half 0)) -
       Vector3.x (currentPos (createItem half 0))).
Proof.
  destruct scattered_facts as (Hm & _ & _ & _ & _ & _ & _ & _ & Hb).
  destruct (instance_bobs_in_SCATTER sameVector sameFrame scattered Gold 0
              (createItem half 0) 50 Hb Hm)
    as (item_n & Hj & Hx & _).
  - rewrite (proj1 (detectFrame_scene (Some [openHand]) mounted)).
    exact (first_gold_item half).
  - exists item_n. split; [exact Hj | exact Hx].
Defined.

Lemma rendered_follows_instance_witness :
  exists item' matrices tr,
    nth_error
      (getData Gold (logicData (frames sameVector sameFrame 3 mounted))) 0 =
      Some item' /\
    rendered Gold (frames sameVector sameFrame 3 mounted) = Some matrices /\
    nth_error matrices 0 = Some tr /\
    t_position tr = currentPos item'.
Proof.
  destruct (rendered_follows_instance sameVector sameFrame mounted Gold 0
              (createItem half 0) 2)
    as (item' & ms & tr & Hj & Hr & Hn & Hp & _).
  - exact (proj2 (proj2 (proj2 (proj2 (proj2 mounted_facts))))).
  - exact (first_gold_item half).
  - exists item', ms, tr.
    split; [exact Hj |]. split; [exact Hr |]. split; [exact Hn | exact Hp].
Defined.
